(** * Request-execution core of the template scanner: auth lookup, DNS and
      raw-TCP execution, HTTP port override

    A shallow embedding of

      - [pkg/authprovider/file.go]            (module [AuthProvider]),
      - the DNS request executor               (module [DNS]),
      - the network (raw TCP) request executor (module [Network]),
      - [v2/pkg/protocols/http/build_request.go], [UsePortFromPayload]
                                               (module [HTTP]),

    together with the few functions of the Go standard library they call
    (module [Go]).  Go strings are byte strings and are modelled by [string];
    Go maps are [gmap]s (or entry lists where the key is a pointer); the
    side effects of the executors are recorded in an effect trace. *)

From Stdlib Require Import ZArith Ascii String List Permutation Lia Bool.
From stdpp Require Import base option list strings gmap fin_maps.

Local Open Scope string_scope.
Local Open Scope list_scope.

(* ===================================================================== *)
(** * Go runtime and standard library                                     *)
(* ===================================================================== *)

Module Go.

(** A Go [error] value.  [nil] is [None] of [option error].
    [Sentinel] stands for a package-level error variable compared by
    identity, [Wrap] for [errors.Wrap]/[errorutil.NewWithErr(..).Msgf],
    [Multi] for a [multierr] aggregate, [AddrError] for [*net.AddrError],
    [Timeout] for an error on which [os.IsTimeout] answers true. *)
#[local] Unset Elimination Schemes.
Inductive error : Type :=
| New (msg : string)
| Sentinel (name : string)
| Wrap (cause : error) (msg : string)
| AddrError (why addr : string)
| Timeout (msg : string)
| Multi (errs : list error).
#[local] Set Elimination Schemes.

(** [os.IsTimeout]. *)
Definition IsTimeout (e : error) : bool :=
  match e with Timeout _ => true | _ => false end.

(** [multierr.Combine]: nil for no error, the error itself for one, an
    aggregate otherwise. *)
Definition Combine (errs : list error) : option error :=
  match errs with
  | [] => None
  | [e] => Some e
  | _ => Some (Multi errs)
  end.

(** ** Package [strings] on byte strings *)

Fixpoint HasPrefix (s prefix : string) : bool :=
  match prefix, s with
  | EmptyString, _ => true
  | String p prefix', String c s' => Ascii.eqb p c && HasPrefix s' prefix'
  | String _ _, EmptyString => false
  end.

(** [strings.Index]: byte offset of the first occurrence of [substr]. *)
Fixpoint Index (s substr : string) : option nat :=
  if HasPrefix s substr then Some 0
  else match s with
       | EmptyString => None
       | String _ s' => S <$> Index s' substr
       end.

Definition Contains (s substr : string) : bool := bool_decide (is_Some (Index s substr)).

Fixpoint IndexByte (s : string) (c : ascii) : option nat :=
  match s with
  | EmptyString => None
  | String a s' => if Ascii.eqb a c then Some 0 else S <$> IndexByte s' c
  end.

Fixpoint LastIndexByte (s : string) (c : ascii) : option nat :=
  match s with
  | EmptyString => None
  | String a s' =>
      match LastIndexByte s' c with
      | Some i => Some (S i)
      | None => if Ascii.eqb a c then Some 0 else None
      end
  end.

(** [s[:n]] and [s[n:]]. *)
Fixpoint str_take (n : nat) (s : string) : string :=
  match n, s with
  | S n', String a s' => String a (str_take n' s')
  | _, _ => EmptyString
  end.

Fixpoint str_drop (n : nat) (s : string) : string :=
  match n, s with
  | S n', String _ s' => str_drop n' s'
  | _, _ => s
  end.

(** [s[i:j]]. *)
Definition slice (i j : nat) (s : string) : string := str_take (j - i) (str_drop i s).

(** [strings.Replace(s, old, new, 1)]: only the first occurrence of
    [old] is replaced. *)
Definition Replace1 (s old new : string) : string :=
  match Index s old with
  | Some i => str_take i s ++ new ++ str_drop (i + String.length old) s
  | None => s
  end.

Definition TrimSuffix (s suffix : string) : string :=
  let n := String.length s - String.length suffix in
  if bool_decide (String.length suffix <= String.length s) && String.eqb (str_drop n s) suffix
  then str_take n s else s.

(** ** [net.SplitHostPort] *)

Definition missingPort := "missing port in address".
Definition tooManyColons := "too many colons in address".

Definition first_byte (s : string) : option ascii :=
  match s with String a _ => Some a | EmptyString => None end.

Definition SplitHostPort (hostport : string) : (string * string) + error :=
  let addrErr why := inr (AddrError why hostport) in
  match LastIndexByte hostport ":" with
  | None => addrErr missingPort
  | Some i =>
      let finish host j k :=
        if bool_decide (is_Some (IndexByte (str_drop j hostport) "["))
        then addrErr "unexpected '[' in address"
        else if bool_decide (is_Some (IndexByte (str_drop k hostport) "]"))
        then addrErr "unexpected ']' in address"
        else inl (host, str_drop (i + 1) hostport) in
      if bool_decide (first_byte hostport = Some "["%char) then
        match IndexByte hostport "]" with
        | None => addrErr "missing ']' in address"
        | Some e =>
            if bool_decide (e + 1 = String.length hostport) then addrErr missingPort
            else if bool_decide (e + 1 = i) then finish (slice 1 e hostport) 1 (e + 1)
            else if bool_decide (first_byte (str_drop (e + 1) hostport) = Some ":"%char)
            then addrErr tooManyColons
            else addrErr missingPort
        end
      else
        let host := str_take i hostport in
        if bool_decide (is_Some (IndexByte host ":")) then addrErr tooManyColons
        else finish host 0 0
  end.

(** ** Functions of the standard library that depend on Unicode tables or
    on the regular-expression engine

    They are interfaces here; the theorems hold for every implementation.
    [EqualFold] and [TrimSpace] are [strings.EqualFold] and
    [strings.TrimSpace]; [Regexp], [Compile] and [MatchString] are
    [*regexp.Regexp], [regexp.Compile] (with [None] for a compile error)
    and the method [MatchString] of a compiled pattern. *)
Class Unicode := {
  EqualFold : string -> string -> bool;
  TrimSpace : string -> string;
}.

Class RegexpEngine := {
  Regexp : Type;
  Compile : string -> option Regexp;
  MatchString : Regexp -> string -> bool;
}.

End Go.

(* ===================================================================== *)
(** * An executable instance of the library interfaces                    *)
(* ===================================================================== *)

(** Concrete runs need an implementation of [Go.Unicode] and of
    [Go.RegexpEngine].  The one below agrees with Go on ASCII strings and on
    the fragment of the RE2 syntax it parses: literal bytes, [.], escaped
    punctuation, the postfix operators [*], [+], [?] (also in their lazy
    form), a leading [^] and a trailing [$].  A grammatical Go pattern
    outside the fragment is reported as [Unsupported]; runs in this file
    only use patterns inside it. *)

Module GoAscii.

Definition is_upper (c : ascii) : bool :=
  let n := nat_of_ascii c in (65 <=? n)%nat && (n <=? 90)%nat.

Definition lower (c : ascii) : ascii :=
  if is_upper c then ascii_of_nat (nat_of_ascii c + 32) else c.

Fixpoint EqualFold (s t : string) : bool :=
  match s, t with
  | EmptyString, EmptyString => true
  | String a s', String b t' => Ascii.eqb (lower a) (lower b) && EqualFold s' t'
  | _, _ => false
  end.

(** The ASCII white space of [unicode.IsSpace]: tab, line feed, vertical
    tab, form feed, carriage return, space. *)
Definition is_space (c : ascii) : bool :=
  let n := nat_of_ascii c in ((9 <=? n)%nat && (n <=? 13)%nat) || (n =? 32)%nat.

Fixpoint trim_left (s : string) : string :=
  match s with
  | String c s' => if is_space c then trim_left s' else s
  | EmptyString => EmptyString
  end.

Fixpoint trim_right (s : string) : string :=
  match s with
  | EmptyString => EmptyString
  | String c s' =>
      match trim_right s' with
      | EmptyString => if is_space c then EmptyString else String c EmptyString
      | r => String c r
      end
  end.

Definition TrimSpace (s : string) : string := trim_right (trim_left s).

#[export] Instance ascii_unicode : Go.Unicode :=
  {| Go.EqualFold := EqualFold; Go.TrimSpace := TrimSpace |}.

(** ** Patterns *)

Inductive atom := AChar (c : ascii) | AAny.
Inductive rep := One | Star | Plus | Opt.

Record pattern := {
  bol : bool;                 (* the pattern starts with ^ *)
  items : list (atom * rep);
  eol : bool;                 (* the pattern ends with $ *)
}.

Inductive token :=
| TLit (c : ascii) | TDot | TStar | TPlus | TQuest | TCaret | TDollar | TOther.

Inductive parsed (A : Type) := Parsed (a : A) | SyntaxError | Unsupported.
Arguments Parsed {A} a.
Arguments SyntaxError {A}.
Arguments Unsupported {A}.

Definition is_alnum (c : ascii) : bool :=
  let n := nat_of_ascii c in
  ((48 <=? n)%nat && (n <=? 57)%nat) || ((65 <=? n)%nat && (n <=? 90)%nat)
  || ((97 <=? n)%nat && (n <=? 122)%nat).

Definition is_meta (c : ascii) : bool :=
  existsb (Ascii.eqb c) (list_ascii_of_string "()|[]{}").

(** A trailing backslash is a syntax error in Go; an escaped letter or
    digit is a class or an assertion, outside the fragment. *)
Fixpoint tokenize (s : string) : parsed (list token) :=
  match s with
  | EmptyString => Parsed []
  | String c s' =>
      if Ascii.eqb c "\" then
        match s' with
        | EmptyString => SyntaxError
        | String d s'' =>
            if is_alnum d || (128 <=? nat_of_ascii d)%nat then Unsupported
            else match tokenize s'' with
                 | Parsed ts => Parsed (TLit d :: ts)
                 | r => r
                 end
        end
      else
        let t :=
          if Ascii.eqb c "." then TDot
          else if Ascii.eqb c "*" then TStar
          else if Ascii.eqb c "+" then TPlus
          else if Ascii.eqb c "?" then TQuest
          else if Ascii.eqb c "^" then TCaret
          else if Ascii.eqb c "$" then TDollar
          else if is_meta c || (128 <=? nat_of_ascii c)%nat then TOther
          else TLit c in
        match tokenize s' with
        | Parsed ts => Parsed (t :: ts)
        | r => r
        end
  end.

Definition rep_of (t : token) : option rep :=
  match t with
  | TStar => Some Star | TPlus => Some Plus | TQuest => Some Opt | _ => None
  end.

Definition atom_of (t : token) : option atom :=
  match t with TLit c => Some (AChar c) | TDot => Some AAny | _ => None end.

(** [parse_items ts]: the items of [ts] and whether it ends with [$].
    A repetition operator with nothing to repeat, or stacked on another
    one, is Go's "missing argument to repetition operator" or "invalid
    nested repetition operator". *)
Fixpoint parse_items (fuel : nat) (ts : list token) : parsed (list (atom * rep) * bool) :=
  match fuel with
  | O => Unsupported
  | S fuel' =>
      match ts with
      | [] => Parsed ([], false)
      | [TDollar] => Parsed ([], true)
      | t :: ts1 =>
          match atom_of t with
          | None => if bool_decide (is_Some (rep_of t)) then SyntaxError else Unsupported
          | Some a =>
              let '(r, ts2) :=
                match ts1 with
                | t1 :: ts1' =>
                    match rep_of t1 with
                    | Some r =>
                        (r, match ts1' with TQuest :: ts1'' => ts1'' | _ => ts1' end)
                    | None => (One, ts1)
                    end
                | [] => (One, ts1)
                end in
              let stacked :=
                match r, ts2 with
                | One, _ => false
                | _, t2 :: _ => bool_decide (is_Some (rep_of t2))
                | _, [] => false
                end in
              if stacked then SyntaxError
              else match parse_items fuel' ts2 with
                   | Parsed (its, e) => Parsed ((a, r) :: its, e)
                   | r => r
                   end
          end
      end
  end.

Definition parse (s : string) : parsed pattern :=
  match tokenize s with
  | Parsed ts =>
      let '(b, ts') := match ts with TCaret :: ts' => (true, ts') | _ => (false, ts) end in
      match parse_items (S (length ts')) ts' with
      | Parsed (its, e) => Parsed {| bol := b; items := its; eol := e |}
      | SyntaxError => SyntaxError
      | Unsupported => Unsupported
      end
  | SyntaxError => SyntaxError
  | Unsupported => Unsupported
  end.

(** ** Matching *)

(** [.] matches every byte but a line feed. *)
Definition atom_ok (a : atom) (c : ascii) : bool :=
  match a with
  | AChar d => Ascii.eqb c d
  | AAny => negb (Ascii.eqb c "010")
  end.

Fixpoint star (a : atom) (k : string -> bool) (s : string) : bool :=
  k s || match s with
         | String c s' => atom_ok a c && star a k s'
         | EmptyString => false
         end.

Definition one (a : atom) (k : string -> bool) (s : string) : bool :=
  match s with
  | String c s' => atom_ok a c && k s'
  | EmptyString => false
  end.

Fixpoint match_items (its : list (atom * rep)) (k : string -> bool) (s : string) : bool :=
  match its with
  | [] => k s
  | (a, One) :: r => one a (match_items r k) s
  | (a, Star) :: r => star a (match_items r k) s
  | (a, Plus) :: r => one a (star a (match_items r k)) s
  | (a, Opt) :: r => match_items r k s || one a (match_items r k) s
  end.

Fixpoint somewhere (k : string -> bool) (s : string) : bool :=
  k s || match s with String _ s' => somewhere k s' | EmptyString => false end.

Definition MatchString (p : pattern) (s : string) : bool :=
  let final := if eol p then (fun rest => String.eqb rest "") else (fun _ => true) in
  if bol p then match_items (items p) final s
  else somewhere (match_items (items p) final) s.

Definition Compile (s : string) : option pattern :=
  match parse s with Parsed p => Some p | _ => None end.

#[export] Instance ascii_regexp : Go.RegexpEngine :=
  {| Go.Regexp := pattern; Go.Compile := Compile; Go.MatchString := MatchString |}.

End GoAscii.

(* ===================================================================== *)
(** * [pkg/authprovider/file.go]                                          *)
(* ===================================================================== *)

Module AuthProvider.
Import Go.

(** Modelled from the spec: the record [authx.Secret] is declared outside
    the sources at hand.  A secret of the secrets file carries a strategy
    kind, the per-strategy credentials and two match sets, the exact
    domains and the regular-expression patterns. *)
Record Secret := {
  SecretType : string;
  Domains : list string;
  DomainsRegex : list string;
  Username : string;
  Password : string;
}.

(** [authx.Authx], the parsed secrets file. *)
Record Authx := { Secrets : list Secret }.

(** The functions of package [authx] that [file.go] calls.  [Strategy] is
    the set of non-nil values of the interface [authx.AuthStrategy]; an
    interface value is an [option Strategy], nil being [None]. *)
Class AuthxPackage := {
  Strategy : Type;
  GetAuthDataFromFile : string -> Authx + error;
  Validate : Secret -> option error;
  GetStrategy : Secret -> option Strategy;
}.

(** The package-level variable [ErrNoSecrets]. *)
Definition ErrNoSecrets : error := Sentinel "ErrNoSecrets".

Section Provider.
Context `{U : Unicode} `{R : RegexpEngine} `{A : AuthxPackage}.

Definition AuthStrategy : Type := option Strategy.

(** [compiled] is a [map[*regexp.Regexp]authx.AuthStrategy]: every
    successful [regexp.Compile] allocates a new key, so the map is the
    collection of its entries.  The list holds them in the order of
    insertion, an order the Go map itself does not keep (see [LookupAddr]).
    [domains] is a [map[string]authx.AuthStrategy]. *)
Record FileAuthProvider := {
  Path : string;
  store : Authx;
  compiled : list (Regexp * AuthStrategy);
  domains : gmap string AuthStrategy;
}.

(** One iteration of the inner loop over [secret.DomainsRegex]: a pattern
    that does not compile is skipped by [continue]. *)
Definition init_regex (secret : Secret) (f : FileAuthProvider) (domain : string)
  : FileAuthProvider :=
  match Compile domain with
  | None => f
  | Some c =>
      {| Path := Path f; store := store f;
         compiled := compiled f ++ [(c, GetStrategy secret)];
         domains := domains f |}
  end.

(** One iteration of the loop over [secret.Domains]. *)
Definition init_domain (secret : Secret) (f : FileAuthProvider) (domain : string)
  : FileAuthProvider :=
  {| Path := Path f; store := store f;
     compiled := compiled f;
     domains := <[TrimSpace domain := GetStrategy secret]> (domains f) |}.

Definition init_secret (f : FileAuthProvider) (secret : Secret) : FileAuthProvider :=
  foldl (init_domain secret) (foldl (init_regex secret) f (DomainsRegex secret))
        (Domains secret).

(** [FileAuthProvider.init]. *)
Definition init (f : FileAuthProvider) : FileAuthProvider :=
  foldl init_secret f (Secrets (store f)).

(** The validation loop of [NewFileAuthProvider]: the error of the first
    secret that does not validate. *)
Fixpoint validate_secrets (secrets : list Secret) : option error :=
  match secrets with
  | [] => None
  | secret :: rest =>
      match Validate secret with
      | Some err => Some err
      | None => validate_secrets rest
      end
  end.

(** [NewFileAuthProvider]. *)
Definition NewFileAuthProvider (path : string) : FileAuthProvider + error :=
  match GetAuthDataFromFile path with
  | inr err => inr err
  | inl st =>
      if bool_decide (length (Secrets st) = 0) then inr ErrNoSecrets
      else match validate_secrets (Secrets st) with
           | Some err => inr (Wrap err ("invalid secret in file: " ++ path))
           | None =>
               inl (init {| Path := path; store := st; compiled := []; domains := ∅ |})
           end
  end.

(** The default normalization for [host:port] at the head of
    [LookupAddr]. *)
Definition normalize (addr : string) : string :=
  if Contains addr ":" then
    match SplitHostPort addr with
    | inl (host, port) =>
        if String.eqb port "80" || String.eqb port "443" then host else addr
    | inr _ => addr
    end
  else addr.

(** A [for k, v := range m] loop whose body returns [v] at the first key
    that satisfies [hit]; [None] when the loop runs to its end. *)
Fixpoint range_return {K : Type} (hit : K -> bool) (entries : list (K * AuthStrategy))
  : option AuthStrategy :=
  match entries with
  | [] => None
  | (k, strategy) :: rest => if hit k then Some strategy else range_return hit rest
  end.

(** The two loops of [LookupAddr] on an already normalized address, with
    the entries of the two maps in the order the [range] statements visit
    them. *)
Definition lookup_scan (dorder : list (string * AuthStrategy))
    (corder : list (Regexp * AuthStrategy)) (addr : string) : AuthStrategy :=
  match range_return (fun domain => EqualFold domain addr) dorder with
  | Some strategy => strategy
  | None =>
      match range_return (fun c => MatchString c addr) corder with
      | Some strategy => strategy
      | None => None
      end
  end.

(** [LookupAddr] for given visiting orders. *)
Definition LookupAddr_in (dorder : list (string * AuthStrategy))
    (corder : list (Regexp * AuthStrategy)) (addr : string) : AuthStrategy :=
  lookup_scan dorder corder (normalize addr).

(** The order in which [range] visits a Go map is not specified and
    changes from one loop to the next: a loop may visit the entries in any
    order.  [visits m l]: [l] is such an order for the entries [m]. *)
Definition visits {K : Type} (entries order : list (K * AuthStrategy)) : Prop :=
  order ≡ₚ entries.

(** [FileAuthProvider.LookupAddr]: [LookupAddr f addr r] when a call may
    return [r]. *)
Inductive LookupAddr (f : FileAuthProvider) (addr : string) : AuthStrategy -> Prop :=
| LookupAddr_run dorder corder :
    visits (map_to_list (domains f)) dorder ->
    visits (compiled f) corder ->
    LookupAddr f addr (LookupAddr_in dorder corder addr).

(** The same two loops on the bare address, without the normalization:
    what "matching on [addr]" means. *)
Inductive lookup_on (f : FileAuthProvider) (addr : string) : AuthStrategy -> Prop :=
| lookup_on_run dorder corder :
    visits (map_to_list (domains f)) dorder ->
    visits (compiled f) corder ->
    lookup_on f addr (lookup_scan dorder corder addr).







(** The entries [init] puts into [compiled] for a list of secrets, written
    as a comprehension; the patterns on which [skip] answers true are left
    out of it. *)
Definition pattern_entries (skip : string -> bool) (secrets : list Secret)
  : list (Regexp * AuthStrategy) :=
  flat_map (fun secret =>
    flat_map (fun domain =>
      if skip domain then []
      else match Compile domain with
           | Some c => [(c, GetStrategy secret)]
           | None => []
           end) (DomainsRegex secret)) secrets.

End Provider.

(** Modelled from the spec: [Secret.Validate] is declared outside the
    sources at hand.  A secret is valid when at least one of its domain set
    and its pattern set is non-empty and its strategy is well formed;
    [wellformed] is the check of the strategy. *)
Definition spec_Validate (wellformed : Secret -> bool) (secret : Secret) : option error :=
  if bool_decide (length (Domains secret) = 0 /\ length (DomainsRegex secret) = 0)
  then Some (New "domains or domains-regex cannot be empty")
  else if wellformed secret then None
  else Some (New "invalid strategy").

(** What the spec calls an invalid secret. *)
Definition invalid (wellformed : Secret -> bool) (secret : Secret) : Prop :=
  (Domains secret = [] /\ DomainsRegex secret = []) \/ wellformed secret = false.

(** Package [authx] with [spec_Validate] for [Validate]; the loader of the
    secrets file, the check of a strategy and the constructor of strategies
    remain parameters. *)
Definition spec_package (S : Type) (load : string -> Authx + error)
    (wellformed : Secret -> bool) (strategy_of : Secret -> option S) : AuthxPackage :=
  {| Strategy := S;
     GetAuthDataFromFile := load;
     Validate := spec_Validate wellformed;
     GetStrategy := strategy_of |}.

End AuthProvider.

(** ** Secrets files for concrete runs *)

Module AuthScenario.
Import Go AuthProvider.

(** Basic authentication is the one strategy of these runs. *)
Inductive strategy := Basic (username password : string).

Definition basic_wellformed (secret : Secret) : bool :=
  String.eqb (SecretType secret) "basic"
  && negb (String.eqb (Username secret) "") && negb (String.eqb (Password secret) "").

Definition basic_strategy (secret : Secret) : option strategy :=
  Some (Basic (Username secret) (Password secret)).

Fixpoint read_file (files : list (string * Authx)) (path : string) : Authx + error :=
  match files with
  | [] => inr (New "could not read secrets file")
  | (name, content) :: rest =>
      if String.eqb name path then inl content else read_file rest path
  end.

(** Package [authx] over a directory of parsed secrets files. *)
Definition package (files : list (string * Authx)) : AuthxPackage :=
  spec_package strategy (read_file files) basic_wellformed basic_strategy.

Definition basic (domains regexes : list string) (user pass : string) : Secret :=
  {| SecretType := "basic"; Domains := domains; DomainsRegex := regexes;
     Username := user; Password := pass |}.

(** Scenario "auth exact match": one secret for [api.example.com]. *)
Definition exact_file : Authx :=
  {| Secrets := [basic ["api.example.com"] [] "admin" "hunter2"] |}.

(** Two secrets whose patterns both match [api.example.com]. *)
Definition overlap_file : Authx :=
  {| Secrets := [basic [] ["example"] "alice" "a-secret";
                 basic [] ["^api\."] "bob" "b-secret"] |}.

(** A secret with a shell glob where a regular expression is expected:
    [regexp.Compile] rejects it ("missing argument to repetition
    operator"). *)
Definition glob_file : Authx :=
  {| Secrets := [basic ["api.example.com"] ["*.example.com"; "\.example\.org$"]
                       "admin" "hunter2"] |}.

Definition empty_file : Authx := {| Secrets := [] |}.

(** A secret without any domain, and one whose strategy lacks its
    password. *)
Definition nodomain_file : Authx :=
  {| Secrets := [basic ["api.example.com"] [] "admin" "hunter2";
                 basic [] [] "admin" "hunter2"] |}.

Definition files : list (string * Authx) :=
  [("exact.yaml", exact_file); ("overlap.yaml", overlap_file);
   ("glob.yaml", glob_file); ("empty.yaml", empty_file);
   ("nodomain.yaml", nodomain_file)].

#[export] Instance scenario_package : AuthxPackage := package files.
#[export] Existing Instance GoAscii.ascii_unicode.
#[export] Existing Instance GoAscii.ascii_regexp.

(** The provider [NewFileAuthProvider] builds from a file of [files]. *)
Definition provider_of (path : string) (content : Authx) : FileAuthProvider :=
  init {| Path := path; store := content; compiled := []; domains := ∅ |}.

Definition exact_provider : FileAuthProvider := provider_of "exact.yaml" exact_file.
Definition overlap_provider : FileAuthProvider := provider_of "overlap.yaml" overlap_file.
Definition glob_provider : FileAuthProvider := provider_of "glob.yaml" glob_file.

End AuthScenario.

(* ===================================================================== *)
(** * What the protocol executors share                                   *)
(* ===================================================================== *)

Module Protocols.
Import Go.

(** A value of [map[string]interface{}]. *)
Inductive value := VString (s : string) | VBool (b : bool) | VInt (n : Z).

(** [map[string]interface{}], also [output.InternalEvent]. *)
Abbreviation vars := (gmap string value).

(** Modelled from the spec: [generators.MergeMaps] is declared outside the
    sources at hand.  It builds a new map from its arguments; on a key
    that several of them bind, the last argument that binds it wins. *)
Definition MergeMaps (maps : list vars) : vars :=
  foldl (fun merged m => m ∪ merged) ∅ maps.

(** [for k, v := range src { dst[k] = v }]. *)
Definition copy_into (dst src : vars) : vars := src ∪ dst.

(** [output.InternalWrappedEvent]; [OperatorsResult] is kept abstract. *)
Record InternalWrappedEvent := {
  InternalEvent : vars;
  UsesInteractsh : bool;
}.

(** [protocols.Result], one element of the result channel. *)
Record Result := {
  Event : option InternalWrappedEvent;
  Error : option error;
}.

Inductive level := Warning | Verbose | Debug | Info.

(** The observable actions of an execution, in the order they happen. *)
Inductive effect :=
| Dial (address : string) (tls : bool)       (* a TCP or TLS connect of a request *)
| PortProbe (address : string)               (* a TCP connect of the port scan *)
| ConnWrite (data : string)                  (* bytes put on the wire *)
| ConnRead (size : Z) (data : string) (err : option error)
| ConnClose
| DNSQuery (request : string)                (* a DNS message put on the wire *)
| RateLimitTake
| OutputRequest (target : string) (err : option error)
| IncrementRequests
| IncrementFailedRequestsBy (n : nat)
| AddTemplateVars (event : vars)
| InteractshRequestEvent (urls : list string) (event : vars)
| Log (l : level) (format : string) (args : list string) (errs : list error).

(** Computations.  A computation reads and updates the template context of
    the input ([None] when [HasTemplateCtx] is false), appends its effects
    to the trace, and ends with a value or with a run-time panic. *)
Definition M (A : Type) : Type :=
  option vars -> (A + string) * list effect * option vars.

#[export] Instance M_ret : MRet M := fun A a ctx => (inl a, [], ctx).
#[export] Instance M_bind : MBind M := fun A B k m ctx =>
  match m ctx with
  | (inl a, effs, ctx') =>
      match k a ctx' with
      | (r, effs', ctx'') => (r, effs ++ effs', ctx'')
      end
  | (inr p, effs, ctx') => (inr p, effs, ctx')
  end.

Definition emit (e : effect) : M unit := fun ctx => (inl tt, [e], ctx).

Definition panic {A : Type} (msg : string) : M A := fun ctx => (inr msg, [], ctx).

Definition GetTemplateCtx : M (option vars) := fun ctx => (inl ctx, [], ctx).

(** [ExecutorOptions.AddTemplateVars] records the response fields in the
    template context; [update] is what it does to the context (nothing,
    unless the template has several protocols). *)
Definition AddTemplateVarsWith (update : option vars -> vars -> option vars)
    (event : vars) : M unit :=
  fun ctx => (inl tt, [AddTemplateVars event], update ctx event).

(** [defer f()]: [f] runs when the function returns and when it panics. *)
Definition defer {A : Type} (cleanup : M unit) (body : M A) : M A :=
  fun ctx =>
    match body ctx with
    | (r, effs, ctx') =>
        match cleanup ctx' with
        | (_, effs', ctx'') => (r, effs ++ effs', ctx'')
        end
    end.

(** The value, the effects and the final context of a run. *)
Definition value_of {A : Type} (run : (A + string) * list effect * option vars)
  : A + string := run.1.1.
Definition effects_of {A : Type} (run : (A + string) * list effect * option vars)
  : list effect := run.1.2.

(** The connects of the requests, the probes of the port scan, the bytes
    put on the wire and the log lines of a trace. *)
Definition dials (effs : list effect) : list (string * bool) :=
  omap (fun e => match e with Dial a t => Some (a, t) | _ => None end) effs.

Definition probes (effs : list effect) : list string :=
  omap (fun e => match e with PortProbe a => Some a | _ => None end) effs.

Definition wire (effs : list effect) : list string :=
  omap (fun e => match e with
                 | ConnWrite data => Some data
                 | DNSQuery data => Some data
                 | _ => None
                 end) effs.


(** Every connect of the computation [m] satisfies [P]. *)
Definition dials_in {A : Type} (P : string * bool -> Prop) (m : M A) : Prop :=
  forall ctx, Forall P (dials (effects_of (m ctx))).

Definition logs (effs : list effect) : list effect :=
  omap (fun e => match e with Log _ _ _ _ => Some e | _ => None end) effs.

End Protocols.

(* ===================================================================== *)
(** * The network (raw TCP) request executor                              *)
(* ===================================================================== *)

Module Network.
Import Go Protocols.

(** ** Connections *)

(** What the peer does on a connection: [inbox] lists what the successive
    calls of [conn.Read] find before their deadline (the bytes that have
    arrived and the error the call reports, a [Timeout] when the deadline
    elapses), [outbox] the error of each successive [conn.Write].  When a
    list is exhausted, a read times out with nothing and a write
    succeeds. *)
Record conn := {
  inbox : list (string * option error);
  outbox : list (option error);
}.

(** [conn.Read(b)] with [len(b) = n]: at most [n] bytes are delivered; what
    does not fit stays for the next call. *)
Definition conn_Read (c : conn) (n : nat) : (string * option error) * conn :=
  match inbox c with
  | [] => (("", Some (Timeout "i/o timeout")), c)
  | (data, err) :: rest =>
      if bool_decide (String.length data <= n) then
        ((data, err), {| inbox := rest; outbox := outbox c |})
      else
        ((str_take n data, None),
         {| inbox := (str_drop n data, err) :: rest; outbox := outbox c |})
  end.

Definition conn_Write (c : conn) : option error * conn :=
  match outbox c with
  | [] => (None, c)
  | err :: rest => (err, {| inbox := inbox c; outbox := rest |})
  end.

(** ** The template *)

Inductive NetworkInputType := plainType | hexType.

(** One element of [request.Inputs]. *)
Record Input := {
  Data : string;
  Type_ : NetworkInputType;
  Read : Z;
  Name : string;
}.

(** One element of [request.addresses]. *)
Record addressKV := {
  address : string;
  tls : bool;
}.

(** The fields of [Request] and of its [options] that the executor reads. *)
Record Request := {
  ID : string;
  Port : string;
  ExcludePorts : string;
  ports : list string;
  SelfContained : bool;
  addresses : list addressKV;
  Inputs : list Input;
  ReadSize : Z;
  ReadAll : bool;
  Threads : Z;
  generator : option (list vars);      (* the payloads the iterator yields *)
  CompiledOperators : bool;            (* [request.CompiledOperators != nil] *)
  (* request.options *)
  TemplateID : string;
  TemplatePath : string;
  Constants : vars;
  StopAtFirstMatch : bool;
  Interactsh : bool;                   (* [request.options.Interactsh != nil] *)
  (* request.options.Options *)
  DisableClustering : bool;
  PayloadConcurrency : Z;
}.

(** The collaborators of the executor: functions of this repository that
    are declared outside the sources at hand, and functions of other
    libraries.  The theorems hold for every implementation. *)
Class Collaborators := {
  (* the host of [url.Parse(s)] *)
  url_Parse_Host : string -> string + error;
  (* [contextargs.Context.UseNetworkPort]: the new input, or the error *)
  UseNetworkPort : string -> string -> string -> string + error;
  (* [request.dialer]: [Dial] and [DialTLS] *)
  Dialer : string -> bool -> conn + error;
  (* [protocolstate.Dialer.Dial] *)
  protocolstate_Dial : string -> conn + error;
  GetDialedIP : string -> string;
  (* [reader.ConnReadNWithTimeout(conn, -1, timeout)] *)
  reader_ReadAll : conn -> (string * option error) * conn;
  (* variables *)
  GenerateVariables : string -> vars;
  Variables_Evaluate : vars -> vars;
  BuildPayloadFromOptions : vars;
  replacer_Replace : string -> vars -> string;
  EvaluateByte : string -> vars -> string + error;
  ContainsUnresolvedVariables : string -> option error;
  hex_DecodeString : string -> string + error;
  (* operators and events *)
  ExecuteInternalExtractors : vars -> vars;
  responseToDSLMap : string -> string -> string -> string -> string -> vars;
  interactsh_Replace : string -> list string -> string * list string;
  MakePlaceholders : list string -> vars -> vars;
  TemplateVars : option vars -> vars -> option vars;
  (* [syncutil.New(syncutil.WithSize(n))] *)
  syncutil_New : Z -> option error;
}.

(** A loop body either goes on with a new state or returns from the
    function. *)
Inductive flow (S R : Type) : Type := Continue (s : S) | Return (r : R).
Arguments Continue {S R} s.
Arguments Return {S R} r.

Section Executor.
Context `{C : Collaborators}.
Variable request : Request.

Definition typeString : string := "network".

(** [getAddress]. *)
Definition getAddress (toTest : string) : string + error :=
  if Contains toTest "://" then
    match url_Parse_Host toTest with
    | inr err => inr err
    | inl host => inl host
    end
  else inl toTest.

(** ** Reading *)

Definition DefaultReadTimeout : Z := 5.

(** [ConnReadNWithTimeout].  The time-out only decides what the connection
    delivers; it is part of [conn].  [make([]byte, n)] panics on a negative
    length. *)
Definition ConnReadNWithTimeout (c : conn) (n : Z) : M ((string * option error) * conn) :=
  if bool_decide (n = (-1)%Z) then
    let '((data, err), c') := reader_ReadAll c in
    _ ← emit (ConnRead n data err); mret ((data, err), c')
  else
    let n := if bool_decide (n = 0%Z) then 4096%Z else n in
    if bool_decide (n < 0)%Z then panic "makeslice: len out of range"
    else
      let '((b, err), c') := conn_Read c (Z.to_nat n) in
      _ ← emit (ConnRead n b err);
      match err with
      | Some e =>
          if IsTimeout e && bool_decide (0 < String.length b)
          then mret ((b, None), c')           (* time-out with some bytes read *)
          else mret (("", Some e), c')
      | None => mret ((b, None), c')
      end.

(** ** One request on one connection *)

(** The local variables of [executeRequestWithPayloads] that the loop over
    [request.Inputs] updates. *)
Record loop_state := {
  connection : conn;
  interimValues : vars;
  inputEvents : vars;
  payloads : vars;
  reqBuilder : string;
  responseBuilder : string;
  interactshURLs : list string;
}.

Definition returned : Type := option InternalWrappedEvent * option error.

(** The statements that follow a successful read of [buffer] for [input]:
    the response builder, the capture under [input.Name] and the internal
    extractors. *)
Definition after_read (st : loop_state) (input : Input) (buffer : string) (c : conn)
  : loop_state :=
  let named := negb (String.eqb (Name input) "") in
  {| connection := c;
     interimValues :=
       if named then <[Name input := VString buffer]> (interimValues st)
       else interimValues st;
     inputEvents :=
       if named then <[Name input := VString buffer]> (inputEvents st)
       else inputEvents st;
     payloads :=
       if CompiledOperators request
       then copy_into (payloads st)
              (ExecuteInternalExtractors {[Name input := VString buffer]})
       else payloads st;
     reqBuilder := reqBuilder st;
     responseBuilder := responseBuilder st ++ buffer;
     interactshURLs := interactshURLs st |}.

(** The body of the loop over [request.Inputs]. *)
Definition input_step (address actualAddress : string) (st : loop_state) (input : Input)
  : M (flow loop_state returned) :=
  let '(data, urls) :=
    if Interactsh request then interactsh_Replace (Data input) []
    else (Data input, interactshURLs st) in
  match EvaluateByte data (interimValues st) with
  | inr err =>
      _ ← emit (OutputRequest address (Some err));
      _ ← emit (IncrementFailedRequestsBy 1);
      mret (Return (None, Some (Wrap err "could not evaluate template expressions")))
  | inl finalData =>
      let builder := (reqBuilder st ++ finalData)%string in
      match ContainsUnresolvedVariables finalData with
      | Some err =>
          _ ← emit (Log Warning "[%s] Could not make network request for %s: %v"
                      [TemplateID request; actualAddress] [err]);
          mret (Return (None, Some err))
      | None =>
          let decoded :=
            match Type_ input with
            | hexType => hex_DecodeString finalData
            | plainType => inl finalData
            end in
          match decoded with
          | inr err =>
              _ ← emit (OutputRequest address (Some err));
              _ ← emit (IncrementFailedRequestsBy 1);
              mret (Return (None, Some (Wrap err "could not write request to server")))
          | inl finalData =>
              let '(werr, c) := conn_Write (connection st) in
              _ ← emit (ConnWrite finalData);
              match werr with
              | Some err =>
                  _ ← emit (OutputRequest address (Some err));
                  _ ← emit (IncrementFailedRequestsBy 1);
                  mret (Return (None, Some (Wrap err "could not write request to server")))
              | None =>
                  let st1 :=
                    {| connection := c;
                       interimValues := interimValues st;
                       inputEvents := inputEvents st;
                       payloads := payloads st;
                       reqBuilder := builder;
                       responseBuilder := responseBuilder st;
                       interactshURLs := urls |} in
                  if bool_decide (0 < Read input)%Z then
                    '(buffer, err, c') ← ConnReadNWithTimeout c (Read input);
                    match err with
                    | Some e =>
                        mret (Return
                          (None, Some (Wrap e "could not read response from connection")))
                    | None => mret (Continue (after_read st1 input buffer c'))
                    end
                  else mret (Continue st1)
              end
          end
      end
  end.

(** The loop over [request.Inputs]. *)
Fixpoint run_inputs (address actualAddress : string) (inputs : list Input)
    (st : loop_state) : M (flow loop_state returned) :=
  match inputs with
  | [] => mret (Continue st)
  | input :: rest =>
      r ← input_step address actualAddress st input;
      match r with
      | Continue st' => run_inputs address actualAddress rest st'
      | Return v => mret (Return v)
      end
  end.

(** Modelled from the spec: [eventcreator.CreateEventWithAdditionalOptions]
    is declared outside the sources at hand.  It packages the merged
    mapping into an internal event for the operator engine. *)
Definition CreateEvent (outputEvent : vars) : InternalWrappedEvent :=
  {| InternalEvent := outputEvent; UsesInteractsh := false |}.

(** The statements that complete the event of a request: on the mapping
    [outputEvent] of the response come the template context [ctx], the
    dialed address, the flag, then [previous], the variables and the
    captures, each over what precedes, and the placeholders of the OAST
    collaborator. *)
Definition assemble (outputEvent : vars) (ctx : option vars) (hostname : string)
    (previous : vars) (st : loop_state) : vars :=
  let outputEvent :=
    match ctx with
    | Some all => MergeMaps [outputEvent; all]
    | None => outputEvent
    end in
  let outputEvent := <["ip" := VString (GetDialedIP hostname)]> outputEvent in
  let outputEvent :=
    if StopAtFirstMatch request then <["stop-at-first-match" := VBool true]> outputEvent
    else outputEvent in
  let outputEvent := copy_into outputEvent previous in
  let outputEvent := copy_into outputEvent (interimValues st) in
  let outputEvent := copy_into outputEvent (inputEvents st) in
  if Interactsh request then MakePlaceholders (interactshURLs st) outputEvent
  else outputEvent.

(** The part of [executeRequestWithPayloads] after the loop; [input] is
    [input.MetaInput.Input].  The dumps for debugging, which only print,
    are left out. *)
Definition finish (actualAddress address input hostname : string) (previous : vars)
    (st : loop_state) : M returned :=
  _ ← emit IncrementRequests;
  _ ← emit (OutputRequest actualAddress None);
  _ ← emit (Log Verbose "Sent TCP request to %s" [actualAddress] []);
  let bufferSize :=
    if ReadAll request then (-1)%Z
    else if bool_decide (ReadSize request = 0%Z) then 1024%Z else ReadSize request in
  '(final, err, _) ← ConnReadNWithTimeout (connection st) bufferSize;
  _ ← match err with
      | Some e =>
          _ ← emit (OutputRequest address (Some e));
          emit (Log Verbose "could not read more data from %s: %s" [actualAddress] [e])
      | None => mret tt
      end;
  let response := (responseBuilder st ++ final)%string in
  let outputEvent :=
    responseToDSLMap (reqBuilder st) final response input actualAddress in
  _ ← AddTemplateVarsWith TemplateVars outputEvent;
  ctx ← GetTemplateCtx;
  let outputEvent := assemble outputEvent ctx hostname previous st in
  if bool_decide (length (interactshURLs st) = 0) then
    mret (Some (CreateEvent (MergeMaps [payloads st; outputEvent])), None)
  else if Interactsh request then
    _ ← emit (InteractshRequestEvent (interactshURLs st) outputEvent);
    mret (None, None)
  else mret (None, None).

(** The local variables when the loop starts, on the connection [c]. *)
Definition initial_state (c : conn) (variables payloads : vars) : loop_state :=
  {| connection := c;
     interimValues := MergeMaps [variables; payloads];
     inputEvents := ∅;
     payloads := payloads;
     reqBuilder := "";
     responseBuilder := "";
     interactshURLs := [] |}.

(** An input captures when it reads and has a name: what it reads is then
    stored under the name. *)
Definition captures (input : Input) : bool :=
  bool_decide (0 < Read input)%Z && negb (String.eqb (Name input) "").

(** [executeRequestWithPayloads]. *)
Definition executeRequestWithPayloads (variables : vars) (actualAddress address : string)
    (input : string) (shouldUseTLS : bool) (payloads : vars) (previous : vars)
  : M returned :=
  let hostname :=
    match SplitHostPort actualAddress with
    | inl (host, _) => host
    | inr _ => ""
    end in
  _ ← emit (Dial actualAddress shouldUseTLS);
  match Dialer actualAddress shouldUseTLS with
  | inr err =>
      _ ← emit (OutputRequest address (Some err));
      _ ← emit (IncrementFailedRequestsBy 1);
      mret (None, Some (Wrap err "could not connect to server"))
  | inl c =>
      defer (emit ConnClose)
        (r ← run_inputs address actualAddress (Inputs request)
               (initial_state c variables payloads);
         match r with
         | Return v => mret v
         | Continue st => finish actualAddress address input hostname previous st
         end)
  end.

(** ** One address *)

(** The loop over the payloads of [executeAddress].  The worker pool runs
    the variants concurrently; they share no state, and the model runs them
    in the order they are dispatched. *)
Fixpoint run_payloads (variables : vars) (actualAddress address input : string)
    (shouldUseTLS : bool) (optionPayloads previous : vars) (values : list vars)
    (events : list (option InternalWrappedEvent)) (errs : list error)
  : M (list (option InternalWrappedEvent) * list error) :=
  match values with
  | [] => mret (events, errs)
  | value :: rest =>
      let value := MergeMaps [value; optionPayloads] in
      '(ev, err) ← executeRequestWithPayloads variables actualAddress address input
                     shouldUseTLS value previous;
      match err with
      | Some e =>
          run_payloads variables actualAddress address input shouldUseTLS
            optionPayloads previous rest events (errs ++ [e])
      | None =>
          run_payloads variables actualAddress address input shouldUseTLS
            optionPayloads previous rest (events ++ [ev]) errs
      end
  end.

(** [executeAddress]. *)
Definition executeAddress (variables : vars) (actualAddress address input : string)
    (shouldUseTLS : bool) (previous : vars)
  : M (list (option InternalWrappedEvent) * option error) :=
  let variables := MergeMaps [variables; {["Hostname" := VString address]}] in
  let payloads := BuildPayloadFromOptions in
  if negb (Contains actualAddress ":") then
    let err := New "no port provided in network protocol request" in
    _ ← emit (OutputRequest address (Some err));
    _ ← emit (IncrementFailedRequestsBy 1);
    mret ([], Some err)
  else
    match generator request with
    | Some values =>
        match syncutil_New (Threads request) with
        | Some err => mret ([], Some err)
        | None =>
            '(events, errs) ← run_payloads variables actualAddress address input
                                shouldUseTLS payloads previous values [] [];
            mret (events, Combine errs)
        end
    | None =>
        '(ev, err) ← executeRequestWithPayloads variables actualAddress address input
                       shouldUseTLS payloads previous;
        mret ([ev], err)
    end.

(** ** One target *)

(** The loop over [request.addresses] of [executeOnTarget]; [visited] is
    the map of visited addresses, which the caller shares between its
    calls. *)
Fixpoint run_addresses (variables : vars) (address input : string) (previous : vars)
    (entries : list addressKV) (visited : gset string)
    (events : list (option InternalWrappedEvent))
  : M (list (option InternalWrappedEvent) * gset string) :=
  match entries with
  | [] => mret (events, visited)
  | kv :: rest =>
      let actualAddress := replacer_Replace (Network.address kv) variables in
      if bool_decide (actualAddress ∈ visited) && negb (DisableClustering request) then
        run_addresses variables address input previous rest visited events
      else
        let visited := {[actualAddress]} ∪ visited in
        '(evs, err) ← executeAddress variables actualAddress address input (tls kv) previous;
        match err with
        | Some e =>
            let outputEvent := responseToDSLMap "" "" "" address "" in
            _ ← emit (Log Warning "[%v] Could not make network request for (%s) : %s"
                        [TemplateID request; actualAddress] [e]);
            run_addresses variables address input previous rest visited
              (events ++ [Some {| InternalEvent := outputEvent; UsesInteractsh := false |}])
        | None =>
            run_addresses variables address input previous rest visited (events ++ evs)
        end
  end.

(** The variables of a target in [executeOnTarget]: those of its address,
    under the template context [ctx] of the input when there is one, then
    the evaluated template variables under them and the constants over
    them. *)
Definition target_variables (address : string) (ctx : option vars) : vars :=
  let variables := GenerateVariables address in
  let variables :=
    match ctx with
    | Some all => MergeMaps [variables; all]
    | None => variables
    end in
  let variablesMap := Variables_Evaluate variables in
  MergeMaps [variablesMap; variables; Constants request].

(** [executeOnTarget]; the result carries the updated [visited]. *)
Definition executeOnTarget (input : string) (visited : gset string)
    (metadata previous : vars)
  : M ((list (option InternalWrappedEvent) * option error) * gset string) :=
  let resolved := if SelfContained request then inl "" else getAddress input in
  match resolved with
  | inr err =>
      _ ← emit (OutputRequest input (Some err));
      _ ← emit (IncrementFailedRequestsBy 1);
      mret (([], Some (Wrap err "could not get address from url")), visited)
  | inl address =>
      ctx ← GetTemplateCtx;
      let variables := target_variables address ctx in
      '(events, visited) ← run_addresses variables address input previous
                             (addresses request) visited [];
      mret ((events, None), visited)
  end.

(** ** The port scan *)

(** The loop of [getOpenPorts] over the candidate ports. *)
Fixpoint probe_ports (target : string) (candidates : list string)
    (errs : list error) (openPorts : list string) : M (list error * list string) :=
  match candidates with
  | [] => mret (errs, openPorts)
  | port :: rest =>
      match UseNetworkPort target port (ExcludePorts request) with
      | inr err => probe_ports target rest (errs ++ [err]) openPorts
      | inl cloned =>
          match getAddress cloned with
          | inr err => probe_ports target rest (errs ++ [err]) openPorts
          | inl addr =>
              _ ← emit (PortProbe addr);
              match protocolstate_Dial addr with
              | inr err => probe_ports target rest (errs ++ [err]) openPorts
              | inl _ =>
                  _ ← emit ConnClose;
                  probe_ports target rest errs (openPorts ++ [port])
              end
          end
      end
  end.

(** [getOpenPorts]. *)
Definition getOpenPorts (target : string) : M (list string * option error) :=
  if bool_decide (length (ports request) = 1) then mret (ports request, None)
  else
    '(errs, openPorts) ← probe_ports target (ports request) [] [];
    if bool_decide (length openPorts = 0) then mret ([], Combine errs)
    else mret (openPorts, None).

(** ** The whole execution *)

Definition results_of (events : list (option InternalWrappedEvent)) : list Result :=
  map (fun event => {| Event := event; Error := None |}) events.

(** The loop of [ExecuteWithResults] over the open ports. *)
Fixpoint run_ports (target : string) (metadata previous : vars) (open : list string)
    (visited : gset string) (results : list Result)
  : M (list Result * option error) :=
  match open with
  | [] => mret (results, None)
  | port :: rest =>
      input ← match UseNetworkPort target port (ExcludePorts request) with
              | inr err =>
                  _ ← emit (Log Debug "Could not network port from constants: %s" [] [err]);
                  mret target
              | inl input => mret input
              end;
      '(events, err, visited) ← executeOnTarget input visited metadata previous;
      let results := results ++ results_of events in
      match err with
      | Some e => mret (results, Some e)
      | None => run_ports target metadata previous rest visited results
      end
  end.

(** The function that [ExecuteWithResults] hands to its error group: the
    results it sends, in order, and the error it returns. *)
Definition execute_group (target : string) (metadata previous : vars)
  : M (list Result * option error) :=
  let visitedAddresses : gset string := ∅ in
  '(results, err, visited) ←
    (if bool_decide (Port request = "") then
       '(events, err, visited) ← executeOnTarget target visitedAddresses metadata previous;
       mret (results_of events, err, visited)
     else mret ([], None, visitedAddresses));
  match err with
  | Some e => mret (results, Some e)
  | None =>
      '(open, err) ← getOpenPorts target;
      if bool_decide (length open = 0) then mret (results, err)
      else
        _ ← match err with
            | Some e =>
                emit (Log Verbose "[%v] got errors while checking open ports: %s"
                        [TemplateID request] [e])
            | None => mret tt
            end;
        run_ports target metadata previous open visited results
  end.

(** [ExecuteWithResults]: everything the result channel delivers before it
    is closed. *)
Definition ExecuteWithResults (target : string) (metadata previous : vars)
  : M (list Result) :=
  '(results, err) ← execute_group target metadata previous;
  match err with
  | Some e => mret (results ++ [{| Event := None; Error := Some e |}])
  | None => mret results
  end.

(** ** Notions for the statements *)

(** The result [ConnReadNWithTimeout] computes from what [conn.Read]
    reports. *)
Definition read_result (b : string) (err : option error) : string * option error :=
  match err with
  | Some e =>
      if IsTimeout e && bool_decide (0 < String.length b) then (b, None) else ("", Some e)
  | None => (b, None)
  end.

(** An output of the OAST collaborator that leaves the key [name] as it
    found it; nothing to ask when the template has no such collaborator. *)
Definition placeholders_keep (name : string) : Prop :=
  Interactsh request = true ->
  forall urls event, MakePlaceholders urls event !! name = event !! name.

(** No input of the list stores a read under [name]. *)
Definition no_capture (name : string) (inputs : list Input) : Prop :=
  Forall (fun input => captures input = false \/ Name input <> name) inputs.


(** The text of an input that is evaluated and sent: its data, after the
    OAST collaborator has replaced its markers. *)
Definition sent_data (input : Input) : string :=
  if Interactsh request then (interactsh_Replace (Data input) []).1 else Data input.

(** The documentation on the read of an input: with [Read = k > 0] it
    returns exactly [k] bytes. *)
Definition reads_exactly : Prop :=
  forall c k ctx buffer c' effs ctx',
    (0 < k)%Z ->
    ConnReadNWithTimeout c k ctx = (inl ((buffer, None), c'), effs, ctx') ->
    Z.of_nat (String.length buffer) = k.

(** ** The loop over the addresses, in two steps *)

(** The entries that the loop of [executeOnTarget] hands to
    [executeAddress], with their addresses resolved: those that the test on
    [visited] does not skip. *)
Fixpoint selected (variables : vars) (entries : list addressKV) (visited : gset string)
  : list (string * bool) :=
  match entries with
  | [] => []
  | kv :: rest =>
      let actualAddress := replacer_Replace (Network.address kv) variables in
      if bool_decide (actualAddress ∈ visited) && negb (DisableClustering request) then
        selected variables rest visited
      else (actualAddress, tls kv) :: selected variables rest ({[actualAddress]} ∪ visited)
  end.

(** [visited] after the loop. *)
Definition visited_after (variables : vars) (entries : list addressKV)
    (visited : gset string) : gset string :=
  list_to_set (selected variables entries visited).*1 ∪ visited.

(** [executeAddress] on each of [chosen], with the handling of its result
    that the loop of [executeOnTarget] has. *)
Fixpoint run_selected (variables : vars) (address input : string) (previous : vars)
    (chosen : list (string * bool)) (events : list (option InternalWrappedEvent))
  : M (list (option InternalWrappedEvent)) :=
  match chosen with
  | [] => mret events
  | (actualAddress, shouldUseTLS) :: rest =>
      '(evs, err) ← executeAddress variables actualAddress address input shouldUseTLS
                      previous;
      match err with
      | Some e =>
          let outputEvent := responseToDSLMap "" "" "" address "" in
          _ ← emit (Log Warning "[%v] Could not make network request for (%s) : %s"
                      [TemplateID request; actualAddress] [e]);
          run_selected variables address input previous rest
            (events ++ [Some {| InternalEvent := outputEvent; UsesInteractsh := false |}])
      | None => run_selected variables address input previous rest (events ++ evs)
      end
  end.

End Executor.
End Network.

(* ===================================================================== *)
(** * The DNS request executor                                            *)
(* ===================================================================== *)

Module DNS.
Import Go Protocols.

(** The fields of the DNS [Request] and of its [options] that [execute]
    reads. *)
Record Request := {
  ID : string;
  Resolvers : list string;
  Trace : bool;
  TraceMaxRecursion : Z;
  TemplateID : string;
  TemplatePath : string;
}.

(** The collaborators of [execute]: the compiler of the question
    ([request.Make]), the DNS client and the functions on variables and
    events, all declared outside the sources at hand. *)
Class Collaborators := {
  Msg : Type;                                   (* [*dns.Msg] *)
  Response : Type;
  Client : Type;
  TraceData : Type;
  Make : string -> vars -> Msg + error;
  Msg_String : Msg -> string;
  (* [Question[0].Name] when the message has a question *)
  Msg_Question : Msg -> option string;
  ContainsUnresolvedVariables : list string -> option error;
  defaultClient : Client;                       (* [request.dnsClient] *)
  getDnsClient : vars -> Client + error;
  Client_Do : Client -> Msg -> option Response * option error;
  Client_Trace : Client -> string -> Z -> option TraceData * option error;
  responseToDSLMap : Msg -> Response -> string -> string -> option TraceData -> vars;
  TemplateVars : option vars -> vars -> option vars;
}.

Section Executor.
Context `{C : Collaborators}.
Variable request : Request.

Definition typeString : string := "dns".

(** [errors.Wrap] of package [pkg/errors] returns nil on a nil error. *)
Definition Wrap_nil (err : option error) (msg : string) : option error :=
  match err with
  | Some e => Some (Wrap e msg)
  | None => None
  end.

(** Modelled from the spec: [eventcreator.CreateEvent] is declared outside
    the sources at hand.  It packages the merged mapping into an internal
    event for the operator engine. *)
Definition CreateEvent (outputEvent : vars) : InternalWrappedEvent :=
  {| InternalEvent := outputEvent; UsesInteractsh := false |}.

(** [Request.execute] after the request has been put on the wire and a
    response has come back.  The dumps for debugging are left out. *)
Definition respond (compiledRequest : Msg) (response : Response) (err : option error)
    (domain question : string) (previous values : vars)
  : M (option InternalWrappedEvent * option error) :=
  _ ← emit (OutputRequest domain err);
  _ ← emit (Log Verbose "[%s] Sent DNS request to %s" [TemplateID request; question] []);
  traceData ←
    (if Trace request then
       let '(traceData, terr) :=
         Client_Trace defaultClient domain (TraceMaxRecursion request) in
       _ ← match terr with
           | Some e => emit (OutputRequest domain (Some e))
           | None => mret tt
           end;
       mret traceData
     else mret None);
  let outputEvent := responseToDSLMap compiledRequest response domain question traceData in
  _ ← AddTemplateVarsWith TemplateVars outputEvent;
  let outputEvent := copy_into outputEvent previous in
  let outputEvent := copy_into outputEvent values in
  ctx ← GetTemplateCtx;
  let outputEvent :=
    match ctx with
    | Some all => MergeMaps [outputEvent; all]
    | None => outputEvent
    end in
  mret (Some (CreateEvent outputEvent), None).

(** [Request.execute]. *)
Definition execute (domain : string) (metadata previous values : vars)
  : M (option InternalWrappedEvent * option error) :=
  match Make domain values with
  | inr err =>
      _ ← emit (OutputRequest domain (Some err));
      _ ← emit (IncrementFailedRequestsBy 1);
      mret (None, Some (Wrap err "could not build request"))
  | inl compiledRequest =>
      let resolved : Client + error :=
        match ContainsUnresolvedVariables (Resolvers request) with
        | Some _ => getDnsClient metadata
        | None => inl defaultClient
        end in
      match resolved with
      | inr varErr =>
          _ ← emit (Log Warning "[%s] Could not make dns request for %s: %v"
                      [TemplateID request; domain] [varErr]);
          mret (None, None)                           (* todo: return error? *)
      | inl dnsClient =>
          let question :=
            match Msg_Question compiledRequest with
            | Some name => name
            | None => domain
            end in
          let domain := TrimSuffix domain "." in
          let question := TrimSuffix question "." in
          let requestString := Msg_String compiledRequest in
          match ContainsUnresolvedVariables [requestString] with
          | Some varErr =>
              _ ← emit (Log Warning "[%s] Could not make dns request for %s: %v"
                          [TemplateID request; question] [varErr]);
              mret (None, None)                       (* todo: return error? *)
          | None =>
              _ ← emit RateLimitTake;
              _ ← emit (DNSQuery requestString);
              let '(response, err) := Client_Do dnsClient compiledRequest in
              _ ← match err with
                  | Some e =>
                      _ ← emit (OutputRequest domain (Some e));
                      emit (IncrementFailedRequestsBy 1)
                  | None => emit IncrementRequests
                  end;
              match response with
              | None => mret (None, Wrap_nil err "could not send dns request")
              | Some response =>
                  respond compiledRequest response err domain question previous values
              end
          end
      end
  end.

End Executor.
End DNS.

(* ===================================================================== *)
(** * [v2/pkg/protocols/http/build_request.go]: the port of the payload   *)
(* ===================================================================== *)

Module HTTP.
Import Go.

(** [*urlutil.URL], a type of another library, with its method
    [UpdatePort]. *)
Class UrlUtil := {
  URL : Type;
  UpdatePort : URL -> string -> URL;
}.

Definition is_digit (c : ascii) : bool :=
  let n := nat_of_ascii c in (48 <=? n)%nat && (n <=? 57)%nat.

(** The longest prefix of decimal digits, what [(\d+)] captures. *)
Fixpoint digits (s : string) : string :=
  match s with
  | String c s' => if is_digit c then String c (digits s') else ""
  | EmptyString => ""
  end.

Definition BaseURLColon : string := "{{BaseURL}}:".

(** The first submatch of the leftmost match of [urlWithPortRegex], the
    compiled pattern [{{BaseURL}}:(\d+)], in [data]:
    [urlWithPortRegex.FindAllStringSubmatch(data, -1)[0][1]] when there is
    a match. *)
Fixpoint first_port (data : string) : option string :=
  let here :=
    if HasPrefix data BaseURLColon
    then digits (str_drop (String.length BaseURLColon) data) else "" in
  if negb (String.eqb here "") then Some here
  else match data with
       | EmptyString => None
       | String _ rest => first_port rest
       end.

(** [UsePortFromPayload]. *)
Definition UsePortFromPayload `{UrlUtil} (parsed : URL) (data : string) : URL * string :=
  match first_port data with
  | Some port =>
      let parsed := UpdatePort parsed port in
      (* remove it from dsl *)
      let data := Replace1 data (":" ++ port) "" in
      (parsed, data)
  | None => (parsed, data)
  end.

(** What the documentation says of the port of the payload: the port is
    the one of the first token [{{BaseURL}}:N], and the template loses the
    [:N] of that token.  [strip_token] removes the digits and the colon
    that follow the first token. *)
Fixpoint strip_token (data : string) : string :=
  let here :=
    if HasPrefix data BaseURLColon
    then digits (str_drop (String.length BaseURLColon) data) else "" in
  if negb (String.eqb here "") then
    ("{{BaseURL}}"
     ++ str_drop (String.length BaseURLColon + String.length here) data)%string
  else match data with
       | EmptyString => EmptyString
       | String c rest => String c (strip_token rest)
       end.

(** ** A URL for concrete runs *)

Record url := {
  Scheme : string;
  Hostname : string;
  UrlPort : string;
  Path : string;
}.

Definition url_String (u : url) : string :=
  (Scheme u ++ "://" ++ Hostname u
   ++ (if String.eqb (UrlPort u) "" then "" else ":" ++ UrlPort u) ++ Path u)%string.

#[export] Instance plain_urls : UrlUtil :=
  {| URL := url;
     UpdatePort u port :=
       if String.eqb port "" then u
       else {| Scheme := Scheme u; Hostname := Hostname u; UrlPort := port;
               Path := Path u |} |}.

(** Replacement of the placeholder [{{BaseURL}}], all that the scenarios
    need of [replacer.Replace]. *)
Fixpoint replace_BaseURL (fuel : nat) (data base : string) : string :=
  match fuel with
  | O => data
  | S fuel' =>
      match Index data "{{BaseURL}}" with
      | Some i =>
          (str_take i data ++ base
           ++ replace_BaseURL fuel' (str_drop (i + 11) data) base)%string
      | None => data
      end
  end.

(** The URL line a template yields against an input URL. *)
Definition request_line (u : url) (template : string) : string :=
  let '(parsed, data) := UsePortFromPayload u template in
  replace_BaseURL (String.length data) data (url_String parsed).

End HTTP.

(* ===================================================================== *)
(** * Collaborators for concrete runs                                     *)
(* ===================================================================== *)

(** Simple implementations of the collaborators, enough to run the
    executors on the scenarios of the documentation: placeholders are
    replaced textually, the network is a table of the addresses that
    accept a connection, the name server a table of answers. *)

Module Scenario.
Import Go Protocols.

(** [strings.ReplaceAll]. *)
Fixpoint ReplaceAll (fuel : nat) (s old new : string) : string :=
  match fuel with
  | O => s
  | S fuel' =>
      match Index s old with
      | Some i =>
          (str_take i s ++ new
           ++ ReplaceAll fuel' (str_drop (i + String.length old) s) old new)%string
      | None => s
      end
  end.

(** [replacer.Replace]: every placeholder [{{key}}] of a key bound to a
    string gives way to the string. *)
Definition Replace (template : string) (values : vars) : string :=
  foldr (fun '(key, v) text =>
           match v with
           | VString new =>
               ReplaceAll (String.length text) text ("{{" ++ key ++ "}}") new
           | _ => text
           end) template (map_to_list values).

(** [expressions.ContainsUnresolvedVariables] on one text: an error when a
    placeholder is left. *)
Definition unresolved (text : string) : option error :=
  match Index text "{{" with
  | Some i =>
      let rest := str_drop (i + 2) text in
      match Index rest "}}" with
      | Some j => Some (New ("unresolved variables found: " ++ str_take j rest))
      | None => None
      end
  | None => None
  end.

Fixpoint unresolved_any (texts : list string) : option error :=
  match texts with
  | [] => None
  | text :: rest =>
      match unresolved text with
      | Some err => Some err
      | None => unresolved_any rest
      end
  end.

(** The host of a URL: what lies between [://] and the next slash. *)
Definition host_of (s : string) : string :=
  let rest :=
    match Index s "://" with
    | Some i => str_drop (i + 3) s
    | None => s
    end in
  match Index rest "/" with
  | Some j => str_take j rest
  | None => rest
  end.

Fixpoint lookup_table {A : Type} (table : list (string * A)) (key : string) : option A :=
  match table with
  | [] => None
  | (k, a) :: rest => if String.eqb k key then Some a else lookup_table rest key
  end.

Fixpoint concat_inbox (inbox : list (string * option error)) : string :=
  match inbox with
  | [] => ""
  | (data, _) :: rest => (data ++ concat_inbox rest)%string
  end.

(** The network executor over a table of listening addresses. *)
Definition network (listening : list (string * Network.conn)) : Network.Collaborators :=
  let dial address :=
    match lookup_table listening address with
    | Some c => inl c
    | None => inr (New ("dial tcp " ++ address ++ ": connection refused"))
    end in
  {| Network.url_Parse_Host s := inl (host_of s);
     Network.UseNetworkPort input port exclude :=
       if String.eqb port "" then inl input
       else if Contains (host_of input) ":" then inl input
       else inl (host_of input ++ ":" ++ port)%string;
     Network.Dialer address tls := dial address;
     Network.protocolstate_Dial := dial;
     Network.GetDialedIP hostname := "192.0.2.1";
     Network.reader_ReadAll c :=
       ((concat_inbox (Network.inbox c), None),
        {| Network.inbox := []; Network.outbox := Network.outbox c |});
     Network.GenerateVariables address := {["Hostname" := VString address]};
     Network.Variables_Evaluate values := ∅;
     Network.BuildPayloadFromOptions := ∅;
     Network.replacer_Replace := Replace;
     Network.EvaluateByte data values := inl (Replace data values);
     Network.ContainsUnresolvedVariables := unresolved;
     Network.hex_DecodeString data := inl data;
     Network.ExecuteInternalExtractors values := ∅;
     Network.responseToDSLMap req resp raw host matched :=
       {["request" := VString req; "data" := VString resp; "raw" := VString raw;
         "host" := VString host; "matched" := VString matched]};
     Network.interactsh_Replace data urls := (data, urls);
     Network.MakePlaceholders urls event := event;
     Network.TemplateVars ctx event := ctx;
     Network.syncutil_New size := None |}.

(** A network template with the given ports, addresses and inputs. *)
Definition template (ports : list string) (addresses : list Network.addressKV)
    (inputs : list Network.Input) (clustering : bool) : Network.Request :=
  {| Network.ID := "";
     Network.Port := String.concat "," ports;
     Network.ExcludePorts := "";
     Network.ports := ports;
     Network.SelfContained := false;
     Network.addresses := addresses;
     Network.Inputs := inputs;
     Network.ReadSize := 0;
     Network.ReadAll := false;
     Network.Threads := 0;
     Network.generator := None;
     Network.CompiledOperators := false;
     Network.TemplateID := "scenario";
     Network.TemplatePath := "scenario.yaml";
     Network.Constants := ∅;
     Network.StopAtFirstMatch := false;
     Network.Interactsh := false;
     Network.DisableClustering := negb clustering;
     Network.PayloadConcurrency := 25 |}.

(** A peer that answers each read with the next of [answers]. *)
Definition peer (answers : list string) : Network.conn :=
  {| Network.inbox := map (fun data => (data, None)) answers; Network.outbox := [] |}.

Definition plain (data : string) (read : Z) (name : string) : Network.Input :=
  {| Network.Data := data; Network.Type_ := Network.plainType;
     Network.Read := read; Network.Name := name |}.

Definition entry (address : string) (tls : bool) : Network.addressKV :=
  {| Network.address := address; Network.tls := tls |}.

(** Scenario "port scanning": ports 80, 8080 and 9999 against a host where
    only 80 is open. *)
Definition scan_request : Network.Request :=
  template ["80"; "8080"; "9999"] [entry "{{Hostname}}" false] [plain "ping" 0 ""] true.

Definition scan_network : list (string * Network.conn) :=
  [("scanme.example:80", peer ["pong"])].

(** One address listed twice, without and with TLS. *)
Definition twice_request (clustering : bool) : Network.Request :=
  template ["443"] [entry "{{Hostname}}" false; entry "{{Hostname}}" true]
    [plain "ping" 0 ""] clustering.

Definition twice_network : list (string * Network.conn) :=
  [("scanme.example:443", peer ["pong"])].

(** A conversation that captures the greeting of the server and sends it
    back. *)
Definition echo_request : Network.Request :=
  template ["25"] [entry "{{Hostname}}" false]
    [plain "HELO" 3 "reply"; plain "ECHO {{reply}}" 0 ""] true.

(** A conversation whose second input has a placeholder that no variable
    layer binds. *)
Definition unbound_request : Network.Request :=
  template ["25"] [entry "{{Hostname}}" false]
    [plain "HELO" 0 ""; plain "AUTH {{missing}}" 0 ""] true.

(** A conversation with two captures under one name. *)
Definition recapture_request : Network.Request :=
  template ["25"] [entry "{{Hostname}}" false]
    [plain "HELO" 3 "reply"; plain "QUIT" 3 "reply"] true.

Definition mail_network : list (string * Network.conn) :=
  [("mail.example:25", peer ["220"; "221"; "bye"])].

(** A peer from which two bytes arrive before the deadline of the read
    elapses. *)
Definition slow_peer : Network.conn :=
  {| Network.inbox := [("ab", Some (Timeout "i/o timeout"))]; Network.outbox := [] |}.

(** The DNS executor for a question template [name] over a table of
    answers; a DNS message is the name it asks for. *)
Definition dns (name : string) (answers : list (string * string)) : DNS.Collaborators :=
  {| DNS.Msg := string;
     DNS.Response := string;
     DNS.Client := unit;
     DNS.TraceData := unit;
     DNS.Make domain values := inl (Replace name (<["FQDN" := VString domain]> values));
     DNS.Msg_String m := (";" ++ m ++ " IN A")%string;
     DNS.Msg_Question m := Some m;
     DNS.ContainsUnresolvedVariables := unresolved_any;
     DNS.defaultClient := tt;
     DNS.getDnsClient metadata := inl tt;
     DNS.Client_Do client m :=
       match lookup_table answers m with
       | Some answer => (Some answer, None)
       | None => (None, Some (New "no such host"))
       end;
     DNS.Client_Trace client domain depth := (None, None);
     DNS.responseToDSLMap m response domain question traceData :=
       {["host" := VString domain; "matched" := VString question;
         "request" := VString (";" ++ m ++ " IN A"); "raw" := VString response]};
     DNS.TemplateVars ctx event := ctx |}.

Definition dns_request : DNS.Request :=
  {| DNS.ID := ""; DNS.Resolvers := []; DNS.Trace := false;
     DNS.TraceMaxRecursion := 0; DNS.TemplateID := "scenario";
     DNS.TemplatePath := "scenario.yaml" |}.

End Scenario.

(* ===================================================================== *)
(** * Readings of a trace                                                 *)
(* ===================================================================== *)

Module Traces.
Import Go Protocols.

(** How often the trace closes a connection, takes the rate limiter and
    counts a request as sent; the number of requests it counts as failed. *)
Definition closes (effs : list effect) : nat :=
  length (omap (fun e => match e with ConnClose => Some tt | _ => None end) effs).

Definition takes (effs : list effect) : nat :=
  length (omap (fun e => match e with RateLimitTake => Some tt | _ => None end) effs).

Definition sent (effs : list effect) : nat :=
  length (omap (fun e => match e with IncrementRequests => Some tt | _ => None end) effs).

Definition failed (effs : list effect) : nat :=
  foldr Nat.add 0
    (omap (fun e => match e with IncrementFailedRequestsBy n => Some n | _ => None end) effs).

(** The bytes each read of the trace hands to its caller: all of them for
    a read to the end of the stream, and for a sized read what remains
    after the test on the error. *)
Definition received (effs : list effect) : list string :=
  omap (fun e => match e with
                 | ConnRead n data err =>
                     Some (if bool_decide (n = (-1)%Z) then data
                           else (Network.read_result data err).1)
                 | _ => None
                 end) effs.

(** The response mappings that the trace hands to the template
    context. *)
Definition published (effs : list effect) : list vars :=
  omap (fun e => match e with AddTemplateVars event => Some event | _ => None end) effs.

(** The texts of a list, one after the other. *)
Definition joined (texts : list string) : string := foldr String.append "" texts.

(** The size of the last read of a network request: the buffer size of
    the template, 1024 when it has none, and -1, the whole stream, when the
    template reads all. *)
Definition bufferSize (request : Network.Request) : Z :=
  if Network.ReadAll request then (-1)%Z
  else if bool_decide (Network.ReadSize request = 0%Z) then 1024%Z
       else Network.ReadSize request.

(** An effect that neither closes a connection nor counts a request. *)
Definition silent (e : effect) : Prop :=
  match e with
  | ConnClose | IncrementRequests | IncrementFailedRequestsBy _ => False
  | _ => True
  end.

(** Every effect of the computation satisfies [P]. *)
Definition effects_in {A : Type} (P : effect -> Prop) (m : M A) : Prop :=
  forall ctx, Forall P (effects_of (m ctx)).


(** A network request on an established connection [c]: the loop over
    the inputs and what follows it in [executeRequestWithPayloads]. *)
Definition conversation `{C : Network.Collaborators} (request : Network.Request)
    (variables : vars) (actualAddress address input : string)
    (payloads0 previous : vars) (c : Network.conn) : M Network.returned :=
  r ← Network.run_inputs request address actualAddress (Network.Inputs request)
         (Network.initial_state c variables payloads0);
  match r with
  | Network.Return v => mret v
  | Network.Continue st =>
      Network.finish request actualAddress address input
        match SplitHostPort actualAddress with
        | inl (host, _) => host
        | inr _ => ""
        end previous st
  end.

(** A port of the template is open on [target]: the address of the
    target with that port can be built, and it accepts a TCP connection. *)
Definition accepts `{C : Network.Collaborators} (request : Network.Request)
    (target port : string) : bool :=
  match Network.UseNetworkPort target port (Network.ExcludePorts request) with
  | inl cloned =>
      match Network.getAddress cloned with
      | inl addr =>
          match Network.protocolstate_Dial addr with
          | inl _ => true
          | inr _ => false
          end
      | inr _ => false
      end
  | inr _ => false
  end.

(** An effect of the port scan: a probe, or the close of a connection
    that a probe has opened. *)
Definition scan_effect (e : effect) : Prop :=
  match e with
  | PortProbe _ | ConnClose => True
  | _ => False
  end.

End Traces.

(* ===================================================================== *)
(** * [pkg/authprovider/file.go]: the lookups by URL                      *)
(* ===================================================================== *)

Module AuthURL.
Import Go AuthProvider.

(** [*url.URL]: the field the lookups read. *)
Record url_URL := { Host : string }.

(** [*urlutil.URL] embeds a [*url.URL], whose fields it promotes. *)
Record urlutil_URL := { embedded : url_URL; Original : string }.

Section Provider.
Context `{U : Unicode} `{R : RegexpEngine} `{A : AuthxPackage}.

(** [FileAuthProvider.LookupURL]. *)
Definition LookupURL (f : FileAuthProvider) (u : url_URL) (r : AuthStrategy) : Prop :=
  LookupAddr f (Host u) r.

(** [FileAuthProvider.LookupURLX]. *)
Definition LookupURLX (f : FileAuthProvider) (u : urlutil_URL) (r : AuthStrategy) : Prop :=
  LookupAddr f (Host (embedded u)) r.

(** The assignments [f.domains[strings.TrimSpace(domain)] = strategy] that
    [init] makes for a list of secrets, in the order it makes them. *)
Definition domain_entries (secrets : list Secret) : list (string * AuthStrategy) :=
  flat_map (fun secret =>
    map (fun domain => (TrimSpace domain, GetStrategy secret)) (Domains secret)) secrets.

End Provider.
End AuthURL.

(* ===================================================================== *)
(** * The DNS request executor: from the input to the results             *)
(* ===================================================================== *)

Module DNSInput.
Import Go Protocols.

(** The fields of the DNS [Request] and of its [options] that
    [ExecuteWithResults] and [parseDNSInput] read, beside those that
    [execute] reads. *)
Record Template := {
  request : DNS.Request;
  question : Z;                        (* [request.question], the type asked for *)
  Threads : Z;
  generator : option (list vars);      (* the payloads the iterator yields *)
  Constants : vars;
}.

(** [dns.TypePTR]. *)
Definition TypePTR : Z := 12.

(** The functions of other packages that turn the input into a domain and
    into variables. *)
Class InputTools := {
  IsURL : string -> bool;                         (* [utils.IsURL] *)
  (* [url.Parse(s)] and, on the URL it returns, [Hostname()] *)
  url_Parse_Hostname : string -> string + error;
  IsIP : string -> bool;                          (* [iputil.IsIP] *)
  ReverseAddr : string -> string + error;         (* [dns.ReverseAddr] *)
  Fqdn : string -> string;                        (* [dns.Fqdn] *)
  GenerateDNSVariables : string -> vars;
  BuildPayloadFromOptions : vars;
  Variables_Evaluate : vars -> vars;
  (* [syncutil.New(syncutil.WithSize(n))] *)
  syncutil_New : Z -> option error;
}.

Section Executor.
Context `{C : DNS.Collaborators} `{T : InputTools}.
Variable template : Template.

(** [extractDomain]. *)
Definition extractDomain (theURL : string) : string :=
  match url_Parse_Hostname theURL with
  | inr _ => ""
  | inl hostname => hostname
  end.

(** [Request.parseDNSInput]. *)
Definition parseDNSInput (host : string) : string + error :=
  let isIP := IsIP host in
  if bool_decide (question template = TypePTR) && isIP then
    match ReverseAddr host with
    | inr err => inr err
    | inl host => inl host
    end
  else if isIP then inr (New "cannot use IP address as DNS input")
  else inl (Fqdn host).

(** The domain [ExecuteWithResults] hands to [parseDNSInput]. *)
Definition input_domain (input : string) : string :=
  if IsURL input then extractDomain input else input.

(** The variables of a domain in [ExecuteWithResults], under the template
    context [ctx] of the input when there is one. *)
Definition domain_variables (domain : string) (metadata : vars) (ctx : option vars) : vars :=
  let variables := GenerateDNSVariables domain in
  let optionVars := BuildPayloadFromOptions in
  let variables :=
    match ctx with
    | Some all => MergeMaps [variables; metadata; optionVars; all]
    | None => variables
    end in
  let variablesMap := Variables_Evaluate variables in
  MergeMaps [variables; variablesMap; Constants template].

(** The loop over the payloads.  Each payload is executed by a goroutine
    of its own, which sends its result, an event or nil, whether or not it
    has failed; the model runs them one after the other, in the order they
    are dispatched. *)
Fixpoint run_payloads (domain : string) (metadata previous variables : vars)
    (values : list vars) (results : list Result) (errs : list error)
  : M (list Result * list error) :=
  match values with
  | [] => mret (results, errs)
  | value :: rest =>
      let value := MergeMaps [variables; value] in
      '(event, err) ← DNS.execute (request template) domain metadata previous value;
      let errs :=
        match err with
        | Some e => errs ++ [e]
        | None => errs
        end in
      run_payloads domain metadata previous variables rest
        (results ++ [{| Event := event; Error := None |}]) errs
  end.

(** The function that [ExecuteWithResults] hands to its error group: the
    results it sends and the error it returns. *)
Definition execute_group (input : string) (metadata previous : vars)
  : M (list Result * option error) :=
  match parseDNSInput (input_domain input) with
  | inr err => mret ([], Some (Wrap err "could not build request"))
  | inl domain =>
      ctx ← GetTemplateCtx;
      let variables := domain_variables domain metadata ctx in
      match generator template with
      | Some values =>
          match syncutil_New (Threads template) with
          | Some err => mret ([], Some err)
          | None =>
              '(results, errs) ← run_payloads domain metadata previous variables values
                                   [] [];
              mret (results, Combine errs)
          end
      | None =>
          '(event, err) ← DNS.execute (request template) domain metadata previous variables;
          match err with
          | Some e => mret ([], Some e)
          | None => mret ([{| Event := event; Error := None |}], None)
          end
      end
  end.

(** [Request.ExecuteWithResults]: everything the result channel delivers
    before it is closed. *)
Definition ExecuteWithResults (input : string) (metadata previous : vars)
  : M (list Result) :=
  '(results, err) ← execute_group input metadata previous;
  match err with
  | Some e => mret (results ++ [{| Event := None; Error := Some e |}])
  | None => mret results
  end.

(** The number of requests an execution can make: one for each payload,
    and one without payloads. *)
Definition dispatched : nat :=
  match generator template with
  | Some values => length values
  | None => 1
  end.

End Executor.

(** The client [execute] uses: the client of the template, unless the
    resolvers of the template have a placeholder, in which case a client
    is made for the resolvers of this execution. *)
Definition client_of `{C : DNS.Collaborators} (request : DNS.Request) (metadata : vars)
  : DNS.Client + error :=
  match DNS.ContainsUnresolvedVariables (DNS.Resolvers request) with
  | Some _ => DNS.getDnsClient metadata
  | None => inl DNS.defaultClient
  end.

End DNSInput.

(* ===================================================================== *)
(** * The JSONL exporter                                                  *)
(* ===================================================================== *)

Module JSONL.
Import Go.

(** [Options]. *)
Record Options := { File : string }.

(** What an exporter does to its file. *)
Inductive file_effect :=
| FileOpen (path : string)        (* [os.OpenFile(path, O_WRONLY|O_CREATE, 0644)] *)
| FileWrite (data : string)       (* [f.Write(data)] *)
| FileClose.                      (* [f.Close()] *)

(** The functions of other packages that [Close] calls: [json.Marshal],
    and for the calls on the file the error each of them reports, the
    writes being numbered from 0. *)
Class Files (ResultEvent : Type) := {
  Marshal : ResultEvent -> string + error;
  OpenFile : string -> option error;
  Write : nat -> string -> option error;
  CloseFile : option error;
}.

Section Exporter.
Context {ResultEvent : Type} `{F : Files ResultEvent}.

(** [Exporter]; its mutex serializes the calls, which the model takes one
    after the other. *)
Record Exporter := {
  options : Options;
  rows : list ResultEvent;
}.

(** [New]. *)
Definition New (options : Options) : Exporter + error :=
  inl {| options := options; rows := [] |}.

(** [Exporter.Export]: the exporter after the call, and the error. *)
Definition Export (exporter : Exporter) (event : ResultEvent) : Exporter * option error :=
  ({| options := options exporter; rows := rows exporter ++ [event] |}, None).

(** The loop of [Close] over the rows; [n] writes have been made. *)
Fixpoint write_rows (pending : list ResultEvent) (n : nat)
  : list file_effect * option error :=
  match pending with
  | [] => ([], None)
  | row :: rest =>
      match Marshal row with
      | inr err => ([], Some (Wrap err "failed to generate row for JSONL report"))
      | inl obj =>
          match Write n obj with
          | Some err => ([FileWrite obj], Some (Wrap err "failed to append JSONL line"))
          | None =>
              let '(effs, result) := write_rows rest (S n) in
              (FileWrite obj :: effs, result)
          end
      end
  end.

(** [Exporter.Close]: what it does to the file, and the error. *)
Definition Close (exporter : Exporter) : list file_effect * option error :=
  let path := File (options exporter) in
  match OpenFile path with
  | Some err => ([FileOpen path], Some (Wrap err "failed to create JSONL file"))
  | None =>
      match write_rows (rows exporter) 0 with
      | (effs, Some err) => (FileOpen path :: effs, Some err)
      | (effs, None) =>
          (FileOpen path :: effs ++ [FileClose],
           match CloseFile with
           | Some err => Some (Wrap err "failed to close JSONL file")
           | None => None
           end)
      end
  end.

(** An exporter after the calls of [Export] on [events], in this order. *)
Definition exported (exporter : Exporter) (events : list ResultEvent) : Exporter :=
  foldl (fun e event => (Export e event).1) exporter events.

(** The data of the writes of a trace, in order. *)
Definition written (effs : list file_effect) : list string :=
  omap (fun e => match e with FileWrite data => Some data | _ => None end) effs.

(** The file is closed in the trace. *)
Definition closed (effs : list file_effect) : bool :=
  existsb (fun e => match e with FileClose => true | _ => false end) effs.

End Exporter.
End JSONL.

(* ===================================================================== *)
(** * [v2/internal/installer/template.go]: check sums and changes         *)
(* ===================================================================== *)

Module Installer.
Import Go.

(** [templateUpdateResults]. *)
Record templateUpdateResults := {
  additions : list string;
  deletions : list string;
  modifications : list string;
  totalCount : nat;
}.

(** A [map[string]string] from file paths to check sums. *)
Abbreviation checksums := (gmap string string).

(** The first loop of [summarizeChanges], over the entries of [new] in
    the order [range] visits them. *)
Fixpoint scan_new (old : checksums) (visited : list (string * string))
    (additions modifications : list string) : list string * list string :=
  match visited with
  | [] => (additions, modifications)
  | (k, v) :: rest =>
      match old !! k with
      | Some oldv =>
          if String.eqb oldv v then scan_new old rest additions modifications
          else scan_new old rest additions (modifications ++ [k])
      | None => scan_new old rest (additions ++ [k]) modifications
      end
  end.

(** The second loop, over the keys of [old]. *)
Fixpoint scan_old (new : checksums) (visited : list (string * string))
    (deletions : list string) : list string :=
  match visited with
  | [] => deletions
  | (k, _) :: rest =>
      match new !! k with
      | Some _ => scan_old new rest deletions
      | None => scan_old new rest (deletions ++ [k])
      end
  end.

(** [TemplateManager.summarizeChanges], for the orders [oorder] and
    [norder] in which its loops visit the two maps. *)
Definition summarizeChanges_in (oorder norder : list (string * string))
    (old new : checksums) : templateUpdateResults :=
  let '(additions, modifications) := scan_new old norder [] [] in
  let deletions := scan_old new oorder [] in
  {| additions := additions;
     deletions := deletions;
     modifications := modifications;
     totalCount := length additions + length deletions + length modifications |}.

(** [TemplateManager.summarizeChanges]: [summarizeChanges old new r] when
    a call may return [r]; the order in which [range] visits a Go map is
    not specified. *)
Inductive summarizeChanges (old new : checksums) : templateUpdateResults -> Prop :=
| summarizeChanges_run oorder norder :
    oorder ≡ₚ map_to_list old -> norder ≡ₚ map_to_list new ->
    summarizeChanges old new (summarizeChanges_in oorder norder old new).

(** What the loops make of one entry: the path a new entry adds or
    modifies, and the path an old entry deletes. *)
Definition added (old : checksums) (entry : string * string) : option string :=
  match old !! entry.1 with
  | Some _ => None
  | None => Some entry.1
  end.

Definition modified (old : checksums) (entry : string * string) : option string :=
  match old !! entry.1 with
  | Some oldv => if String.eqb oldv entry.2 then None else Some entry.1
  | None => None
  end.

Definition deleted (new : checksums) (entry : string * string) : option string :=
  match new !! entry.1 with
  | Some _ => None
  | None => Some entry.1
  end.

(** [strings.Split(s, sep)] for a separator of one byte; [current] is
    the part that is being read. *)
Fixpoint split_from (s : string) (sep : ascii) (current : string) : list string :=
  match s with
  | EmptyString => [current]
  | String c rest =>
      if Ascii.eqb c sep then current :: split_from rest sep ""
      else split_from rest sep (current ++ String c "")
  end.

Definition Split (s : string) (sep : ascii) : list string := split_from s sep "".

Section Checksums.
Context `{U : Unicode}.

(** The loop of [getChecksumFromDir] over the lines of the check-sum
    file. *)
Definition read_lines (lines : list string) : checksums :=
  foldl (fun allChecksums v =>
           let v := TrimSpace v in
           match Split v "," with
           | [path; checksum] => <[path := checksum]> allChecksums
           | _ => allChecksums
           end) ∅ lines.

(** [TemplateManager.getChecksumFromDir].  [file] is the content of the
    check-sum file when the file exists and can be read, [calculated] what
    [calculateChecksumMap] returns for the directory. *)
Definition getChecksumFromDir (file : option string)
    (calculated : checksums + error) : checksums + error :=
  match file with
  | Some content => inl (read_lines (Split content "010"))
  | None => calculated
  end.

(** The text [writeChecksumFileInDir] puts into its buffer for the order
    [order] in which [range] visits the map. *)
Fixpoint buffer_text (order : list (string * string)) : string :=
  match order with
  | [] => ""
  | (k, v) :: rest => ((k ++ "," ++ v) ++ buffer_text rest)%string
  end.

(** [TemplateManager.writeChecksumFileInDir]: the content it writes to
    the check-sum file, or the error of [calculateChecksumMap];
    [write_error] is the error of [os.WriteFile]. *)
Definition writeChecksumFileInDir (order : list (string * string))
    (calculated : checksums + error) (write_error : option error)
  : option string * option error :=
  match calculated with
  | inr err => (None, Some err)
  | inl _ => (Some (buffer_text order), write_error)
  end.

End Checksums.

(** The number of bytes [c] in a text. *)
Fixpoint count_byte (c : ascii) (s : string) : nat :=
  match s with
  | EmptyString => 0
  | String a rest => (if Ascii.eqb a c then 1 else 0) + count_byte c rest
  end.

End Installer.

(* ===================================================================== *)
(** * Further runs                                                        *)
(* ===================================================================== *)

Module Runs.
Import Go Protocols Scenario.

(** A secrets file in which two secrets declare one domain, with space
    around it. *)
Definition duplicate_file : AuthProvider.Authx :=
  {| AuthProvider.Secrets :=
       [AuthScenario.basic [" api.example.com"] [] "old" "o-secret";
        AuthScenario.basic ["api.example.com "] [] "new" "n-secret"] |}.

Definition more_files : list (string * AuthProvider.Authx) :=
  ("duplicate.yaml", duplicate_file) :: AuthScenario.files.

(** A conversation whose template asks for a last read of -5 bytes. *)
Definition negative_read_request : Network.Request :=
  {| Network.ID := "";
     Network.Port := "25";
     Network.ExcludePorts := "";
     Network.ports := ["25"];
     Network.SelfContained := false;
     Network.addresses := [entry "{{Hostname}}" false];
     Network.Inputs := [plain "HELO" 0 ""];
     Network.ReadSize := (-5);
     Network.ReadAll := false;
     Network.Threads := 0;
     Network.generator := None;
     Network.CompiledOperators := false;
     Network.TemplateID := "scenario";
     Network.TemplatePath := "scenario.yaml";
     Network.Constants := ∅;
     Network.StopAtFirstMatch := false;
     Network.Interactsh := false;
     Network.DisableClustering := false;
     Network.PayloadConcurrency := 25 |}.

(** The labels of a dotted name. *)
Fixpoint labels (s current : string) : list string :=
  match s with
  | EmptyString => [current]
  | String c rest =>
      if Ascii.eqb c "." then current :: labels rest ""
      else labels rest (current ++ String c "")
  end.

(** An IPv4 address in dotted notation: digits and dots only. *)
Fixpoint dotted_digits (s : string) : bool :=
  match s with
  | EmptyString => true
  | String c rest => (HTTP.is_digit c || Ascii.eqb c ".") && dotted_digits rest
  end.

(** The tools of the DNS executor on names and IPv4 addresses: a URL is an
    input with a scheme, the reverse name of an address lists its labels
    backwards under [in-addr.arpa.], and a name becomes fully qualified by
    a final dot. *)
Definition dns_tools : DNSInput.InputTools :=
  {| DNSInput.IsURL s := Contains s "://";
     DNSInput.url_Parse_Hostname s :=
       if Contains s " " then inr (New "invalid character in host name")
       else inl (host_of s);
     DNSInput.IsIP s := negb (String.eqb s "") && dotted_digits s;
     DNSInput.ReverseAddr s :=
       inl (String.concat "." (rev (labels s "")) ++ ".in-addr.arpa.")%string;
     DNSInput.Fqdn s :=
       if String.eqb (str_drop (String.length s - 1) s) "." then s else (s ++ ".")%string;
     DNSInput.GenerateDNSVariables domain := {["FQDN" := VString domain]};
     DNSInput.BuildPayloadFromOptions := ∅;
     DNSInput.Variables_Evaluate variables := ∅;
     DNSInput.syncutil_New size := None |}.

(** A DNS template for a question of type [question], with the given
    payloads. *)
Definition dns_template (question : Z) (payloads : option (list vars))
  : DNSInput.Template :=
  {| DNSInput.request := dns_request;
     DNSInput.question := question;
     DNSInput.Threads := 0;
     DNSInput.generator := payloads;
     DNSInput.Constants := ∅ |}.

(** A name server that knows two names. *)
Definition zone : list (string * string) :=
  [("example.com.", "93.184.216.34"); ("www.example.com.", "93.184.216.34")].

(** An exporter of template names: a name marshals to an object with one
    field, the empty name does not marshal, and the disk takes [room]
    writes. *)
Definition json_files (room : nat) : JSONL.Files string :=
  {| JSONL.Marshal name :=
       if String.eqb name "" then inr (New "json: unsupported value")
       else inl ("{template-id:" ++ name ++ "}")%string;
     JSONL.OpenFile path := None;
     JSONL.Write n data :=
       if (n <? room)%nat then None else Some (New "no space left on device");
     JSONL.CloseFile := None |}.

End Runs.

(* ===================================================================== *)
(** * The HTTP request generator: [fillRequest] and its callers           *)
(* ===================================================================== *)

(** [v2/pkg/protocols/http/build_request.go]: [fillRequest], [setHeader],
    [makeHTTPRequestFromModel], [makeHTTPRequestFromRaw] and
    [handleRawWithPayloads].  The field [r.interactshURLs] of the
    generator is the only state they change: every function returns the
    generator next to its result. *)

Module Generator.
Import Go Protocols.

Definition evaluateHelperExpressionErrorMessage : string :=
  "could not evaluate helper expressions".

(** ** Header keys of [net/textproto] *)

Definition is_lower (c : ascii) : bool :=
  let n := nat_of_ascii c in (97 <=? n)%nat && (n <=? 122)%nat.

Definition upper (c : ascii) : ascii :=
  if is_lower c then ascii_of_nat (nat_of_ascii c - 32) else c.

(** [validHeaderFieldByte]: the bytes of a token of RFC 7230, that is the
    digits, the letters and the marks listed here. *)
Definition validHeaderFieldByte (c : ascii) : bool :=
  HTTP.is_digit c || GoAscii.is_upper c || is_lower c
  || existsb (Ascii.eqb c) (list_ascii_of_string "!#$%&'*+-.^_`|~").

(** The loop of [canonicalMIMEHeaderKey]: the first letter and every
    letter after a hyphen in upper case, the other letters in lower
    case. *)
Fixpoint canonical (up : bool) (s : string) : string :=
  match s with
  | EmptyString => EmptyString
  | String c rest =>
      let c := if up then upper c else GoAscii.lower c in
      String c (canonical (Ascii.eqb c "-") rest)
  end.

(** [textproto.CanonicalMIMEHeaderKey]: a key with a byte that is not
    valid in a header field is returned as it is. *)
Definition CanonicalMIMEHeaderKey (s : string) : string :=
  if forallb validHeaderFieldByte (list_ascii_of_string s) then canonical true s else s.

(** [http.Header] with its methods [Get] and [Set]. *)
Abbreviation Header := (gmap string (list string)).

Definition Header_Get (h : Header) (key : string) : string :=
  match h !! CanonicalMIMEHeaderKey key with
  | Some (v :: _) => v
  | _ => ""
  end.

Definition Header_Set (h : Header) (key value : string) : Header :=
  <[CanonicalMIMEHeaderKey key := [value]]> h.

(** [strings.HasSuffix]. *)
Definition HasSuffix (s suffix : string) : bool :=
  bool_decide (String.length suffix <= String.length s)
  && String.eqb (str_drop (String.length s - String.length suffix) s) suffix.

(** ** The requests *)

(** An [io.ReadCloser] that the generator makes a body of. *)
Inductive reader :=
| NopCloser (data : string)
| NewOpenGateWithTimeout (body : reader) (seconds : Z)
| ReusableReadCloser (data : string).

Module retryablehttp.

Inductive AuthType := DigestAuth.

Record Auth := {
  Type_ : AuthType;
  Username : string;
  Password : string;
}.

(** [retryablehttp.Request]: the fields the generator reads or writes;
    [Scheme] is [URL.Scheme]. *)
Record Request := {
  Scheme : string;
  Header : gmap string (list string);
  Host : string;
  Close : bool;
  Body : option reader;
  auth : option Auth;
}.

Definition set_Header (req : Request) (h : gmap string (list string)) : Request :=
  {| Scheme := Scheme req; Header := h; Host := Host req; Close := Close req;
     Body := Body req; auth := auth req |}.

Definition set_Host (req : Request) (host : string) : Request :=
  {| Scheme := Scheme req; Header := Header req; Host := host; Close := Close req;
     Body := Body req; auth := auth req |}.

Definition set_Close (req : Request) (close : bool) : Request :=
  {| Scheme := Scheme req; Header := Header req; Host := Host req; Close := close;
     Body := Body req; auth := auth req |}.

Definition set_Body (req : Request) (body : option reader) : Request :=
  {| Scheme := Scheme req; Header := Header req; Host := Host req; Close := Close req;
     Body := body; auth := auth req |}.

Definition set_Auth (req : Request) (a : option Auth) : Request :=
  {| Scheme := Scheme req; Header := Header req; Host := Host req; Close := Close req;
     Body := Body req; auth := a |}.

End retryablehttp.

Module raw.

(** [raw.Request]: the fields the generator reads. *)
Record Request := {
  FullURL : string;
  Method : string;
  Headers : gmap string string;
  Data : string;
}.

End raw.

(** The template's [http.Request]: the fields the generator reads.
    [Method] is [r.request.Method.String()]. *)
Record Request := {
  Method : string;
  Headers : gmap string string;
  Body : string;
  Raw : list string;
  Threads : Z;
  Unsafe : bool;
  Race : bool;
  DigestAuthUsername : string;
  DigestAuthPassword : string;
}.

(** [requestGenerator]: [Interactsh] is [r.options.Interactsh] with its
    method [ReplaceMarkers], [CustomHeaders] is
    [r.options.Options.CustomHeaders]. *)
Record requestGenerator := {
  request : Request;
  Interactsh : option (string -> list string -> string * list string);
  CustomHeaders : list string;
  interactshURLs : list string;
}.

Definition set_interactshURLs (r : requestGenerator) (urls : list string)
  : requestGenerator :=
  {| request := request r; Interactsh := Interactsh r;
     CustomHeaders := CustomHeaders r; interactshURLs := urls |}.

(** The collaborators: functions of this repository that are declared
    outside the sources at hand, functions of other libraries, and the
    package variable [LeaveDefaultPorts]. *)
Class Tools := {
  (* [expressions.Evaluate] *)
  Evaluate : string -> vars -> string + error;
  (* the error of [readerutil.NewReusableReadCloser] *)
  NewReusableReadCloser : string -> option error;
  (* [retryablehttp.NewRequestWithContext(ctx, method, url, body)] *)
  NewRequestWithContext : string -> string -> option reader -> retryablehttp.Request + error;
  (* [raw.Parse(request, baseURL, unsafe)] *)
  raw_Parse : string -> string -> bool -> raw.Request + error;
  (* the request after [rawRequestData.TryFillCustomHeaders(headers)] *)
  TryFillCustomHeaders : raw.Request -> list string -> raw.Request;
  CancelFunc : Type;
  (* [r.request.parseAnnotations(rawRequest, req)], when [hasAnnotations] *)
  parseAnnotations : Request -> string -> retryablehttp.Request
                     -> option (retryablehttp.Request * CancelFunc);
  LeaveDefaultPorts : bool;
}.

Section Fill.
Context `{T : Tools}.

(** [generatedRequest]; [pipelinedClient] is not set by these functions. *)
Record generatedRequest := {
  original : Request;
  rawRequest : option raw.Request;
  meta : vars;
  http_request : option retryablehttp.Request;
  dynamicValues : option vars;
  generated_interactshURLs : list string;
  customCancelFunction : option CancelFunc;
}.

(** [text, r.interactshURLs = r.options.Interactsh.ReplaceMarkers(text,
    r.interactshURLs)] under [if r.options.Interactsh != nil]. *)
Definition replace_markers (r : requestGenerator) (text : string)
  : string * requestGenerator :=
  match Interactsh r with
  | Some ReplaceMarkers =>
      let '(text, urls) := ReplaceMarkers text (interactshURLs r) in
      (text, set_interactshURLs r urls)
  | None => (text, r)
  end.

(** [setHeader]. *)
Definition setHeader (req : retryablehttp.Request) (name value : string)
  : retryablehttp.Request :=
  let req :=
    match retryablehttp.Header req !! name with
    | Some _ => req
    | None =>
        retryablehttp.set_Header req (Header_Set (retryablehttp.Header req) name value)
    end in
  if String.eqb name "Host" then retryablehttp.set_Host req value else req.

(** The loop of [fillRequest] over [r.request.Headers], visited in the
    order [order]. *)
Fixpoint fill_headers (order : list (string * string)) (r : requestGenerator)
    (req : retryablehttp.Request) (values : vars)
  : (retryablehttp.Request + error) * requestGenerator :=
  match order with
  | [] => (inl req, r)
  | (header, value) :: rest =>
      let '(value, r) := replace_markers r value in
      match Evaluate value values with
      | inr err => (inr (Wrap err evaluateHelperExpressionErrorMessage), r)
      | inl value =>
          let req :=
            retryablehttp.set_Header req (<[header := [value]]> (retryablehttp.Header req)) in
          let req :=
            if String.eqb header "Host" then retryablehttp.set_Host req value else req in
          fill_headers rest r req values
      end
  end.

(** The body the template asks for. *)
Definition fill_body (r : requestGenerator) (req : retryablehttp.Request)
    (values : vars) : (retryablehttp.Request + error) * requestGenerator :=
  if String.eqb (Body (request r)) "" then (inl req, r)
  else
    let '(body, r) := replace_markers r (Body (request r)) in
    match Evaluate body values with
    | inr err => (inr (Wrap err evaluateHelperExpressionErrorMessage), r)
    | inl body =>
        match NewReusableReadCloser body with
        | Some err =>
            (inr (Wrap err "failed to create reusable reader for request body"), r)
        | None => (inl (retryablehttp.set_Body req (Some (ReusableReadCloser body))), r)
        end
    end.

(** The [switch] on the default ports. *)
Definition trim_default_port (req : retryablehttp.Request) : retryablehttp.Request :=
  if LeaveDefaultPorts then req
  else if String.eqb (retryablehttp.Scheme req) "http"
          && HasSuffix (retryablehttp.Host req) ":80"
  then retryablehttp.set_Host req (TrimSuffix (retryablehttp.Host req) ":80")
  else if String.eqb (retryablehttp.Scheme req) "https"
          && HasSuffix (retryablehttp.Host req) ":443"
  then retryablehttp.set_Host req (TrimSuffix (retryablehttp.Host req) ":443")
  else req.

(** [fillRequest] when [range] visits the headers of the template in the
    order [order]; [agent] is what [uarand.GetRandom()] draws. *)
Definition fillRequest_in (order : list (string * string)) (r : requestGenerator)
    (req : retryablehttp.Request) (values : vars) (agent : string)
  : (retryablehttp.Request + error) * requestGenerator :=
  (* Set the header values requested *)
  match fill_headers order r req values with
  | (inr err, r) => (inr err, r)
  | (inl req, r) =>
      let req :=
        if bool_decide (Threads (request r) <= 0)%Z
           && String.eqb (Header_Get (retryablehttp.Header req) "Connection") ""
        then retryablehttp.set_Close req true else req in
      (* Check if the user requested a request body *)
      match fill_body r req values with
      | (inr err, r) => (inr err, r)
      | (inl req, r) =>
          let req :=
            if negb (Unsafe (request r)) then setHeader req "User-Agent" agent else req in
          (* Only set these headers on non-raw requests *)
          let req :=
            if (length (Raw (request r)) =? 0)%nat && negb (Unsafe (request r))
            then setHeader (setHeader req "Accept" "*/*") "Accept-Language" "en"
            else req in
          let req := trim_default_port req in
          let req :=
            if negb (String.eqb (DigestAuthUsername (request r)) "")
            then retryablehttp.set_Auth req
                   (Some {| retryablehttp.Type_ := retryablehttp.DigestAuth;
                            retryablehttp.Username := DigestAuthUsername (request r);
                            retryablehttp.Password := DigestAuthPassword (request r) |})
            else req in
          (inl req, r)
      end
  end.

(** [requestGenerator.fillRequest]: [fillRequest r req values agent res]
    when a call may return [res]; the order in which [range] visits a Go
    map is not specified. *)
Inductive fillRequest (r : requestGenerator) (req : retryablehttp.Request)
    (values : vars) (agent : string)
  : (retryablehttp.Request + error) * requestGenerator -> Prop :=
| fillRequest_run order :
    order ≡ₚ map_to_list (Headers (request r)) ->
    fillRequest r req values agent (fillRequest_in order r req values agent).

(** [makeHTTPRequestFromModel]. *)
Definition makeHTTPRequestFromModel_in (order : list (string * string))
    (r : requestGenerator) (data : string) (values generatorValues : vars)
    (agent : string) : (generatedRequest + error) * requestGenerator :=
  let '(data, r) := replace_markers r data in
  (* Combine the template payloads along with base request values. *)
  let finalValues := MergeMaps [generatorValues; values] in
  (* Evaluate the expressions for the request if any. *)
  match Evaluate data finalValues with
  | inr err => (inr (Wrap err evaluateHelperExpressionErrorMessage), r)
  | inl data =>
      match Evaluate (Method (request r)) finalValues with
      | inr err => (inr (Wrap err evaluateHelperExpressionErrorMessage), r)
      | inl method =>
          (* Build a request on the specified URL *)
          match NewRequestWithContext method data None with
          | inr err => (inr err, r)
          | inl req =>
              match fillRequest_in order r req finalValues agent with
              | (inr err, r) => (inr err, r)
              | (inl req, r) =>
                  (inl {| original := request r;
                          rawRequest := None;
                          meta := generatorValues;
                          http_request := Some req;
                          dynamicValues := Some finalValues;
                          generated_interactshURLs := interactshURLs r;
                          customCancelFunction := None |}, r)
              end
          end
      end
  end.

(** The loop of [handleRawWithPayloads] over the headers of the raw
    request, visited in the order [order]. *)
Fixpoint raw_headers (order : list (string * string)) (req : retryablehttp.Request)
  : retryablehttp.Request :=
  match order with
  | [] => req
  | (key, value) :: rest =>
      if String.eqb key "" then raw_headers rest req
      else
        let req :=
          retryablehttp.set_Header req (<[key := [value]]> (retryablehttp.Header req)) in
        let req :=
          if String.eqb key "Host" then retryablehttp.set_Host req value else req in
        raw_headers rest req
  end.

(** [handleRawWithPayloads]; [rorder] is a function that gives the order
    in which the headers of the parsed raw request are visited, [order]
    the order of the headers of the template. *)
Definition handleRawWithPayloads_in
    (rorder : raw.Request -> list (string * string)) (order : list (string * string))
    (r : requestGenerator) (rawRequest baseURL : string)
    (values generatorValues : vars) (agent : string)
  : (generatedRequest + error) * requestGenerator :=
  (* Combine the template payloads along with base request values. *)
  let finalValues := MergeMaps [generatorValues; values] in
  (* Evaluate the expressions for raw request if any. *)
  match Evaluate rawRequest finalValues with
  | inr err => (inr (Wrap err evaluateHelperExpressionErrorMessage), r)
  | inl rawRequest =>
      match raw_Parse rawRequest baseURL (Unsafe (request r)) with
      | inr err => (inr err, r)
      | inl rawRequestData =>
          (* Unsafe option uses rawhttp library *)
          if Unsafe (request r) then
            let rawRequestData :=
              if (0 <? length (CustomHeaders r))%nat
              then TryFillCustomHeaders rawRequestData (CustomHeaders r)
              else rawRequestData in
            (inl {| original := request r;
                    rawRequest := Some rawRequestData;
                    meta := generatorValues;
                    http_request := None;
                    dynamicValues := None;
                    generated_interactshURLs := interactshURLs r;
                    customCancelFunction := None |}, r)
          else
            let body := NopCloser (raw.Data rawRequestData) in
            let body :=
              if Race (request r) then NewOpenGateWithTimeout body 2 else body in
            match NewRequestWithContext (raw.Method rawRequestData)
                    (raw.FullURL rawRequestData) (Some body) with
            | inr err => (inr err, r)
            | inl req =>
                let req := raw_headers (rorder rawRequestData) req in
                match fillRequest_in order r req finalValues agent with
                | (inr err, r) => (inr err, r)
                | (inl req, r) =>
                    let '(request, customCancelFunction) :=
                      match parseAnnotations (request r) rawRequest req with
                      | Some (reqWithAnnotations, cancelFunc) =>
                          (reqWithAnnotations, Some cancelFunc)
                      | None => (req, None)
                      end in
                    (inl {| original := Generator.request r;
                            rawRequest := None;
                            meta := generatorValues;
                            http_request := Some request;
                            dynamicValues := Some finalValues;
                            generated_interactshURLs := interactshURLs r;
                            customCancelFunction := customCancelFunction |}, r)
                end
            end
      end
  end.

(** [makeHTTPRequestFromRaw]. *)
Definition makeHTTPRequestFromRaw_in
    (rorder : raw.Request -> list (string * string)) (order : list (string * string))
    (r : requestGenerator) (baseURL data : string) (values payloads : vars)
    (agent : string) : (generatedRequest + error) * requestGenerator :=
  let '(data, r) := replace_markers r data in
  handleRawWithPayloads_in rorder order r data baseURL values payloads agent.

(** [handleRawWithPayloads r rawRequest baseURL values generatorValues
    agent res] when a call may return [res]. *)
Inductive handleRawWithPayloads (r : requestGenerator) (rawRequest baseURL : string)
    (values generatorValues : vars) (agent : string)
  : (generatedRequest + error) * requestGenerator -> Prop :=
| handleRawWithPayloads_run rorder order :
    (forall parsed, rorder parsed ≡ₚ map_to_list (raw.Headers parsed)) ->
    order ≡ₚ map_to_list (Headers (request r)) ->
    handleRawWithPayloads r rawRequest baseURL values generatorValues agent
      (handleRawWithPayloads_in rorder order r rawRequest baseURL values
         generatorValues agent).

(** The value that the request carries for a header that neither the
    template nor the request gave. *)
Definition default_header (request : Request) (agent key : string)
  : option (list string) :=
  if String.eqb key "User-Agent" then
    if Unsafe request then None else Some [agent]
  else if String.eqb key "Accept" then
    if (length (Raw request) =? 0)%nat && negb (Unsafe request) then Some ["*/*"] else None
  else if String.eqb key "Accept-Language" then
    if (length (Raw request) =? 0)%nat && negb (Unsafe request) then Some ["en"] else None
  else None.

End Fill.

End Generator.

(* ===================================================================== *)
(** * The HTTP request generator: self-contained requests                 *)
(* ===================================================================== *)

Module SelfContained.
Import Go Protocols Generator.

(** The collaborators of [makeSelfContainedRequest]: functions of this
    repository that are declared outside the sources at hand, and the URLs
    of [urlutil]. *)
Class Tools := {
  (* [r.request.isRaw()] *)
  isRaw : Request -> bool;
  (* [generators.BuildPayloadFromOptions(r.request.options.Options)] *)
  BuildPayloadFromOptions : vars;
  (* [GetVariablesDefault(r.request.Signature.Value)] *)
  GetVariablesDefault : Request -> option vars;
  (* [GetVariablesNamesSkipList(r.request.Signature.Value)] *)
  GetVariablesNamesSkipList : Request -> option (list string);
  replacer_Replace : string -> vars -> string;
  ContainsVariablesWithIgnoreList : list string -> string -> option error;
  ContainsUnresolvedVariables : string -> option error;
  URL : Type;
  (* [urlutil.ParseURL(text, unsafe)] *)
  ParseURL : string -> bool -> URL + error;
  URL_String : URL -> string;
  (* [utils.GenerateVariablesWithURL(parsed, trailingSlash, nil)] *)
  GenerateVariablesWithURL : URL -> bool -> vars;
}.

(** [io.EOF]. *)
Definition EOF : error := Sentinel "io.EOF".

(** The loop at the label [read_line]: [reader.ReadString] reads [text]
    up to the next line feed, which it includes, and [current] is what it
    has read of the line; a line that begins with [@] is skipped, and the
    end of the text before a line feed is [io.EOF]. *)
Fixpoint read_line (text current : string) : string + error :=
  match text with
  | EmptyString => inr (Wrap EOF "could not read request")
  | String c rest =>
      if Ascii.eqb c "010" then
        let s := (current ++ String c "")%string in
        (* ignore all annotations *)
        if HasPrefix s "@" then read_line rest "" else inl s
      else read_line rest (current ++ String c "")
  end.

Section Make.
Context `{G : Generator.Tools} `{S : Tools}.

(** [makeSelfContainedRequest] for a raw request, from the second part of
    the request line on. *)
Definition raw_request_for
    (rorder : raw.Request -> list (string * string)) (order : list (string * string))
    (r : requestGenerator) (data : string) (payloads dynamicValues : vars)
    (agent : string) (url : string)
  : (generatedRequest + error) * requestGenerator :=
  let values := MergeMaps [payloads; BuildPayloadFromOptions] in
  (* in case cases (eg requests signing, some variables uses default values if missing) *)
  let values :=
    match GetVariablesDefault (request r) with
    | Some defaultList => MergeMaps [defaultList; values]
    | None => values
    end in
  let url := replacer_Replace url values in
  let url :=
    if (0 <? size dynamicValues)%nat then replacer_Replace url dynamicValues else url in
  (* the url might contain placeholders with ignore list *)
  match match GetVariablesNamesSkipList (request r) with
        | Some ignoreList => ContainsVariablesWithIgnoreList ignoreList url
        | None => ContainsUnresolvedVariables url
        end with
  | Some err => (inr err, r)
  | None =>
      match ParseURL url true with
      | inr err => (inr (Wrap err "could not parse request URL"), r)
      | inl parsed =>
          let values :=
            MergeMaps [MergeMaps [dynamicValues; GenerateVariablesWithURL parsed false];
                       values] in
          makeHTTPRequestFromRaw_in rorder order r (URL_String parsed) data values payloads
            agent
      end
  end.

(** [makeSelfContainedRequest], for the orders in which the headers of
    the raw request and of the template are visited. *)
Definition makeSelfContainedRequest_in
    (rorder : raw.Request -> list (string * string)) (order : list (string * string))
    (r : requestGenerator) (data : string) (payloads dynamicValues : vars)
    (agent : string) : (generatedRequest + error) * requestGenerator :=
  if isRaw (request r) then
    (* Get the hostname from the URL section to build the request. *)
    match read_line data "" with
    | inr err => (inr err, r)
    | inl s =>
        match Installer.Split s " " with
        | method :: url :: _ :: _ =>
            raw_request_for rorder order r data payloads dynamicValues agent url
        | _ => (inr (New "malformed request supplied"), r)
        end
    end
  else
    let values := MergeMaps [dynamicValues; BuildPayloadFromOptions] in
    makeHTTPRequestFromModel_in order r data values payloads agent.

End Make.

(** The lines of annotations before a request line: each begins with [@]
    and ends with a line feed. *)
Fixpoint annotated (notes : list string) : string :=
  match notes with
  | [] => ""
  | note :: rest => (("@" ++ note ++ String "010" "") ++ annotated rest)%string
  end.

(** A text without line feed. *)
Definition one_line (s : string) : Prop := IndexByte s "010" = None.

(** The value of the first of [maps] that binds [key]. *)
Fixpoint first_bound (maps : list vars) (key : string) : option value :=
  match maps with
  | [] => None
  | m :: rest =>
      match m !! key with
      | Some v => Some v
      | None => first_bound rest key
      end
  end.

End SelfContained.

(* ===================================================================== *)
(** * The installer: where a file of the archive is written               *)
(* ===================================================================== *)

(** [v2/internal/installer/template.go], [getAbsoluteFilePath], with the
    functions [Clean] and [Join] of [path/filepath] for paths with the
    separator [/]. *)

Module filepath.
Import Go.

(** One element of a path in [Clean]; [out] holds the elements kept so
    far, the last one first.  An empty element and [.] are dropped; [..]
    removes the element before it, unless there is none or it is [..]
    itself: then it is dropped in a rooted path and kept in another. *)
Definition clean_element (rooted : bool) (out : list string) (element : string)
  : list string :=
  if String.eqb element "" || String.eqb element "." then out
  else if String.eqb element ".." then
    match out with
    | last :: before => if String.eqb last ".." then element :: out else before
    | [] => if rooted then [] else [element]
    end
  else element :: out.

(** [filepath.Clean]: the shortest path that names the same file by
    purely lexical processing; the empty path becomes [.]. *)
Definition Clean (path : string) : string :=
  if String.eqb path "" then "."
  else
    let rooted := HasPrefix path "/" in
    let out :=
      String.concat "/" (rev (foldl (clean_element rooted) [] (Installer.Split path "/"))) in
    if rooted then ("/" ++ out)%string
    else if String.eqb out "" then "." else out.

(** [filepath.Join]: the elements from the first one that is not empty
    on, joined by the separator and cleaned; the empty string when there
    is none. *)
Fixpoint Join (elem : list string) : string :=
  match elem with
  | [] => ""
  | e :: rest => if String.eqb e "" then Join rest else Clean (String.concat "/" elem)
  end.

End filepath.

Module InstallPath.
Import Go.

(** [fs.FileInfo]: the methods [getAbsoluteFilePath] calls. *)
Record FileInfo := {
  Name : string;
  IsDir : bool;
}.

(** What the function does besides returning a path. *)
Inductive action :=
| Warn_no_directory (uri : string)
| CreateFolder_at (path : string)
| Warn_folder (uri : string) (err : error).

(** The names of package [config], which is declared outside the sources
    at hand, and [fileutil.CreateFolder]. *)
Class Config := {
  NucleiIgnoreFileName : string;
  GetIgnoreFilePath : string;
  NewTemplateAdditionsFileName : string;
  CreateFolder : string -> option error;
}.

Section Path.
Context `{U : Unicode} `{C : Config}.

(** [TemplateManager.getAbsoluteFilePath]; the empty path means that the
    file is skipped. *)
Definition getAbsoluteFilePath (templatedir uri : string) (f : FileInfo)
  : string * list action :=
  (* overwrite .nuclei-ignore everytime nuclei-templates are downloaded *)
  if String.eqb (Name f) NucleiIgnoreFileName then (GetIgnoreFilePath, [])
  (* skip all meta files *)
  else if negb (EqualFold (Name f) NewTemplateAdditionsFileName)
          && (String.eqb (TrimSpace (Name f)) ""
              || HasPrefix (Name f) "."
              || EqualFold (Name f) "README.md")
  then ("", [])
  else
    (* get root or leftmost directory name from path *)
    match Index uri "/" with
    | None =>
        (* zip files does not have directory at all *)
        (filepath.Join [templatedir; uri], [Warn_no_directory uri])
    | Some index =>
        (* seperator is also included in rootDir *)
        let rootDirectory := str_take (index + 1) uri in
        let relPath :=
          if HasPrefix uri rootDirectory
          then str_drop (String.length rootDirectory) uri else uri in
        (* if it is a github meta directory skip it *)
        if HasPrefix relPath ".github" || HasPrefix relPath ".git" then ("", [])
        else
          let newPath := filepath.Clean (filepath.Join [templatedir; relPath]) in
          if negb (HasPrefix newPath templatedir) then
            (* we don't allow LFI *)
            ("", [])
          else if negb (String.eqb relPath "") && IsDir f then
            (* if uri is a directory, create it *)
            match CreateFolder newPath with
            | Some err => ("", [CreateFolder_at newPath; Warn_folder uri err])
            | None => ("", [CreateFolder_at newPath])
            end
          else (newPath, [])
    end.

End Path.

(** A name of one element of a path: it has no separator and is neither
    empty nor [.] nor [..]. *)
Definition element (name : string) : Prop :=
  Installer.count_byte "/" name = 0 /\ name <> "" /\ name <> "." /\ name <> "..".

(** The rooted path of the elements [names]. *)
Definition rooted (names : list string) : string :=
  ("/" ++ String.concat "/" names)%string.

End InstallPath.

(* ===================================================================== *)
(** * HTTP requests for concrete runs                                     *)
(* ===================================================================== *)

Module GeneratorRuns.
Import Go Protocols Generator.

Definition scheme_of (url : string) : string :=
  match Index url "://" with
  | Some i => str_take i url
  | None => ""
  end.

(** The first line of a raw request, up to the line feed. *)
Definition first_line (text : string) : string :=
  match IndexByte text "010" with
  | Some i => str_take i text
  | None => text
  end.

(** Simple tools: a text evaluates to itself unless a placeholder is left
    in it, a request starts without headers for the host of its URL, and
    a raw request is a request line [METHOD path] followed by the one
    header [host] it is parsed with; there are no annotations. *)
Definition plain_tools : Tools :=
  {| Evaluate text values :=
       if Contains text "{{" then inr (New "unresolved variables found")
       else inl text;
     NewReusableReadCloser body := None;
     NewRequestWithContext method url body :=
       inl {| retryablehttp.Scheme := scheme_of url;
              retryablehttp.Header := ∅;
              retryablehttp.Host := Scenario.host_of url;
              retryablehttp.Close := false;
              retryablehttp.Body := body;
              retryablehttp.auth := None |};
     raw_Parse text baseURL unsafe :=
       match Index (first_line text) " " with
       | Some i =>
           inl {| raw.FullURL := (baseURL ++ str_drop (i + 1) (first_line text))%string;
                  raw.Method := str_take i text;
                  raw.Headers := {["Host" := Scenario.host_of baseURL;
                                   "user-agent" := "raw/1.0"]};
                  raw.Data := "" |}
       | None => inr (New "malformed request supplied")
       end;
     TryFillCustomHeaders rawRequestData headers := rawRequestData;
     CancelFunc := unit;
     parseAnnotations request rawRequest req := None;
     LeaveDefaultPorts := false |}.

(** A template that sets three headers, one of them the host with the
    default port of [http]. *)
Definition probe : Request :=
  {| Method := "GET";
     Headers := {["Host" := "internal.example:80";
                  "user-agent" := "probe/2.0";
                  "X-Token" := "abc"]};
     Body := "";
     Raw := [];
     Threads := 0;
     Unsafe := false;
     Race := false;
     DigestAuthUsername := "";
     DigestAuthPassword := "" |}.

Definition generator_of (request : Request) : requestGenerator :=
  {| request := request;
     Interactsh := None;
     CustomHeaders := [];
     interactshURLs := [] |}.

(** A request for [http://example.com/], as it comes with a cookie. *)
Definition fresh : retryablehttp.Request :=
  {| retryablehttp.Scheme := "http";
     retryablehttp.Header := {["Cookie" := ["session=1"]]};
     retryablehttp.Host := "example.com";
     retryablehttp.Close := false;
     retryablehttp.Body := None;
     retryablehttp.auth := None |}.

(** A template with a header that does not evaluate. *)
Definition unresolved : Request :=
  {| Method := "GET";
     Headers := {["X-Token" := "{{token}}"]};
     Body := "";
     Raw := [];
     Threads := 0;
     Unsafe := false;
     Race := false;
     DigestAuthUsername := "";
     DigestAuthPassword := "" |}.

(** A raw template with one header. *)
Definition raw_probe : Request :=
  {| Method := "GET";
     Headers := {["X-Token" := "abc"]};
     Body := "";
     Raw := ["GET /admin"];
     Threads := 0;
     Unsafe := false;
     Race := false;
     DigestAuthUsername := "";
     DigestAuthPassword := "" |}.

(** Simple tools for self-contained requests: a request is raw when the
    template has raw requests, a URL is its text, and there is no
    signature. *)
Definition self_contained_tools : SelfContained.Tools :=
  {| SelfContained.isRaw request := (0 <? length (Raw request))%nat;
     SelfContained.BuildPayloadFromOptions := ∅;
     SelfContained.GetVariablesDefault request := None;
     SelfContained.GetVariablesNamesSkipList request := None;
     SelfContained.replacer_Replace := Scenario.Replace;
     SelfContained.ContainsVariablesWithIgnoreList ignoreList text := None;
     SelfContained.ContainsUnresolvedVariables text :=
       if Contains text "{{" then Some (New "unresolved variables found") else None;
     SelfContained.URL := string;
     SelfContained.ParseURL text unsafe := inl text;
     SelfContained.URL_String parsed := parsed;
     SelfContained.GenerateVariablesWithURL parsed trailingSlash := ∅ |}.

(** A raw request after one annotation, and the same request without its
    final line feed. *)
Definition annotated_request : string :=
  (SelfContained.annotated ["timeout: 5s"]
   ++ "GET http://example.com/admin HTTP/1.1" ++ String "010" "")%string.

Definition unterminated_request : string :=
  (SelfContained.annotated ["timeout: 5s"]
   ++ "GET http://example.com/admin HTTP/1.1")%string.

End GeneratorRuns.

(* ===================================================================== *)
(** * An installation for concrete runs                                   *)
(* ===================================================================== *)

Module InstallRuns.
Import Go InstallPath.

(** The names of the configuration, and a disk on which every folder can
    be created. *)
Definition install_config : Config :=
  {| NucleiIgnoreFileName := ".nuclei-ignore";
     GetIgnoreFilePath := "/home/user/.config/nuclei/.nuclei-ignore";
     NewTemplateAdditionsFileName := ".new-additions";
     CreateFolder path := None |}.

Definition template_file (name : string) : FileInfo :=
  {| Name := name; IsDir := false |}.

End InstallRuns.

(* ===================================================================== *)
(** * Facts about the string functions                                    *)
(* ===================================================================== *)

Module GoFacts.
Import Go.

Lemma append_String a s t : (String a s ++ t)%string = String a (s ++ t).
Proof. reflexivity. Qed.

Lemma append_assoc_byte s c t : ((s ++ String c "") ++ t)%string = (s ++ String c t)%string.
Proof. induction s as [|a s IH]; [done|]. by rewrite !append_String, IH. Qed.

Lemma length_append_byte s c : String.length (s ++ String c "") = String.length s + 1.
Proof. induction s as [|a s IH]; [done|]. rewrite append_String. simpl. by rewrite IH. Qed.

Lemma HasPrefix_empty s : HasPrefix s "" = true.
Proof. by destruct s. Qed.

Lemma Index_byte s c : Index s (String c "") = IndexByte s c.
Proof.
  induction s as [|a s IH]; [done|].
  simpl. rewrite HasPrefix_empty, andb_true_r.
  rewrite (Ascii.eqb_sym c a). destruct (Ascii.eqb a c); [done|].
  by rewrite IH.
Qed.

Lemma LastIndexByte_Some_IndexByte s c i :
  LastIndexByte s c = Some i -> is_Some (IndexByte s c).
Proof.
  revert i. induction s as [|a s IH]; intros i; [done|].
  simpl. destruct (Ascii.eqb a c); [by eauto|].
  destruct (LastIndexByte s c) as [j|]; [|done].
  intros _. destruct (IH j eq_refl) as [k ->]. by eexists.
Qed.

Lemma IndexByte_None_Last s c : IndexByte s c = None -> LastIndexByte s c = None.
Proof.
  induction s as [|a s IH]; [done|].
  simpl. destruct (Ascii.eqb a c); [done|].
  destruct (IndexByte s c); [done|]. intros _. by rewrite IH.
Qed.

Lemma IndexByte_app_None s t c :
  IndexByte s c = None -> IndexByte t c = None -> IndexByte (s ++ t) c = None.
Proof.
  intros Hs Ht. induction s as [|a s IH]; [done|].
  simpl in *. destruct (Ascii.eqb a c); [done|].
  destruct (IndexByte s c) eqn:E; [done|]. by rewrite IH.
Qed.

Lemma LastIndexByte_app s t c :
  LastIndexByte t c = None ->
  LastIndexByte (s ++ String c t) c = Some (String.length s).
Proof.
  intros Ht. induction s as [|a s IH].
  - simpl. by rewrite Ht, Ascii.eqb_refl.
  - simpl. by rewrite IH.
Qed.

Lemma str_take_length n s : String.length (str_take n s) <= n.
Proof.
  revert s. induction n as [|n IH]; intros [|a s]; simpl; try lia.
  specialize (IH s). lia.
Qed.

Lemma str_take_app s t : str_take (String.length s) (s ++ t) = s.
Proof.
  induction s as [|a s IH]; simpl; [by destruct t|]. by rewrite IH.
Qed.

Lemma str_drop_app s t : str_drop (String.length s) (s ++ t) = t.
Proof. induction s as [|a s IH]; simpl; [by destruct t|]. done. Qed.

Lemma Contains_colon s : Contains s ":" = bool_decide (is_Some (IndexByte s ":")).
Proof. unfold Contains. by rewrite Index_byte. Qed.

(** A host without colon or bracket, followed by a colon and a port without
    colon or bracket, splits into the two. *)
Lemma SplitHostPort_plain host port :
  IndexByte host ":" = None -> IndexByte host "[" = None -> IndexByte host "]" = None ->
  IndexByte port ":" = None -> IndexByte port "[" = None -> IndexByte port "]" = None ->
  SplitHostPort (host ++ ":" ++ port) = inl (host, port).
Proof.
  intros Hc Hl Hr Pc Pl Pr. unfold SplitHostPort.
  change (":" ++ port)%string with (String ":" port).
  assert (IndexByte (String ":" port) "[" = None) as Pl' by (simpl; by rewrite Pl).
  assert (IndexByte (String ":" port) "]" = None) as Pr' by (simpl; by rewrite Pr).
  rewrite (LastIndexByte_app host port ":" (IndexByte_None_Last _ _ Pc)).
  assert (first_byte (host ++ String ":" port) <> Some "["%char) as Hfirst.
  { destruct host as [|a host]; simpl; [done|].
    simpl in Hl. destruct (Ascii.eqb_spec a "["); [done|]. congruence. }
  rewrite bool_decide_eq_false_2 by done.
  rewrite str_take_app, Hc.
  rewrite (bool_decide_eq_false_2 (is_Some None)) by (by intros [? ?]).
  simpl str_drop.
  rewrite (IndexByte_app_None host (String ":" port) "[") by done.
  rewrite (IndexByte_app_None host (String ":" port) "]") by done.
  rewrite (bool_decide_eq_false_2 (is_Some None)) by (by intros [? ?]).
  by rewrite <- (length_append_byte host ":"), <- (append_assoc_byte host ":" port), str_drop_app.
Qed.

End GoFacts.

(* ===================================================================== *)
(** * Facts about the auth provider                                       *)
(* ===================================================================== *)

Module AuthProviderFacts.
Import Go GoFacts AuthProvider.

Section Lookup.
Context `{U : Unicode} `{R : RegexpEngine} `{A : AuthxPackage}.







Lemma LookupAddr_lookup_on (f : FileAuthProvider) addr r :
  LookupAddr f addr r <-> lookup_on f (normalize addr) r.
Proof. split; intros [dorder corder Hd Hc]; by constructor. Qed.

(** ** The order of the pattern scan *)



(** ** Default ports *)

Lemma normalize_split addr host port :
  SplitHostPort addr = inl (host, port) -> port = "80" \/ port = "443" ->
  normalize addr = host.
Proof.
  intros Hsplit Hport. unfold normalize.
  assert (Contains addr ":" = true) as ->.
  { rewrite Contains_colon. apply bool_decide_eq_true_2.
    unfold SplitHostPort in Hsplit.
    destruct (LastIndexByte addr ":") as [i|] eqn:Ei; [|done].
    by apply LastIndexByte_Some_IndexByte in Ei. }
  rewrite Hsplit. by destruct Hport as [-> | ->].
Qed.



(** ** Initialization *)

Lemma init_domain_fold secret ds (f : FileAuthProvider) :
  compiled (foldl (init_domain secret) f ds) = compiled f /\
  store (foldl (init_domain secret) f ds) = store f.
Proof.
  revert f. induction ds as [|d ds IH]; intros f; simpl; [done|].
  destruct (IH (init_domain secret f d)) as [-> ->]. done.
Qed.

Lemma init_regex_fold secret ps (f : FileAuthProvider) :
  compiled (foldl (init_regex secret) f ps)
  = compiled f ++ flat_map (fun domain =>
      match Compile domain with
      | Some c => [(c, GetStrategy secret)]
      | None => []
      end) ps /\
  store (foldl (init_regex secret) f ps) = store f.
Proof.
  revert f. induction ps as [|p ps IH]; intros f; simpl; [by rewrite app_nil_r|].
  destruct (IH (init_regex secret f p)) as [-> ->].
  unfold init_regex. destruct (Compile p) as [c|]; simpl; [|done].
  by rewrite <- app_assoc.
Qed.

Lemma init_secret_fold secrets (f : FileAuthProvider) :
  compiled (foldl init_secret f secrets)
  = compiled f ++ pattern_entries (fun _ => false) secrets /\
  store (foldl init_secret f secrets) = store f.
Proof.
  revert f. induction secrets as [|secret secrets IH]; intros f; simpl;
    [by rewrite app_nil_r|].
  destruct (IH (init_secret f secret)) as [-> ->]. unfold init_secret.
  destruct (init_domain_fold secret (Domains secret)
              (foldl (init_regex secret) f (DomainsRegex secret))) as [-> ->].
  destruct (init_regex_fold secret (DomainsRegex secret) f) as [-> ->].
  by rewrite <- app_assoc.
Qed.



Lemma NewFileAuthProvider_inl path (f : FileAuthProvider) :
  NewFileAuthProvider path = inl f <->
  exists st,
    GetAuthDataFromFile path = inl st /\ Secrets st <> [] /\
    validate_secrets (Secrets st) = None /\
    f = init {| Path := path; store := st; compiled := []; domains := ∅ |}.
Proof.
  unfold NewFileAuthProvider. split.
  - destruct (GetAuthDataFromFile path) as [st|err]; [|done].
    case_bool_decide as Hlen; [done|].
    destruct (validate_secrets (Secrets st)) eqn:Hv; [done|]. intros [= <-].
    exists st. repeat split; try done. by destruct (Secrets st).
  - intros (st & -> & Hne & -> & ->).
    rewrite bool_decide_eq_false_2; [done|]. by destruct (Secrets st).
Qed.


End Lookup.

(** ** Construction *)

Section Construction.
Context `{U : Unicode} `{R : RegexpEngine}.
Context (S : Type) (load : string -> Authx + error) (wellformed : Secret -> bool)
        (strategy_of : Secret -> option S).

Let authx : AuthxPackage := spec_package S load wellformed strategy_of.
#[local] Existing Instance authx.

Lemma spec_Validate_None secret :
  spec_Validate wellformed secret = None <-> ~ invalid wellformed secret.
Proof.
  unfold spec_Validate, invalid. case_bool_decide as Hempty.
  - split; [done|]. intros Hn. destruct Hn. left.
    destruct Hempty as [Hd Hr]. by destruct (Domains secret), (DomainsRegex secret).
  - destruct (wellformed secret).
    + split; [|done]. intros _ [[Hd Hr]|?]; [|done]. apply Hempty. by rewrite Hd, Hr.
    + split; [done|]. intros Hn. destruct Hn. by right.
Qed.

Lemma spec_Validate_Some secret cause :
  spec_Validate wellformed secret = Some cause -> invalid wellformed secret.
Proof.
  unfold spec_Validate, invalid. case_bool_decide as Hempty.
  - intros _. left. destruct Hempty as [Hd Hr].
    by destruct (Domains secret), (DomainsRegex secret).
  - destruct (wellformed secret); [done|]. by right.
Qed.

Lemma validate_secrets_None secrets :
  validate_secrets secrets = None <->
  Forall (fun secret => ~ invalid wellformed secret) secrets.
Proof.
  induction secrets as [|secret secrets IH]; simpl; [by split; [constructor|]|].
  rewrite Forall_cons_iff, <- IH, <- spec_Validate_None.
  destruct (spec_Validate wellformed secret); split; try done; by intros [? ?].
Qed.

Lemma validate_secrets_Some secrets err :
  validate_secrets secrets = Some err ->
  exists secret, In secret secrets /\ spec_Validate wellformed secret = Some err.
Proof.
  induction secrets as [|secret secrets IH]; simpl; [done|].
  destruct (spec_Validate wellformed secret) as [e|] eqn:Hv.
  - intros [= ->]. exists secret. auto.
  - intros Hrest. destruct (IH Hrest) as (s' & Hin & Hs'). exists s'. auto.
Qed.

(** C9.  On a secrets file that loads, [NewFileAuthProvider] fails with
    [ErrNoSecrets] when the file holds no secret; it fails with the wrapped
    error of [Validate] when some secret is invalid, that is, has neither a
    domain nor a pattern or has a malformed strategy; and it returns a
    provider, the initialized one, exactly when there is a secret and every
    secret is valid. *)
Theorem NewFileAuthProvider_validates path st :
  load path = inl st ->
  (Secrets st = [] -> NewFileAuthProvider path = inr ErrNoSecrets) /\
  ((exists secret, In secret (Secrets st) /\ invalid wellformed secret) ->
   exists secret cause,
     In secret (Secrets st) /\ invalid wellformed secret /\
     spec_Validate wellformed secret = Some cause /\
     NewFileAuthProvider path = inr (Wrap cause ("invalid secret in file: " ++ path))) /\
  (forall f, NewFileAuthProvider path = inl f ->
     Secrets st <> [] /\
     Forall (fun secret => ~ invalid wellformed secret) (Secrets st) /\
     f = init {| Path := path; store := st; compiled := []; domains := ∅ |}) /\
  (Secrets st <> [] ->
   Forall (fun secret => ~ invalid wellformed secret) (Secrets st) ->
   NewFileAuthProvider path
   = inl (init {| Path := path; store := st; compiled := []; domains := ∅ |})).
Proof.
  intros Hload. unfold NewFileAuthProvider. simpl. rewrite Hload.
  split; [|split; [|split]].
  - by intros ->.
  - intros (bad & Hin & Hbad).
    assert (Secrets st <> []) as Hne by (by destruct (Secrets st)).
    rewrite bool_decide_eq_false_2 by (by destruct (Secrets st)).
    destruct (validate_secrets (Secrets st)) as [cause|] eqn:Hv.
    + destruct (validate_secrets_Some _ _ Hv) as (secret & Hs & Hcause).
      exists secret, cause. repeat split; try done.
      by apply spec_Validate_Some in Hcause.
    + apply validate_secrets_None in Hv. rewrite List.Forall_forall in Hv.
      by destruct (Hv bad Hin).
  - intros f. case_bool_decide as Hlen; [done|].
    destruct (validate_secrets (Secrets st)) as [cause|] eqn:Hv; [done|].
    intros [= <-]. split; [by destruct (Secrets st)|]. split; [|done].
    by apply validate_secrets_None.
  - intros Hne Hall. rewrite bool_decide_eq_false_2 by (by destruct (Secrets st)).
    apply validate_secrets_None in Hall.
    by replace (validate_secrets (Secrets st)) with (@None error).
Qed.

End Construction.

(** ** Runs on the secrets files of [AuthScenario] *)

Import AuthScenario.

Example NewFileAuthProvider_exact :
  NewFileAuthProvider "exact.yaml" = inl exact_provider.
Proof. reflexivity. Qed.

Example NewFileAuthProvider_overlap :
  NewFileAuthProvider "overlap.yaml" = inl overlap_provider.
Proof. reflexivity. Qed.

Example NewFileAuthProvider_glob :
  NewFileAuthProvider "glob.yaml" = inl glob_provider.
Proof. reflexivity. Qed.




(** The three outcomes of the constructor on [empty.yaml], [nodomain.yaml]
    and [exact.yaml]. *)
Lemma NewFileAuthProvider_validates_witness :
  NewFileAuthProvider "empty.yaml" = inr ErrNoSecrets /\
  (exists secret cause,
     In secret (Secrets nodomain_file) /\ invalid basic_wellformed secret /\
     spec_Validate basic_wellformed secret = Some cause /\
     NewFileAuthProvider "nodomain.yaml"
     = inr (Wrap cause "invalid secret in file: nodomain.yaml")) /\
  NewFileAuthProvider "exact.yaml" = inl exact_provider.
Proof.
  split; [|split].
  - apply (NewFileAuthProvider_validates strategy (read_file files) basic_wellformed
             basic_strategy "empty.yaml" empty_file); reflexivity.
  - apply (NewFileAuthProvider_validates strategy (read_file files) basic_wellformed
             basic_strategy "nodomain.yaml" nodomain_file); [reflexivity|].
    exists (basic [] [] "admin" "hunter2"). split; [right; left; reflexivity|].
    left. split; reflexivity.
  - apply (NewFileAuthProvider_validates strategy (read_file files) basic_wellformed
             basic_strategy "exact.yaml" exact_file); [reflexivity | discriminate |].
    repeat constructor; intros [[Hd _]|Hw]; discriminate.
Defined.


End AuthProviderFacts.

(* ===================================================================== *)
(** * Facts about the executors                                           *)
(* ===================================================================== *)

Module ProtocolFacts.
Import Go Protocols.

Lemma bind_ret_l {A B : Type} (a : A) (k : A -> M B) ctx :
  (mret a ≫= k) ctx = k a ctx.
Proof.
  unfold mbind, mret, M_bind, M_ret. by destruct (k a ctx) as [[r effs] ctx'].
Qed.

Lemma bind_assoc {A B D : Type} (m : M A) (k : A -> M B) (h : B -> M D) ctx :
  ((m ≫= k) ≫= h) ctx = (m ≫= (fun a => k a ≫= h)) ctx.
Proof.
  unfold mbind, M_bind. destruct (m ctx) as [[[a|p] effs] ctx1]; [|done].
  destruct (k a ctx1) as [[[b|p] effs1] ctx2]; [|done].
  destruct (h b ctx2) as [[r effs2] ctx3]. by rewrite app_assoc.
Qed.

Lemma bind_ext {A B : Type} (m : M A) (k k' : A -> M B) ctx :
  (forall a ctx', k a ctx' = k' a ctx') -> (m ≫= k) ctx = (m ≫= k') ctx.
Proof.
  intros Hk. unfold mbind, M_bind. destruct (m ctx) as [[[a|p] effs] ctx1]; [|done].
  by rewrite Hk.
Qed.

Lemma bind_inl_inv {A B : Type} (m : M A) (k : A -> M B) ctx b effs ctx' :
  (m ≫= k) ctx = (inl b, effs, ctx') ->
  exists a effs1 ctx1 effs2,
    m ctx = (inl a, effs1, ctx1) /\ k a ctx1 = (inl b, effs2, ctx') /\
    effs = effs1 ++ effs2.
Proof.
  unfold mbind, M_bind. destruct (m ctx) as [[[a|p] effs1] ctx1]; [|done].
  destruct (k a ctx1) as [[r effs2] ctx2] eqn:Hk. intros [= -> <- ->].
  by exists a, effs1, ctx1, effs2.
Qed.

(** ** The connects of a computation *)

Lemma dials_app effs1 effs2 : dials (effs1 ++ effs2) = dials effs1 ++ dials effs2.
Proof. unfold dials. by rewrite omap_app. Qed.

Lemma effects_bind {A B : Type} (m : M A) (k : A -> M B) ctx :
  effects_of ((m ≫= k) ctx)
  = effects_of (m ctx)
    ++ match m ctx with
       | (inl a, _, ctx') => effects_of (k a ctx')
       | (inr _, _, _) => []
       end.
Proof.
  unfold mbind, M_bind, effects_of. destruct (m ctx) as [[[a|p] effs] ctx1]; simpl.
  - by destruct (k a ctx1) as [[r effs'] ctx2].
  - by rewrite app_nil_r.
Qed.

Lemma effects_emit_bind {B : Type} (e : effect) (k : unit -> M B) ctx :
  effects_of ((emit e ≫= k) ctx) = e :: effects_of (k tt ctx).
Proof.
  unfold mbind, M_bind, emit, effects_of. by destruct (k tt ctx) as [[r effs] ctx'].
Qed.

Section Dials.
Context {A : Type} (P : string * bool -> Prop).

Lemma dials_in_ret (a : A) : dials_in P (mret a).
Proof. intros ctx. constructor. Qed.

Lemma dials_in_panic msg : dials_in P (panic (A := A) msg).
Proof. intros ctx. constructor. Qed.

Lemma dials_in_bind {B : Type} (m : M B) (k : B -> M A) :
  dials_in P m -> (forall b, dials_in P (k b)) -> dials_in P (m ≫= k).
Proof.
  intros Hm Hk ctx. rewrite effects_bind, dials_app. apply Forall_app. split; [apply Hm|].
  destruct (m ctx) as [[[b|p] effs] ctx1]; [apply Hk|constructor].
Qed.



End Dials.

Lemma dials_in_emit (P : string * bool -> Prop) (e : effect) :
  match e with Dial a t => P (a, t) | _ => True end -> dials_in P (emit e).
Proof.
  intros He ctx. unfold emit, effects_of, dials. simpl.
  destruct e; simpl; try constructor; [done|constructor].
Qed.

Lemma dials_in_GetTemplateCtx (P : string * bool -> Prop) : dials_in P GetTemplateCtx.
Proof. intros ctx. constructor. Qed.

Lemma dials_in_AddTemplateVarsWith (P : string * bool -> Prop) update event :
  dials_in P (AddTemplateVarsWith update event).
Proof. intros ctx. constructor. Qed.

(** Goes through a computation that does not connect. *)
Ltac no_dial :=
  repeat first
    [ apply dials_in_ret
    | apply dials_in_panic
    | apply dials_in_GetTemplateCtx
    | apply dials_in_AddTemplateVarsWith
    | apply dials_in_emit; exact I
    | apply dials_in_bind; [|intros ?]
    | progress case_match ].

End ProtocolFacts.

Module NetworkFacts.
Import Go GoFacts Protocols Network ProtocolFacts.

Section Executor.
Context `{C : Collaborators}.
Variable request : Request.

(** ** Reading *)

Lemma conn_Read_length c n :
  String.length (conn_Read c n).1.1 <= n.
Proof.
  unfold conn_Read. destruct (inbox c) as [|[data err] rest]; simpl; [lia|].
  case_bool_decide; simpl; [done|]. apply str_take_length.
Qed.

Lemma ConnReadNWithTimeout_sized c n ctx :
  (0 < n)%Z ->
  ConnReadNWithTimeout c n ctx
  = (inl (read_result (conn_Read c (Z.to_nat n)).1.1 (conn_Read c (Z.to_nat n)).1.2,
          (conn_Read c (Z.to_nat n)).2),
     [ConnRead n (conn_Read c (Z.to_nat n)).1.1 (conn_Read c (Z.to_nat n)).1.2], ctx).
Proof.
  intros Hn. unfold ConnReadNWithTimeout.
  rewrite (bool_decide_eq_false_2 (n = (-1)%Z)) by lia.
  rewrite (bool_decide_eq_false_2 (n = 0%Z)) by lia.
  rewrite (bool_decide_eq_false_2 (n < 0)%Z) by lia.
  destruct (conn_Read c (Z.to_nat n)) as [[b err] c']. simpl.
  unfold read_result. destruct err as [e|]; [|done].
  by destruct (IsTimeout e && bool_decide (0 < String.length b)).
Qed.

(** C5, as the code has it.  For [Read = k > 0] the read of an input is one
    call of [conn.Read] on a buffer of [k] bytes: it returns, without
    error, the bytes that call delivers, at most [k] and possibly fewer;
    and when that call reports that the deadline has elapsed after it has
    received some bytes, those bytes are returned with a nil error. *)
Theorem ConnReadNWithTimeout_at_most c k ctx :
  (0 < k)%Z ->
  exists b err c',
    conn_Read c (Z.to_nat k) = ((b, err), c') /\
    (Z.of_nat (String.length b) <= k)%Z /\
    ConnReadNWithTimeout c k ctx = (inl (read_result b err, c'), [ConnRead k b err], ctx) /\
    (err = None -> read_result b err = (b, None)) /\
    (forall e, err = Some e -> IsTimeout e = true -> 0 < String.length b ->
       read_result b err = (b, None)).
Proof.
  intros Hk. pose proof (conn_Read_length c (Z.to_nat k)) as Hlen.
  pose proof (ConnReadNWithTimeout_sized c k ctx Hk) as Hrun.
  destruct (conn_Read c (Z.to_nat k)) as [[b err] c']. simpl in *.
  exists b, err, c'. split; [done|]. split; [lia|]. split; [done|]. split.
  - by intros ->.
  - intros e -> He Hb. unfold read_result. rewrite He. simpl.
    by rewrite bool_decide_eq_true_2.
Qed.

(** ** The visited addresses *)





(** The loop of [executeOnTarget] is [executeAddress] on the selected
    entries. *)
Lemma run_addresses_selected variables address input previous entries visited events ctx :
  run_addresses request variables address input previous entries visited events ctx
  = (evs ← run_selected request variables address input previous
             (selected request variables entries visited) events;
     mret (evs, visited_after request variables entries visited)) ctx.
Proof.
  revert visited events ctx. induction entries as [|kv rest IH]; intros visited events ctx.
  - simpl. rewrite bind_ret_l. unfold visited_after. simpl.
    by rewrite (left_id_L ∅ (∪)).
  - simpl. destruct (bool_decide _ && negb _) eqn:Hskip.
    + rewrite IH. unfold visited_after. simpl. by rewrite Hskip.
    + simpl. rewrite bind_assoc. apply bind_ext. intros [evs err] ctx1.
      assert (visited_after request variables (kv :: rest) visited
              = visited_after request variables rest
                  ({[replacer_Replace (Network.address kv) variables]} ∪ visited)) as Hv.
      { unfold visited_after. simpl. rewrite Hskip. simpl. set_solver. }
      destruct err as [e|].
      * rewrite bind_assoc. apply bind_ext. intros [] ctx2. by rewrite IH, Hv.
      * by rewrite IH, Hv.
Qed.

(** ** The connects of the executor *)

Lemma ConnReadNWithTimeout_no_dial P c n : dials_in P (ConnReadNWithTimeout c n).
Proof. unfold ConnReadNWithTimeout. no_dial. Qed.

Lemma input_step_no_dial P address actualAddress st input :
  dials_in P (input_step request address actualAddress st input).
Proof.
  unfold input_step. no_dial; try apply ConnReadNWithTimeout_no_dial; no_dial.
Qed.

Lemma run_inputs_no_dial P address actualAddress inputs st :
  dials_in P (run_inputs request address actualAddress inputs st).
Proof.
  revert st. induction inputs as [|input inputs IH]; intros st; simpl; [no_dial|].
  apply dials_in_bind; [apply input_step_no_dial|]. intros [st'|v]; [apply IH|no_dial].
Qed.

Lemma finish_no_dial P actualAddress address input hostname previous st :
  dials_in P (finish request actualAddress address input hostname previous st).
Proof.
  unfold finish. no_dial; try apply ConnReadNWithTimeout_no_dial; no_dial.
Qed.








(** ** The connects of a whole execution *)

(** [executeOnTarget] on a target whose address resolves. *)
Lemma executeOnTarget_resolved input visited metadata previous ctx address :
  (if SelfContained request then inl "" else getAddress input) = inl address ->
  executeOnTarget request input visited metadata previous ctx
  = match run_addresses request (target_variables request address ctx) address input
            previous (addresses request) visited [] ctx with
    | (inl (events, visited'), effs, ctx') => (inl ((events, None), visited'), effs, ctx')
    | (inr p, effs, ctx') => (inr p, effs, ctx')
    end.
Proof.
  intros Hres. unfold executeOnTarget. rewrite Hres.
  unfold mbind, M_bind, GetTemplateCtx, mret, M_ret.
  destruct (run_addresses _ _ _ _ _ _ _ _ _) as [[[[events visited']|p] effs] ctx'];
    simpl; [|done].
  by rewrite app_nil_r.
Qed.





Lemma no_dial_nil {A : Type} (m : M A) ctx :
  dials_in (fun _ => False) m -> dials (effects_of (m ctx)) = [].
Proof.
  intros Hm. specialize (Hm ctx). destruct (dials (effects_of (m ctx))); [done|].
  by apply Forall_cons in Hm as [[] _].
Qed.




(** ** Captures *)

Lemma after_read_capture st input buffer c :
  Name input <> "" ->
  interimValues (after_read request st input buffer c) !! Name input
    = Some (VString buffer) /\
  inputEvents (after_read request st input buffer c) !! Name input
    = Some (VString buffer).
Proof.
  intros Hname. unfold after_read. simpl.
  destruct (String.eqb_spec (Name input) ""); [done|]. simpl.
  by rewrite !lookup_insert_eq.
Qed.

Lemma after_read_other st input buffer c name :
  Name input <> name ->
  interimValues (after_read request st input buffer c) !! name = interimValues st !! name /\
  inputEvents (after_read request st input buffer c) !! name = inputEvents st !! name.
Proof.
  intros Hname. unfold after_read. simpl.
  destruct (negb _); simpl; [|done]. by rewrite !lookup_insert_ne.
Qed.

Ltac run_monad :=
  unfold mbind, M_bind, mret, M_ret, emit, panic; simpl.

(** A step that goes on has written the input; when the input reads, the
    state is [after_read] of the bytes [conn.Read] has delivered. *)
Lemma input_step_Continue address actualAddress st input ctx st' effs ctx' :
  input_step request address actualAddress st input ctx = (inl (Continue st'), effs, ctx') ->
  exists st1,
    interimValues st1 = interimValues st /\ inputEvents st1 = inputEvents st /\
    ((0 < Read input)%Z ->
       exists buffer err c,
         st' = after_read request st1 input buffer c /\
         last effs = Some (ConnRead (Read input) buffer err)) /\
    (~ (0 < Read input)%Z -> st' = st1).
Proof.
  unfold input_step.
  destruct (if Interactsh request then _ else _) as [data urls].
  destruct (EvaluateByte data (interimValues st)) as [finalData|err]; [|by run_monad].
  destruct (ContainsUnresolvedVariables finalData); [by run_monad|].
  destruct (match Type_ input with hexType => _ | plainType => _ end) as [decoded|err];
    [|by run_monad].
  destruct (conn_Write (connection st)) as [[werr|] c]; [by run_monad|].
  match goal with |- context [after_read request ?s _ _ _] => set (st1 := s) end.
  intros Hrun. exists st1. split; [done|]. split; [done|].
  case_bool_decide as Hread.
  - split; [|done]. intros _. revert Hrun.
    unfold mbind at 1, M_bind at 1, emit. simpl.
    unfold mbind, M_bind. rewrite (ConnReadNWithTimeout_sized c (Read input) ctx Hread).
    destruct (conn_Read c (Z.to_nat (Read input))) as [[b err] c']. simpl.
    unfold read_result. destruct err as [e|].
    + destruct (IsTimeout e && bool_decide (0 < String.length b)); simpl; [|done].
      intros [= <- <- <-]. by exists b, (Some e), c'.
    + simpl. intros [= <- <- <-]. by exists b, None, c'.
  - split; [done|]. intros _. revert Hrun. run_monad. by intros [= <- <- <-].
Qed.

Lemma input_step_capture address actualAddress st input ctx st' effs ctx' :
  input_step request address actualAddress st input ctx = (inl (Continue st'), effs, ctx') ->
  captures input = true ->
  exists buffer err,
    last effs = Some (ConnRead (Read input) buffer err) /\
    interimValues st' !! Name input = Some (VString buffer) /\
    inputEvents st' !! Name input = Some (VString buffer).
Proof.
  intros Hstep [Hread Hname]%andb_true_iff.
  apply bool_decide_eq_true_1 in Hread.
  assert (Name input <> "") as Hne.
  { intros Heq. rewrite Heq in Hname. done. }
  destruct (input_step_Continue _ _ _ _ _ _ _ _ Hstep) as (st1 & _ & _ & Hr & _).
  destruct (Hr Hread) as (buffer & err & c & -> & Hlast).
  exists buffer, err. split; [done|]. by apply after_read_capture.
Qed.

(** An input that does not capture under [name] leaves the binding of
    [name] as it is. *)
Lemma input_step_other address actualAddress st input ctx st' effs ctx' name :
  input_step request address actualAddress st input ctx = (inl (Continue st'), effs, ctx') ->
  captures input = false \/ Name input <> name ->
  interimValues st' !! name = interimValues st !! name /\
  inputEvents st' !! name = inputEvents st !! name.
Proof.
  intros Hstep Hother.
  destruct (input_step_Continue _ _ _ _ _ _ _ _ Hstep) as (st1 & Hi & He & Hr & Hn).
  destruct (decide (0 < Read input)%Z) as [Hread|Hread].
  - destruct (Hr Hread) as (buffer & err & c & -> & _).
    destruct Hother as [Hcap|Hname].
    + unfold captures in Hcap. rewrite bool_decide_eq_true_2 in Hcap by done.
      simpl in Hcap. unfold after_read. simpl. rewrite Hcap. by rewrite Hi, He.
    + destruct (after_read_other st1 input buffer c name Hname) as [-> ->].
      by rewrite Hi, He.
  - rewrite (Hn Hread). by rewrite Hi, He.
Qed.

Lemma run_inputs_app address actualAddress inputs1 inputs2 st ctx :
  run_inputs request address actualAddress (inputs1 ++ inputs2) st ctx
  = (r ← run_inputs request address actualAddress inputs1 st;
     match r with
     | Continue st' => run_inputs request address actualAddress inputs2 st'
     | Return v => mret (Return v)
     end) ctx.
Proof.
  revert st ctx. induction inputs1 as [|input inputs1 IH]; intros st ctx; simpl.
  - by rewrite bind_ret_l.
  - rewrite bind_assoc. apply bind_ext. intros [st'|v] ctx1; [apply IH|].
    by rewrite bind_ret_l.
Qed.

Lemma run_inputs_other address actualAddress inputs st ctx st' effs ctx' name :
  run_inputs request address actualAddress inputs st ctx = (inl (Continue st'), effs, ctx') ->
  Forall (fun input => captures input = false \/ Name input <> name) inputs ->
  interimValues st' !! name = interimValues st !! name /\
  inputEvents st' !! name = inputEvents st !! name.
Proof.
  revert st ctx effs. induction inputs as [|input inputs IH]; intros st ctx effs; simpl.
  - by intros [= <- _ _] _.
  - intros Hrun [Hinput Hrest]%Forall_cons.
    apply bind_inl_inv in Hrun as (r & e1 & c1 & e2 & Hstep & Hnext & _).
    destruct r as [st1|v]; [|done].
    destruct (IH _ _ _ Hnext Hrest) as [-> ->].
    by apply (input_step_other _ _ _ _ _ _ _ _ _ Hstep).
Qed.

(** A step, and so the loop, returns from the function only with an error
    and without event. *)
Lemma input_step_Return address actualAddress st input ctx v effs ctx' :
  input_step request address actualAddress st input ctx = (inl (Return v), effs, ctx') ->
  exists err, v = (None, Some err).
Proof.
  unfold input_step.
  destruct (if Interactsh request then _ else _) as [data urls].
  destruct (EvaluateByte data (interimValues st)) as [finalData|err];
    [|run_monad; intros [= <- _ _]; by eexists].
  destruct (ContainsUnresolvedVariables finalData);
    [run_monad; intros [= <- _ _]; by eexists|].
  destruct (match Type_ input with hexType => _ | plainType => _ end) as [decoded|err];
    [|run_monad; intros [= <- _ _]; by eexists].
  destruct (conn_Write (connection st)) as [[werr|] c];
    [run_monad; intros [= <- _ _]; by eexists|].
  case_bool_decide as Hread; [|by run_monad].
  unfold mbind at 1, M_bind at 1, emit. simpl.
  unfold mbind, M_bind. rewrite (ConnReadNWithTimeout_sized c (Read input) ctx Hread).
  destruct (conn_Read c (Z.to_nat (Read input))) as [[b err] c']. simpl.
  unfold read_result. destruct err as [e|]; [|done].
  destruct (IsTimeout e && bool_decide (0 < String.length b)); simpl; [done|].
  intros [= <- _ _]. by eexists.
Qed.

Lemma run_inputs_Return address actualAddress inputs st ctx v effs ctx' :
  run_inputs request address actualAddress inputs st ctx = (inl (Return v), effs, ctx') ->
  exists err, v = (None, Some err).
Proof.
  revert st ctx effs. induction inputs as [|input inputs IH]; intros st ctx effs; simpl;
    [done|].
  intros Hrun. apply bind_inl_inv in Hrun as (r & e1 & c1 & e2 & Hstep & Hnext & _).
  destruct r as [st1|v1]; [by eapply IH|].
  revert Hnext. run_monad. intros [= <- _ _]. by eapply input_step_Return.
Qed.

Lemma assemble_capture outputEvent ctx hostname previous st name v :
  inputEvents st !! name = Some v -> placeholders_keep request name ->
  assemble request outputEvent ctx hostname previous st !! name = Some v.
Proof.
  intros Hcap Hkeep. unfold assemble, copy_into.
  destruct (Interactsh request) eqn:Hi.
  - rewrite (Hkeep Hi). by apply lookup_union_Some_l.
  - by apply lookup_union_Some_l.
Qed.

(** The event [finish] returns is the event it assembles, under the
    payloads. *)
Lemma finish_Some actualAddress address input hostname previous st ctx ev err effs ctx' :
  finish request actualAddress address input hostname previous st ctx
    = (inl (Some ev, err), effs, ctx') ->
  exists outputEvent ctx1,
    ev = CreateEvent (MergeMaps [payloads st;
                                 assemble request outputEvent ctx1 hostname previous st]).
Proof.
  unfold finish. run_monad.
  destruct (ConnReadNWithTimeout _ _ ctx) as [[[[[final rerr] c]|p] e1] c1]; [|done].
  destruct rerr as [e|]; simpl.
  - case_bool_decide; simpl; [|by destruct (Interactsh request)].
    intros [= <- _ _ _]. by eexists _, _.
  - case_bool_decide; simpl; [|by destruct (Interactsh request)].
    intros [= <- _ _ _]. by eexists _, _.
Qed.

(** The event [finish] returns binds every capture. *)
Lemma finish_event actualAddress address input hostname previous st ctx ev err effs ctx'
    name v :
  finish request actualAddress address input hostname previous st ctx
    = (inl (Some ev, err), effs, ctx') ->
  inputEvents st !! name = Some v -> placeholders_keep request name ->
  InternalEvent ev !! name = Some v.
Proof.
  intros (outputEvent & ctx1 & ->)%finish_Some Hcap Hkeep. simpl.
  unfold MergeMaps. simpl. apply lookup_union_Some_l. by apply assemble_capture.
Qed.

(** A request that returns an event has run the loop to its end and has
    got the event from [finish]. *)
Lemma executeRequestWithPayloads_Some variables actualAddress address target
    shouldUseTLS payloads0 previous ctx c ev err effs ctx' :
  Dialer actualAddress shouldUseTLS = inl c ->
  executeRequestWithPayloads request variables actualAddress address target shouldUseTLS
    payloads0 previous ctx = (inl (Some ev, err), effs, ctx') ->
  exists st effs1 ctx1 hostname effs2 ctx2,
    run_inputs request address actualAddress (Inputs request)
      (initial_state c variables payloads0) ctx = (inl (Continue st), effs1, ctx1) /\
    finish request actualAddress address target hostname previous st ctx1
      = (inl (Some ev, err), effs2, ctx2).
Proof.
  intros Hdial. unfold executeRequestWithPayloads. rewrite Hdial.
  unfold mbind at 1, M_bind at 1, emit, defer. simpl.
  destruct (run_inputs request address actualAddress (Inputs request)
              (initial_state c variables payloads0) ctx) as [[[r|p] effs1] ctx1] eqn:Hloop.
  - unfold mbind, M_bind. rewrite Hloop. destruct r as [st|v].
    + destruct (finish _ _ _ _ _ _ _ _) as [[r2 effs2] ctx2] eqn:Hfin. simpl.
      intros [= -> _ _]. by eexists st, effs1, ctx1, _, effs2, ctx2.
    + apply run_inputs_Return in Hloop as [e ->]. by run_monad.
  - unfold mbind, M_bind. rewrite Hloop. by simpl.
Qed.

Lemma run_inputs_split address actualAddress pre input post st0 ctx s1 e1 ctx1 s2 e2 ctx2
    st effs ctx' :
  run_inputs request address actualAddress pre st0 ctx = (inl (Continue s1), e1, ctx1) ->
  input_step request address actualAddress s1 input ctx1 = (inl (Continue s2), e2, ctx2) ->
  run_inputs request address actualAddress (pre ++ input :: post) st0 ctx
    = (inl (Continue st), effs, ctx') ->
  exists e3,
    run_inputs request address actualAddress post s2 ctx2 = (inl (Continue st), e3, ctx').
Proof.
  intros Hpre Hstep. rewrite run_inputs_app. unfold mbind at 1, M_bind at 1.
  rewrite Hpre. simpl. unfold mbind at 1, M_bind at 1. rewrite Hstep.
  destruct (run_inputs request address actualAddress post s2 ctx2) as [[r e3] c3].
  intros [= -> _ ->]. by exists e3.
Qed.

(** C7, as the code has it.  Let the loop reach an input that reads and has
    a capture name, and let the step of that input read the bytes
    [buffer].  Then [buffer] is bound under the name in the variable map
    right after the step; it is still bound there when a subsequent input is
    evaluated, provided no input in between has stored a read under the
    same name; and it is the value of the name in the event the request
    returns, provided no subsequent input stores a read under the same
    name (and the OAST collaborator, if any, leaves the key alone).  A
    later capture under the same name replaces the earlier one. *)
Theorem capture_round_trip variables actualAddress address target shouldUseTLS payloads0
    previous ctx c pre input post s1 e1 ctx1 s2 e2 ctx2 :
  Inputs request = pre ++ input :: post ->
  Dialer actualAddress shouldUseTLS = inl c ->
  run_inputs request address actualAddress pre (initial_state c variables payloads0) ctx
    = (inl (Continue s1), e1, ctx1) ->
  input_step request address actualAddress s1 input ctx1 = (inl (Continue s2), e2, ctx2) ->
  captures input = true ->
  exists buffer err,
    last e2 = Some (ConnRead (Read input) buffer err) /\
    interimValues s2 !! Name input = Some (VString buffer) /\
    (forall between rest s3 e3 ctx3,
       post = between ++ rest -> no_capture (Name input) between ->
       run_inputs request address actualAddress between s2 ctx2
         = (inl (Continue s3), e3, ctx3) ->
       interimValues s3 !! Name input = Some (VString buffer)) /\
    (forall ev err' effs ctx',
       no_capture (Name input) post -> placeholders_keep request (Name input) ->
       executeRequestWithPayloads request variables actualAddress address target
         shouldUseTLS payloads0 previous ctx = (inl (Some ev, err'), effs, ctx') ->
       InternalEvent ev !! Name input = Some (VString buffer)).
Proof.
  intros Hinputs Hdial Hpre Hstep Hcap.
  destruct (input_step_capture _ _ _ _ _ _ _ _ Hstep Hcap) as (buffer & err & Hlast & Hi & He).
  exists buffer, err. split; [done|]. split; [done|]. split.
  - intros between rest s3 e3 ctx3 _ Hno Hrun.
    destruct (run_inputs_other _ _ _ _ _ _ _ _ _ Hrun Hno) as [-> _]. done.
  - intros ev err' effs ctx' Hno Hkeep Hrun.
    destruct (executeRequestWithPayloads_Some _ _ _ _ _ _ _ _ _ _ _ _ _ Hdial Hrun)
      as (st & effs1 & ctx1' & hostname & effs2 & ctx2' & Hloop & Hfin).
    rewrite Hinputs in Hloop.
    destruct (run_inputs_split _ _ _ _ _ _ _ _ _ _ _ _ _ _ _ _ Hpre Hstep Hloop)
      as (e3 & Hpost).
    destruct (run_inputs_other _ _ _ _ _ _ _ _ _ Hpost Hno) as [_ Hev].
    apply (finish_event _ _ _ _ _ _ _ _ _ _ _ _ _ Hfin); [|done].
    by rewrite Hev.
Qed.

(** ** The port scan *)

Lemma getOpenPorts_single target ctx :
  length (ports request) = 1 ->
  getOpenPorts request target ctx = (inl (ports request, None), [], ctx).
Proof. intros Hone. unfold getOpenPorts. by rewrite bool_decide_eq_true_2. Qed.

Lemma probe_ports_total target candidates errs openPorts ctx :
  exists errs' open' effs,
    probe_ports request target candidates errs openPorts ctx
      = (inl (errs', open'), effs, ctx) /\
    length errs' + length open' = length errs + length openPorts + length candidates.
Proof.
  revert errs openPorts. induction candidates as [|port rest IH]; intros errs openPorts.
  - exists errs, openPorts, []. split; [done|]. simpl. lia.
  - simpl. destruct (UseNetworkPort target port (ExcludePorts request)) as [cloned|err].
    + destruct (getAddress cloned) as [addr|err].
      * unfold mbind at 1, M_bind at 1, emit.
        destruct (protocolstate_Dial addr) as [c|err].
        -- unfold mbind at 1, M_bind at 1.
           destruct (IH errs (openPorts ++ [port])) as (errs' & open' & effs & -> & Hlen).
           eexists _, _, _. split; [done|]. rewrite length_app in Hlen. simpl in *. lia.
        -- destruct (IH (errs ++ [err]) openPorts) as (errs' & open' & effs & -> & Hlen).
           eexists _, _, _. split; [done|]. rewrite length_app in Hlen. simpl in *. lia.
      * destruct (IH (errs ++ [err]) openPorts) as (errs' & open' & effs & -> & Hlen).
        eexists _, _, _. split; [done|]. rewrite length_app in Hlen. simpl in *. lia.
    + destruct (IH (errs ++ [err]) openPorts) as (errs' & open' & effs & -> & Hlen).
      eexists _, _, _. split; [done|]. rewrite length_app in Hlen. simpl in *. lia.
Qed.

(** Whenever [getOpenPorts] returns a port it returns a nil error: the
    errors of the ports that did not accept are not handed to the
    caller. *)
Lemma getOpenPorts_drops_errors target ctx open err effs ctx' :
  getOpenPorts request target ctx = (inl (open, err), effs, ctx') ->
  open <> [] -> err = None.
Proof.
  unfold getOpenPorts. case_bool_decide; [by intros [= _ <- _ _]|].
  destruct (probe_ports_total target (ports request) [] [] ctx)
    as (errs' & open' & effs' & Hprobe & _).
  unfold mbind, M_bind. rewrite Hprobe. case_bool_decide; simpl.
  - by intros [= <- _ _ _].
  - by intros [= _ <- _ _].
Qed.

(** When no port of several accepts, [getOpenPorts] fails with the
    aggregate of the errors, one for each port. *)
Lemma getOpenPorts_none_open target ctx err effs ctx' :
  1 < length (ports request) ->
  getOpenPorts request target ctx = (inl ([], err), effs, ctx') ->
  exists errs, err = Some (Multi errs) /\ length errs = length (ports request).
Proof.
  intros Hmany. unfold getOpenPorts. rewrite bool_decide_eq_false_2 by lia.
  destruct (probe_ports_total target (ports request) [] [] ctx)
    as (errs' & open' & effs' & Hprobe & Hlen).
  unfold mbind, M_bind. rewrite Hprobe. case_bool_decide as Hopen; simpl.
  - intros [= <- _ _]. exists errs'. simpl in Hlen. rewrite Hopen in Hlen.
    split; [|lia]. destruct errs' as [|e1 [|e2 errs']]; simpl in *; try lia. done.
  - intros [= -> _ _ _]. done.
Qed.

(** ** What is written *)

Lemma wire_app effs1 effs2 : wire (effs1 ++ effs2) = wire effs1 ++ wire effs2.
Proof. unfold wire. by rewrite omap_app. Qed.

(** A step that goes on has written once. *)
Lemma input_step_wire address actualAddress st input ctx st' effs ctx' :
  input_step request address actualAddress st input ctx = (inl (Continue st'), effs, ctx') ->
  length (wire effs) = 1.
Proof.
  unfold input_step.
  destruct (if Interactsh request then _ else _) as [data urls].
  destruct (EvaluateByte data (interimValues st)) as [finalData|err]; [|by run_monad].
  destruct (ContainsUnresolvedVariables finalData); [by run_monad|].
  destruct (match Type_ input with hexType => _ | plainType => _ end) as [decoded|err];
    [|by run_monad].
  destruct (conn_Write (connection st)) as [[werr|] c]; [by run_monad|].
  case_bool_decide as Hread.
  - unfold mbind at 1, M_bind at 1, emit. simpl.
    unfold mbind, M_bind. rewrite (ConnReadNWithTimeout_sized c (Read input) ctx Hread).
    destruct (conn_Read c (Z.to_nat (Read input))) as [[b err] c']. simpl.
    unfold read_result. destruct err as [e|].
    + destruct (IsTimeout e && bool_decide (0 < String.length b)); simpl; [|done].
      by intros [= _ <- _].
    + simpl. by intros [= _ <- _].
  - run_monad. by intros [= _ <- _].
Qed.

(** A loop that runs to the end of the inputs has written once for each of
    them. *)
Lemma run_inputs_wire address actualAddress inputs st ctx st' effs ctx' :
  run_inputs request address actualAddress inputs st ctx = (inl (Continue st'), effs, ctx') ->
  length (wire effs) = length inputs.
Proof.
  revert st ctx effs. induction inputs as [|input inputs IH]; intros st ctx effs; simpl.
  - by intros [= _ <- _].
  - intros Hrun. apply bind_inl_inv in Hrun as (r & e1 & c1 & e2 & Hstep & Hnext & ->).
    destruct r as [st1|v]; [|done].
    rewrite wire_app, length_app, (input_step_wire _ _ _ _ _ _ _ _ Hstep), (IH _ _ _ Hnext).
    done.
Qed.

(** ** Unresolved placeholders in an input *)

(** When the evaluated data of an input still has a placeholder, the step
    logs a warning and returns the error; the data of this input is not
    written to the connection. *)
Lemma input_step_unresolved address actualAddress st input ctx finalData err :
  EvaluateByte (sent_data request input) (interimValues st) = inl finalData ->
  ContainsUnresolvedVariables finalData = Some err ->
  input_step request address actualAddress st input ctx
  = (inl (Return (None, Some err)),
     [Log Warning "[%s] Could not make network request for %s: %v"
        [TemplateID request; actualAddress] [err]], ctx).
Proof.
  unfold input_step, sent_data. intros Hev Hun.
  destruct (Interactsh request).
  - destruct (interactsh_Replace (Data input) []) as [data urls]. simpl in Hev.
    by rewrite Hev, Hun.
  - by rewrite Hev, Hun.
Qed.

(** The request then ends: its trace is the connect, the trace of the
    inputs before the offending one, the warning and the close. *)
Lemma executeRequestWithPayloads_unresolved variables actualAddress address target
    shouldUseTLS payloads0 previous ctx c pre input post s1 e1 ctx1 finalData err :
  Inputs request = pre ++ input :: post ->
  Dialer actualAddress shouldUseTLS = inl c ->
  run_inputs request address actualAddress pre (initial_state c variables payloads0) ctx
    = (inl (Continue s1), e1, ctx1) ->
  EvaluateByte (sent_data request input) (interimValues s1) = inl finalData ->
  ContainsUnresolvedVariables finalData = Some err ->
  executeRequestWithPayloads request variables actualAddress address target shouldUseTLS
    payloads0 previous ctx
  = (inl (None, Some err),
     Dial actualAddress shouldUseTLS
     :: e1 ++ [Log Warning "[%s] Could not make network request for %s: %v"
                 [TemplateID request; actualAddress] [err]; ConnClose], ctx1).
Proof.
  intros Hinputs Hdial Hpre Hev Hun. unfold executeRequestWithPayloads.
  rewrite Hdial, Hinputs. unfold mbind at 1, M_bind at 1, emit, defer. simpl.
  unfold mbind at 1, M_bind at 1. rewrite run_inputs_app.
  unfold mbind at 1, M_bind at 1. rewrite Hpre. simpl.
  unfold mbind at 1, M_bind at 1.
  rewrite (input_step_unresolved _ _ _ _ _ _ _ Hev Hun). simpl.
  by rewrite app_nil_r, <- app_assoc.
Qed.

End Executor.
(** ** Runs of the scenarios *)

Import Scenario.

(** C5 as the documentation states it fails: the peer has sent three bytes
    when an input with [Read = 10] reads; the read returns the three bytes
    and no error. *)
Lemma reads_exactly_refuted :
  ConnReadNWithTimeout (C := network []) (peer ["abc"]) 10 None
    = (inl (("abc", None), peer []), [ConnRead 10 "abc" None], None) /\
  ~ reads_exactly (C := network []).
Proof.
  split; [reflexivity|]. intros Hexact.
  specialize (Hexact (peer ["abc"]) 10%Z None "abc" (peer []) _ None eq_refl eq_refl).
  discriminate.
Qed.

(** A read of up to ten bytes from a peer that has sent three, and from one
    that has sent two when the deadline elapses. *)
Lemma ConnReadNWithTimeout_at_most_witness :
  ConnReadNWithTimeout (C := network []) (peer ["abc"]) 10 None
    = (inl (("abc", None), peer []), [ConnRead 10 "abc" None], None) /\
  ConnReadNWithTimeout (C := network []) slow_peer 10 None
    = (inl (("ab", None), peer []),
       [ConnRead 10 "ab" (Some (Timeout "i/o timeout"))], None).
Proof.
  split.
  - destruct (ConnReadNWithTimeout_at_most (C := network []) (peer ["abc"]) 10 None
                eq_refl) as (b & err & c' & Hread & _ & Hrun & _).
    vm_compute in Hread. injection Hread as <- <- <-. exact Hrun.
  - destruct (ConnReadNWithTimeout_at_most (C := network []) slow_peer 10 None
                eq_refl) as (b & err & c' & Hread & _ & Hrun & _).
    vm_compute in Hread. injection Hread as <- <- <-. exact Hrun.
Defined.


(** C7 as the documentation states it fails: both inputs of the request
    capture under [reply]; the first reads [220], the second [221], and the
    event binds [reply] to [221]. *)
Lemma capture_round_trip_refuted :
  let run :=
    executeRequestWithPayloads (C := network mail_network) recapture_request ∅
      "mail.example:25" "mail.example:25" "mail.example" false ∅ ∅ None in
  exists ev,
    value_of run = inl (Some ev, None) /\
    In (ConnRead 3 "220" None) (effects_of run) /\
    InternalEvent ev !! "reply" = Some (VString "221") /\
    InternalEvent ev !! "reply" <> Some (VString "220").
Proof.
  eexists. split; [vm_compute; reflexivity|].
  split; [vm_compute; auto|].
  split; [vm_compute; reflexivity|]. vm_compute. discriminate.
Qed.

(** The first input of the request reads the greeting [220] of the server
    under the name [reply]; the second input is sent with the greeting in
    it, and the event binds [reply] to the greeting. *)
Lemma capture_round_trip_witness :
  let run :=
    executeRequestWithPayloads (C := network mail_network) echo_request ∅
      "mail.example:25" "mail.example:25" "mail.example" false ∅ ∅ None in
  exists ev,
    value_of run = inl (Some ev, None) /\
    wire (effects_of run) = ["HELO"; "ECHO 220"] /\
    InternalEvent ev !! "reply" = Some (VString "220").
Proof.
  intros run.
  pose (c := peer ["220"; "221"; "bye"]).
  pose (s2 := after_read (C := network mail_network) echo_request
                {| connection := peer ["220"; "221"; "bye"];
                   interimValues := ∅; inputEvents := ∅; payloads := ∅;
                   reqBuilder := "HELO"; responseBuilder := "";
                   interactshURLs := [] |}
                (plain "HELO" 3 "reply") "220" (peer ["221"; "bye"])).
  pose (e2 := [ConnWrite "HELO"; ConnRead 3 "220" None]).
  assert (input_step (C := network mail_network) echo_request "mail.example:25"
            "mail.example:25" (initial_state c ∅ ∅) (plain "HELO" 3 "reply") None
          = (inl (Continue s2), e2, None)) as Hstep by (vm_compute; reflexivity).
  destruct (capture_round_trip (C := network mail_network) echo_request ∅
              "mail.example:25" "mail.example:25" "mail.example" false ∅ ∅ None
              c [] (plain "HELO" 3 "reply") [plain "ECHO {{reply}}" 0 ""]
              (initial_state c ∅ ∅) [] None s2 e2 None
              eq_refl eq_refl eq_refl Hstep eq_refl)
    as (buffer & rerr & Hlast & _ & _ & Hevent).
  injection Hlast as <- <-.
  assert (exists ev effs, run = (inl (Some ev, None), effs, None)) as (ev & effs & Hrun)
    by (eexists _, _; vm_compute; reflexivity).
  exists ev. split; [by rewrite Hrun|]. split; [vm_compute; reflexivity|].
  apply (Hevent ev None effs None).
  - constructor; [left; reflexivity | constructor].
  - intros Huses. discriminate Huses.
  - exact Hrun.
Defined.

(** C4 on the scenario "port scanning".  Of the ports 80, 8080 and 9999
    only 80 accepts: the three are probed, [getOpenPorts] returns port 80
    and a nil error, and the execution goes on with port 80 alone, one
    request and one event.  The errors of ports 8080 and 9999 are dropped
    with the nil error: the execution logs that it has sent the request
    and nothing about the port scan. *)
Theorem port_scan_errors_not_logged :
  let scan := getOpenPorts (C := network scan_network) scan_request "scanme.example" None in
  let run :=
    ExecuteWithResults (C := network scan_network) scan_request "scanme.example" ∅ ∅ None in
  scan = (inl (["80"], None),
          [PortProbe "scanme.example:80"; ConnClose;
           PortProbe "scanme.example:8080"; PortProbe "scanme.example:9999"], None) /\
  probes (effects_of run)
    = ["scanme.example:80"; "scanme.example:8080"; "scanme.example:9999"] /\
  dials (effects_of run) = [("scanme.example:80", false)] /\
  logs (effects_of run)
    = [Log Verbose "Sent TCP request to %s" ["scanme.example:80"] []] /\
  (exists ev, value_of run = inl [{| Event := Some ev; Error := None |}]).
Proof.
  intros scan run. split; [reflexivity|].
  split; [vm_compute; reflexivity|]. split; [vm_compute; reflexivity|].
  split; [vm_compute; reflexivity|]. eexists. vm_compute. reflexivity.
Qed.

End NetworkFacts.

Module DNSFacts.
Import Go Protocols DNS ProtocolFacts.

Section Executor.
Context `{C : Collaborators}.
Variable request : Request.

(** When the compiled request still has a placeholder, [execute] logs a
    warning and returns neither an event nor an error; nothing is put on
    the wire. *)
Lemma execute_unresolved domain metadata previous values ctx compiledRequest varErr :
  Make domain values = inl compiledRequest ->
  ContainsUnresolvedVariables [Msg_String compiledRequest] = Some varErr ->
  exists subject err,
    execute request domain metadata previous values ctx
    = (inl (None, None),
       [Log Warning "[%s] Could not make dns request for %s: %v"
          [TemplateID request; subject] [err]], ctx).
Proof.
  intros Hmake Hreq. unfold execute. rewrite Hmake.
  destruct (ContainsUnresolvedVariables (Resolvers request)).
  - destruct (getDnsClient metadata) as [client|err]; [|by eexists _, _].
    rewrite Hreq. by eexists _, _.
  - rewrite Hreq. by eexists _, _.
Qed.

End Executor.

Import Scenario.

(** Scenario "unresolved variable abort" for a DNS template.  The question
    [{{missing}}.{{FQDN}}] is compiled with no variable [missing]:
    [execute] puts nothing on the wire and logs a warning, and it returns a
    nil error with the nil event. *)
Lemma dns_unresolved_returns_nil :
  let run :=
    execute (C := dns "{{missing}}.{{FQDN}}" []) dns_request "example.com." ∅ ∅ ∅ None in
  value_of run = inl (None, None) /\
  wire (effects_of run) = [] /\
  effects_of run
    = [Log Warning "[%s] Could not make dns request for %s: %v"
         ["scenario"; "{{missing}}.example.com"]
         [New "unresolved variables found: missing"]].
Proof. intros run. repeat split; vm_compute; reflexivity. Qed.

End DNSFacts.

Module BuilderFacts.
Import Go Protocols ProtocolFacts.

Section Builders.
Context `{CD : DNS.Collaborators} `{CN : Network.Collaborators}.

(** C1, as the code has it.  A text that still has an unresolved
    placeholder is not put on the wire.  The DNS builder, whose compiled
    request has the placeholder, sends no query and returns no event.  The
    network builder evaluates and writes its inputs one after the other:
    when the evaluated data of an input has the placeholder, the inputs
    before it have been written, one write each, this input and the later
    ones are not written, and the request returns the error to its
    caller. *)
Theorem unresolved_text_not_sent :
  (forall (request : DNS.Request) domain metadata previous values ctx compiledRequest
          varErr,
     DNS.Make domain values = inl compiledRequest ->
     DNS.ContainsUnresolvedVariables [DNS.Msg_String compiledRequest] = Some varErr ->
     let run := DNS.execute request domain metadata previous values ctx in
     wire (effects_of run) = [] /\ exists err, value_of run = inl (None, err)) /\
  (forall (request : Network.Request) variables actualAddress address target shouldUseTLS
          payloads0 previous ctx c pre input post s1 e1 ctx1 finalData err,
     Network.Inputs request = pre ++ input :: post ->
     Network.Dialer actualAddress shouldUseTLS = inl c ->
     Network.run_inputs request address actualAddress pre
       (Network.initial_state c variables payloads0) ctx
       = (inl (Network.Continue s1), e1, ctx1) ->
     Network.EvaluateByte (Network.sent_data request input) (Network.interimValues s1)
       = inl finalData ->
     Network.ContainsUnresolvedVariables finalData = Some err ->
     let run :=
       Network.executeRequestWithPayloads request variables actualAddress address target
         shouldUseTLS payloads0 previous ctx in
     value_of run = inl (None, Some err) /\
     wire (effects_of run) = wire e1 /\
     length (wire (effects_of run)) = length pre).
Proof.
  split.
  - intros request domain metadata previous values ctx compiledRequest varErr
      Hmake Hreq run.
    destruct (DNSFacts.execute_unresolved request domain metadata previous values ctx
                compiledRequest varErr Hmake Hreq) as (subject & err & Hrun).
    unfold run. rewrite Hrun. split; [done|]. by exists None.
  - intros request variables actualAddress address target shouldUseTLS payloads0 previous
      ctx c pre input post s1 e1 ctx1 finalData err Hinputs Hdial Hpre Hev Hun run.
    unfold run.
    rewrite (NetworkFacts.executeRequestWithPayloads_unresolved request variables
               actualAddress address target shouldUseTLS payloads0 previous ctx c pre
               input post s1 e1 ctx1 finalData err Hinputs Hdial Hpre Hev Hun).
    unfold value_of, effects_of. simpl. split; [done|].
    assert (wire (e1 ++ [Log Warning "[%s] Could not make network request for %s: %v"
                           [Network.TemplateID request; actualAddress] [err]; ConnClose])
            = wire e1) as ->.
    { rewrite NetworkFacts.wire_app. simpl. by rewrite app_nil_r. }
    split; [done|]. by apply (NetworkFacts.run_inputs_wire _ _ _ _ _ _ _ _ _ Hpre).
Qed.

End Builders.

Import Scenario.

(** C1 as the documentation states it fails.  The second input of the
    conversation has the unbound placeholder [{{missing}}]: the request is
    aborted with an error, but the first input, [HELO], is on the wire.
    And a DNS question with the same placeholder is aborted with a nil
    error. *)
Lemma unresolved_abort_refuted :
  let run :=
    Network.executeRequestWithPayloads (C := network mail_network) unbound_request ∅
      "mail.example:25" "mail.example:25" "mail.example" false ∅ ∅ None in
  let query :=
    DNS.execute (C := dns "{{missing}}.{{FQDN}}" []) dns_request "example.com." ∅ ∅ ∅ None in
  value_of run = inl (None, Some (New "unresolved variables found: missing")) /\
  wire (effects_of run) = ["HELO"] /\
  wire (effects_of run) <> [] /\
  value_of query = inl (None, None).
Proof.
  intros run query. split; [vm_compute; reflexivity|].
  split; [vm_compute; reflexivity|]. split; [vm_compute; discriminate|].
  vm_compute; reflexivity.
Qed.

(** The same two runs, from the theorem. *)
Lemma unresolved_text_not_sent_witness :
  let run :=
    Network.executeRequestWithPayloads (C := network mail_network) unbound_request ∅
      "mail.example:25" "mail.example:25" "mail.example" false ∅ ∅ None in
  let query :=
    DNS.execute (C := dns "{{missing}}.{{FQDN}}" []) dns_request "example.com." ∅ ∅ ∅ None in
  (wire (effects_of query) = [] /\ exists err, value_of query = inl (None, err)) /\
  value_of run = inl (None, Some (New "unresolved variables found: missing")) /\
  length (wire (effects_of run)) = 1.
Proof.
  intros run query.
  destruct (unresolved_text_not_sent (CD := dns "{{missing}}.{{FQDN}}" [])
              (CN := network mail_network)) as [Hdns Hnet].
  split.
  - apply (Hdns dns_request "example.com." ∅ ∅ ∅ None "{{missing}}.example.com."
             (New "unresolved variables found: missing")); vm_compute; reflexivity.
  - pose (c := peer ["220"; "221"; "bye"]).
    pose (s1 := {| Network.connection := c;
                   Network.interimValues := ∅; Network.inputEvents := ∅;
                   Network.payloads := ∅; Network.reqBuilder := "HELO";
                   Network.responseBuilder := ""; Network.interactshURLs := [] |}).
    destruct (Hnet unbound_request ∅ "mail.example:25" "mail.example:25" "mail.example"
                false ∅ ∅ None c [plain "HELO" 0 ""] (plain "AUTH {{missing}}" 0 "") []
                s1 [ConnWrite "HELO"] None "AUTH {{missing}}"
                (New "unresolved variables found: missing"))
      as (Hvalue & _ & Hlen); try (vm_compute; reflexivity).
    split; [exact Hvalue | exact Hlen].
Defined.

End BuilderFacts.

Module HTTPFacts.
Import Go HTTP.

(** Scenario "BaseURL port override": the template [{{BaseURL}}:8080/admin]
    against [http://host.example] yields [http://host.example:8080/admin]. *)
Example port_override_scenario :
  let input := {| Scheme := "http"; Hostname := "host.example"; UrlPort := ""; Path := "" |} in
  UsePortFromPayload input "{{BaseURL}}:8080/admin"
    = (UpdatePort input "8080", "{{BaseURL}}/admin") /\
  request_line input "{{BaseURL}}:8080/admin" = "http://host.example:8080/admin".
Proof. split; reflexivity. Qed.

(** C6 on a template in which the text [:8080] also occurs before the
    token.  [UsePortFromPayload] takes the port 8080 from the token
    [{{BaseURL}}:8080] and then removes the first [:8080] of the template,
    the one of the other URL: the token keeps its suffix, and the request
    line carries the port twice. *)
Theorem port_suffix_not_removed :
  let input := {| Scheme := "http"; Hostname := "host.example"; UrlPort := ""; Path := "" |} in
  let template := "{{BaseURL}}/?next=http://evil.example:8080/&back={{BaseURL}}:8080/admin" in
  first_port template = Some "8080" /\
  UsePortFromPayload input template
    = (UpdatePort input "8080",
       "{{BaseURL}}/?next=http://evil.example/&back={{BaseURL}}:8080/admin") /\
  strip_token template
    = "{{BaseURL}}/?next=http://evil.example:8080/&back={{BaseURL}}/admin" /\
  (UsePortFromPayload input template).2 <> strip_token template /\
  request_line input template
    = "http://host.example:8080/?next=http://evil.example/&back=http://host.example:8080:8080/admin".
Proof.
  intros input template. split; [reflexivity|]. split; [reflexivity|].
  split; [reflexivity|]. split; [vm_compute; discriminate|reflexivity].
Qed.

End HTTPFacts.

(* ===================================================================== *)
(** * Further facts about strings                                         *)
(* ===================================================================== *)

Module StringFacts.
Import Go GoFacts.

Lemma append_assoc (s t u : string) : ((s ++ t) ++ u = s ++ (t ++ u))%string.
Proof. induction s as [|a s IH]; [done|]. by rewrite !append_String, IH. Qed.

Lemma append_empty_r (s : string) : (s ++ "")%string = s.
Proof. induction s as [|a s IH]; [done|]. by rewrite append_String, IH. Qed.

Lemma length_append s t :
  String.length (s ++ t) = String.length s + String.length t.
Proof. induction s as [|a s IH]; [done|]. rewrite append_String. simpl. by rewrite IH. Qed.

Lemma str_drop_S a s n : str_drop (S n) (String a s) = str_drop n s.
Proof. done. Qed.

Lemma IndexByte_app_first s t c :
  IndexByte s c = None -> IndexByte (s ++ String c t) c = Some (String.length s).
Proof.
  intros Hs. induction s as [|a s IH]; simpl.
  - by rewrite Ascii.eqb_refl.
  - simpl in Hs. destruct (Ascii.eqb a c); [done|].
    destruct (IndexByte s c); [done|]. by rewrite IH.
Qed.

End StringFacts.

(* ===================================================================== *)
(** * Facts about traces and computations                                 *)
(* ===================================================================== *)

Module TraceFacts.
Import Go GoFacts StringFacts Protocols ProtocolFacts NetworkFacts Traces.

Lemma takes_app effs1 effs2 : takes (effs1 ++ effs2) = takes effs1 + takes effs2.
Proof. unfold takes. by rewrite omap_app, length_app. Qed.

Lemma closes_app effs1 effs2 : closes (effs1 ++ effs2) = closes effs1 + closes effs2.
Proof. unfold closes. by rewrite omap_app, length_app. Qed.

Lemma sent_app effs1 effs2 : sent (effs1 ++ effs2) = sent effs1 + sent effs2.
Proof. unfold sent. by rewrite omap_app, length_app. Qed.

Lemma failed_app effs1 effs2 : failed (effs1 ++ effs2) = failed effs1 + failed effs2.
Proof.
  unfold failed. rewrite omap_app.
  induction (omap _ effs1) as [|n l IH]; simpl; [done|]. rewrite IH. lia.
Qed.

Lemma published_app effs1 effs2 :
  published (effs1 ++ effs2) = published effs1 ++ published effs2.
Proof. unfold published. by rewrite omap_app. Qed.

Lemma received_app effs1 effs2 : received (effs1 ++ effs2) = received effs1 ++ received effs2.
Proof. unfold received. by rewrite omap_app. Qed.

Lemma joined_app l1 l2 : joined (l1 ++ l2) = (joined l1 ++ joined l2)%string.
Proof.
  induction l1 as [|t l1 IH]; [done|].
  change (t ++ joined (l1 ++ l2) = (t ++ joined l1) ++ joined l2)%string.
  by rewrite IH, append_assoc.
Qed.

(** Runs the binds of a computation whose steps are known. *)
Ltac run_steps :=
  unfold mbind, M_bind, mret, M_ret, emit, panic; simpl.

(** ** Computations that return *)








(** ** Effects that all satisfy a predicate *)

Section Effects.
Context {A : Type} (P : effect -> Prop).

Lemma effects_in_ret (a : A) : effects_in P (mret a).
Proof. intros ctx. constructor. Qed.

Lemma effects_in_panic msg : effects_in P (panic (A := A) msg).
Proof. intros ctx. constructor. Qed.

Lemma effects_in_bind {B : Type} (m : M B) (k : B -> M A) :
  effects_in P m -> (forall b, effects_in P (k b)) -> effects_in P (m ≫= k).
Proof.
  intros Hm Hk ctx. rewrite effects_bind. apply Forall_app. split; [apply Hm|].
  destruct (m ctx) as [[[b|p] effs] ctx1]; [apply Hk|constructor].
Qed.

End Effects.

Lemma effects_in_emit (P : effect -> Prop) e : P e -> effects_in P (emit e).
Proof. intros He ctx. by repeat constructor. Qed.

Lemma effects_in_GetTemplateCtx (P : effect -> Prop) : effects_in P GetTemplateCtx.
Proof. intros ctx. constructor. Qed.

Lemma effects_in_AddTemplateVarsWith (P : effect -> Prop) update event :
  P (AddTemplateVars event) -> effects_in P (AddTemplateVarsWith update event).
Proof. intros He ctx. by repeat constructor. Qed.

(** Goes through a computation whose effects are emitted one by one; the
    tactic [tac] proves the predicate on each of them. *)
Ltac effects_run tac :=
  repeat first
    [ apply effects_in_ret
    | apply effects_in_panic
    | apply effects_in_GetTemplateCtx
    | apply effects_in_AddTemplateVarsWith; tac
    | apply effects_in_emit; tac
    | apply effects_in_bind; [|intros ?]
    | progress case_match ].

Lemma closes_none effs : Forall (fun e => e <> ConnClose) effs -> closes effs = 0.
Proof.
  induction 1 as [|e effs He _ IH]; [done|].
  change (e :: effs) with ([e] ++ effs). rewrite closes_app, IH. by destruct e.
Qed.

Lemma wire_none effs :
  Forall (fun e => match e with ConnWrite _ | DNSQuery _ => False | _ => True end) effs ->
  wire effs = [].
Proof.
  induction 1 as [|e effs He _ IH]; [done|].
  change (e :: effs) with ([e] ++ effs). rewrite wire_app, IH. by destruct e.
Qed.

End TraceFacts.

(* ===================================================================== *)
(** * Further facts about the network executor                            *)
(* ===================================================================== *)

Module NetworkTraceFacts.
Import Go GoFacts StringFacts Protocols Network ProtocolFacts NetworkFacts Traces TraceFacts.

Section Executor.
Context `{C : Collaborators}.
Variable request : Request.

(** ** No panic *)
















Lemma finish_panics actualAddress address input hostname previous st ctx :
  ReadAll request = false -> (ReadSize request < -1)%Z ->
  finish request actualAddress address input hostname previous st ctx
  = (inr "makeslice: len out of range",
     [IncrementRequests; OutputRequest actualAddress None;
      Log Verbose "Sent TCP request to %s" [actualAddress] []], ctx).
Proof.
  intros Hall Hsize. unfold finish. rewrite Hall.
  rewrite (bool_decide_eq_false_2 (ReadSize request = 0%Z)) by lia.
  unfold ConnReadNWithTimeout.
  rewrite (bool_decide_eq_false_2 (ReadSize request = (-1)%Z)) by lia.
  cbv zeta. rewrite (bool_decide_eq_false_2 (ReadSize request = 0%Z)) by lia.
  by rewrite (bool_decide_eq_true_2 (ReadSize request < 0)%Z) by lia.
Qed.

(** X2.  With a read size below -1, and without the option to read all, a
    request that connects and gets through its inputs panics at its last
    read, on the allocation of the buffer: the inputs have been written,
    one write each, the request has been counted as sent, and the
    connection is closed as the panic unwinds. *)
Theorem negative_read_size_panics variables actualAddress address input shouldUseTLS
    payloads0 previous ctx c st effs ctx' :
  ReadAll request = false -> (ReadSize request < -1)%Z ->
  Dialer actualAddress shouldUseTLS = inl c ->
  run_inputs request address actualAddress (Inputs request)
    (initial_state c variables payloads0) ctx = (inl (Continue st), effs, ctx') ->
  let run := executeRequestWithPayloads request variables actualAddress address input
               shouldUseTLS payloads0 previous ctx in
  value_of run = inr "makeslice: len out of range" /\
  length (wire (effects_of run)) = length (Inputs request) /\
  (exists before, effects_of run = before ++ [IncrementRequests;
     OutputRequest actualAddress None;
     Log Verbose "Sent TCP request to %s" [actualAddress] []; ConnClose]).
Proof.
  intros Hall Hsize Hdial Hloop run.
  pose proof (run_inputs_wire _ _ _ _ _ _ _ _ _ Hloop) as Hwire.
  assert (run = (inr "makeslice: len out of range",
                 Dial actualAddress shouldUseTLS
                 :: effs ++ [IncrementRequests; OutputRequest actualAddress None;
                      Log Verbose "Sent TCP request to %s" [actualAddress] []; ConnClose],
                 ctx')) as ->.
  { subst run. unfold executeRequestWithPayloads. rewrite Hdial.
    unfold mbind, M_bind, emit, defer. rewrite Hloop, finish_panics by done.
    simpl. by rewrite <- app_assoc. }
  unfold value_of, effects_of. simpl. split; [done|]. split.
  - change (Dial actualAddress shouldUseTLS :: ?l) with ([Dial actualAddress shouldUseTLS] ++ l).
    rewrite !wire_app. simpl. rewrite app_nil_r. done.
  - by exists (Dial actualAddress shouldUseTLS :: effs).
Qed.

(** ** The connection and the counters of one request *)

Lemma silent_counts effs :
  Forall silent effs -> closes effs = 0 /\ sent effs = 0 /\ failed effs = 0.
Proof.
  induction 1 as [|e effs He _ (IH1 & IH2 & IH3)]; [done|].
  change (e :: effs) with ([e] ++ effs).
  rewrite closes_app, sent_app, failed_app, IH1, IH2, IH3. by destruct e.
Qed.

Lemma ConnReadNWithTimeout_silent c n : effects_in silent (ConnReadNWithTimeout c n).
Proof.
  unfold ConnReadNWithTimeout. case_bool_decide.
  - destruct (reader_ReadAll c) as [[data err] c']. effects_run ltac:(exact I).
  - cbv zeta. case_bool_decide; [effects_run ltac:(exact I)|].
    destruct (conn_Read c _) as [[b err] c']. effects_run ltac:(exact I).
Qed.

Ltac failure_path :=
  unfold mbind, M_bind, mret, M_ret, emit, value_of, effects_of; simpl;
  split; [done|]; split; [done|]; split; [unfold failed; simpl; lia|by eexists].

(** The counters and the closes in a step of the loop over the inputs. *)
Lemma input_step_counts address actualAddress st input ctx :
  let run := input_step request address actualAddress st input ctx in
  closes (effects_of run) = 0 /\ sent (effects_of run) = 0 /\
  match value_of run with
  | inl (Continue _) => failed (effects_of run) = 0
  | inl (Return v) => failed (effects_of run) <= 1 /\ exists err, v = (None, Some err)
  | inr _ => False
  end.
Proof.
  unfold input_step.
  destruct (if Interactsh request then _ else _) as [data urls].
  destruct (EvaluateByte data (interimValues st)) as [finalData|err];
    [|failure_path].
  destruct (ContainsUnresolvedVariables finalData);
    [failure_path|].
  destruct (match Type_ input with hexType => _ | plainType => _ end) as [decoded|err];
    [|failure_path].
  destruct (conn_Write (connection st)) as [[werr|] c];
    [failure_path|].
  case_bool_decide as Hread; [|by simpl].
  unfold mbind at 1, M_bind at 1, emit. simpl.
  unfold mbind, M_bind. rewrite (ConnReadNWithTimeout_sized c (Read input) ctx Hread).
  destruct (conn_Read c (Z.to_nat (Read input))) as [[b err] c']. simpl.
  unfold read_result. destruct err as [e|]; [|by simpl].
  destruct (IsTimeout e && bool_decide (0 < String.length b)); simpl; [done|].
  failure_path.
Qed.

Lemma run_inputs_counts address actualAddress inputs st ctx :
  let run := run_inputs request address actualAddress inputs st ctx in
  closes (effects_of run) = 0 /\ sent (effects_of run) = 0 /\
  match value_of run with
  | inl (Continue _) => failed (effects_of run) = 0
  | inl (Return v) => failed (effects_of run) <= 1 /\ exists err, v = (None, Some err)
  | inr _ => False
  end.
Proof.
  revert st ctx. induction inputs as [|input inputs IH]; intros st ctx; simpl; [done|].
  pose proof (input_step_counts address actualAddress st input ctx) as (Hc & Hs & Hv).
  unfold mbind, M_bind. unfold value_of, effects_of in *.
  destruct (input_step request address actualAddress st input ctx) as [[[[st1|v]|p] e1] c1];
    simpl in *; [| |done].
  - pose proof (IH st1 c1) as (Hc' & Hs' & Hv'). unfold value_of, effects_of in *.
    destruct (run_inputs request address actualAddress inputs st1 c1) as [[r e2] c2].
    simpl in *. rewrite closes_app, sent_app, failed_app, Hc, Hs, Hv, Hc', Hs'.
    repeat split; try done.
  - rewrite app_nil_r. done.
Qed.

Lemma counts_after_increment {A : Type} (k : unit -> M A) ctx :
  effects_in silent (k tt) ->
  let run := (emit IncrementRequests ≫= k) ctx in
  closes (effects_of run) = 0 /\ sent (effects_of run) = 1 /\ failed (effects_of run) = 0.
Proof.
  intros Hk run. subst run. rewrite effects_emit_bind.
  pose proof (silent_counts _ (Hk ctx)) as (Hc & Hs & Hf).
  change (IncrementRequests :: ?l) with ([IncrementRequests] ++ l).
  by rewrite closes_app, sent_app, failed_app, Hc, Hs, Hf.
Qed.

Lemma finish_counts actualAddress address input hostname previous st ctx :
  let run := finish request actualAddress address input hostname previous st ctx in
  closes (effects_of run) = 0 /\ sent (effects_of run) = 1 /\ failed (effects_of run) = 0.
Proof.
  unfold finish. apply counts_after_increment.
  do 2 (apply effects_in_bind; [by apply effects_in_emit|]; intros []).
  apply effects_in_bind; [apply ConnReadNWithTimeout_silent|].
  intros [[final err] c']. effects_run ltac:(exact I).
Qed.

Lemma executeRequestWithPayloads_connected variables actualAddress address input
    shouldUseTLS payloads0 previous ctx c :
  Dialer actualAddress shouldUseTLS = inl c ->
  executeRequestWithPayloads request variables actualAddress address input shouldUseTLS
    payloads0 previous ctx
  = let '(r, effs, ctx') :=
      conversation request variables actualAddress address input payloads0 previous c ctx in
    (r, Dial actualAddress shouldUseTLS :: effs ++ [ConnClose], ctx').
Proof.
  intros Hdial. unfold executeRequestWithPayloads. rewrite Hdial.
  unfold mbind at 1, M_bind at 1, emit, defer. fold (conversation request variables actualAddress
    address input payloads0 previous c).
  by destruct (conversation _ _ _ _ _ _ _ _ ctx) as [[r effs] ctx'].
Qed.

Lemma conversation_no_dial variables actualAddress address input payloads0 previous c :
  dials_in (fun _ => False)
    (conversation request variables actualAddress address input payloads0 previous c).
Proof.
  unfold conversation. apply dials_in_bind; [apply run_inputs_no_dial|].
  intros [st|v]; [apply finish_no_dial|no_dial].
Qed.

Lemma conversation_counts variables actualAddress address input payloads0 previous c ctx :
  let run := conversation request variables actualAddress address input payloads0 previous c ctx in
  closes (effects_of run) = 0 /\
  sent (effects_of run) + failed (effects_of run) <= 1 /\
  (forall ev err, value_of run = inl (Some ev, err) ->
     sent (effects_of run) = 1 /\ failed (effects_of run) = 0) /\
  (failed (effects_of run) = 1 -> exists e, value_of run = inl (None, Some e)).
Proof.
  unfold conversation.
  pose proof (run_inputs_counts address actualAddress (Inputs request)
                (initial_state c variables payloads0) ctx) as (Hc & Hs & Hv).
  unfold mbind, M_bind. unfold value_of, effects_of in *.
  destruct (run_inputs _ _ _ _ _ ctx) as [[[[st|v]|p] e1] ctx1]; simpl in *; [| |done].
  - match goal with |- context [finish request ?a ?b ?i ?h ?p st ctx1] =>
      pose proof (finish_counts a b i h p st ctx1) as (Hc' & Hs' & Hf');
      destruct (finish request a b i h p st ctx1) as [[r e2] ctx2] end.
    unfold value_of, effects_of in *. simpl in *.
    rewrite closes_app, sent_app, failed_app, Hc, Hs, Hv, Hc', Hs', Hf'. simpl.
    repeat split; try done; lia.
  - destruct Hv as (Hf & err & ->). rewrite app_nil_r, Hc, Hs.
    split; [done|]. split; [lia|]. split; [done|]. intros _. by exists err.
Qed.

(** X3.  A request closes the connection it has opened exactly once, as
    its last action, whatever way it ends, panic included; and when the
    connect fails it has nothing to close: it reports the failure, counts
    one failed request and returns the wrapped error, without any write. *)
Theorem connection_closed_once variables actualAddress address input shouldUseTLS
    payloads0 previous ctx :
  let run := executeRequestWithPayloads request variables actualAddress address input
               shouldUseTLS payloads0 previous ctx in
  match Dialer actualAddress shouldUseTLS with
  | inl _ =>
      closes (effects_of run) = 1 /\ last (effects_of run) = Some ConnClose /\
      dials (effects_of run) = [(actualAddress, shouldUseTLS)]
  | inr err =>
      run = (inl (None, Some (Wrap err "could not connect to server")),
             [Dial actualAddress shouldUseTLS; OutputRequest address (Some err);
              IncrementFailedRequestsBy 1], ctx)
  end.
Proof.
  intros run. subst run.
  destruct (Dialer actualAddress shouldUseTLS) as [c|err] eqn:Hdial.
  - rewrite (executeRequestWithPayloads_connected _ _ _ _ _ _ _ _ _ Hdial).
    pose proof (conversation_counts variables actualAddress address input payloads0
                  previous c ctx) as (Hc & _).
    pose proof (no_dial_nil _ ctx (conversation_no_dial variables actualAddress
                  address input payloads0 previous c)) as Hnd.
    destruct (conversation _ _ _ _ _ _ _ _ ctx) as [[r effs] ctx'].
    unfold effects_of in *. simpl in *.
    change (Dial actualAddress shouldUseTLS :: effs ++ [ConnClose])
      with ([Dial actualAddress shouldUseTLS] ++ effs ++ [ConnClose]).
    rewrite !closes_app, !dials_app, Hc, Hnd. split; [done|]. split; [|done].
    by rewrite app_assoc, last_app.
  - unfold executeRequestWithPayloads. by rewrite Hdial.
Qed.

(** X4.  A request is counted at most once: it increments the counter of
    the requests sent or, by one, the counter of the failed requests, never
    both.  A request that returns an event has been counted as sent and not
    as failed, and a request counted as failed returns an error and no
    event. *)
Theorem request_counted_once variables actualAddress address input shouldUseTLS
    payloads0 previous ctx :
  let run := executeRequestWithPayloads request variables actualAddress address input
               shouldUseTLS payloads0 previous ctx in
  sent (effects_of run) + failed (effects_of run) <= 1 /\
  (forall ev err, value_of run = inl (Some ev, err) ->
     sent (effects_of run) = 1 /\ failed (effects_of run) = 0) /\
  (failed (effects_of run) = 1 -> exists e, value_of run = inl (None, Some e)).
Proof.
  intros run. subst run.
  destruct (Dialer actualAddress shouldUseTLS) as [c|err] eqn:Hdial.
  - rewrite (executeRequestWithPayloads_connected _ _ _ _ _ _ _ _ _ Hdial).
    pose proof (conversation_counts variables actualAddress address input payloads0
                  previous c ctx) as (_ & Hle & Hev & Hfail).
    destruct (conversation _ _ _ _ _ _ _ _ ctx) as [[r effs] ctx'].
    unfold effects_of, value_of in *. simpl in *.
    change (Dial actualAddress shouldUseTLS :: effs ++ [ConnClose])
      with ([Dial actualAddress shouldUseTLS] ++ effs ++ [ConnClose]).
    rewrite !sent_app, !failed_app. simpl.
    replace (sent effs + sent [ConnClose]) with (sent effs) by (unfold sent; simpl; lia).
    replace (failed effs + failed [ConnClose]) with (failed effs)
      by (unfold failed; simpl; lia).
    done.
  - unfold executeRequestWithPayloads. rewrite Hdial. simpl.
    split; [unfold sent, failed; simpl; lia|]. split; [done|]. intros _. by eexists.
Qed.

(** ** The port scan *)

Lemma probes_app effs1 effs2 : probes (effs1 ++ effs2) = probes effs1 ++ probes effs2.
Proof. unfold probes. by rewrite omap_app. Qed.

#[local] Arguments accepts : simpl never.

Lemma probe_ports_accepted target candidates errs openPorts ctx :
  exists errs' effs,
    probe_ports request target candidates errs openPorts ctx
      = (inl (errs', openPorts ++ List.filter (accepts request target) candidates),
         effs, ctx) /\
    Forall scan_effect effs /\
    closes effs = length (List.filter (accepts request target) candidates) /\
    length (probes effs) <= length candidates /\
    length errs' + length (List.filter (accepts request target) candidates)
      = length errs + length candidates.
Proof.
  revert errs openPorts. induction candidates as [|port rest IH]; intros errs openPorts.
  - exists errs, []. rewrite app_nil_r. simpl.
    split; [done|]. split; [apply List.Forall_nil|]. split; [done|]. split; lia.
  - simpl.
    destruct (UseNetworkPort target port (ExcludePorts request)) as [cloned|err] eqn:HU.
    + destruct (getAddress cloned) as [addr|err] eqn:HG.
      * unfold mbind at 1, M_bind at 1, emit.
        destruct (protocolstate_Dial addr) as [c|err] eqn:HD.
        -- assert (accepts request target port = true) as ->
             by (unfold accepts; by rewrite HU, HG, HD).
           unfold mbind at 1, M_bind at 1.
           destruct (IH errs (openPorts ++ [port])) as (errs' & effs & -> & Hall & Hc & Hp & Hl).
           eexists _, _. rewrite <- app_assoc. split; [done|].
           split; [by repeat constructor|].
           rewrite !closes_app, !probes_app, !length_app, Hc. simpl in *.
           split; [done|]. split; lia.
        -- assert (accepts request target port = false) as ->
             by (unfold accepts; by rewrite HU, HG, HD).
           destruct (IH (errs ++ [err]) openPorts) as (errs' & effs & -> & Hall & Hc & Hp & Hl).
           eexists _, _. split; [done|]. rewrite length_app in Hl.
           split; [by repeat constructor|].
           rewrite !closes_app, !probes_app, !length_app, Hc. simpl in *.
           split; [done|]. split; lia.
      * assert (accepts request target port = false) as ->
          by (unfold accepts; by rewrite HU, HG).
        destruct (IH (errs ++ [err]) openPorts) as (errs' & effs & -> & Hall & Hc & Hp & Hl).
        eexists _, _. split; [done|]. rewrite length_app in Hl. simpl in *.
        split; [done|]. split; [done|]. split; lia.
    + assert (accepts request target port = false) as ->
        by (unfold accepts; by rewrite HU).
      destruct (IH (errs ++ [err]) openPorts) as (errs' & effs & -> & Hall & Hc & Hp & Hl).
      eexists _, _. split; [done|]. rewrite length_app in Hl. simpl in *.
      split; [done|]. split; [done|]. split; lia.
Qed.

Lemma scan_effect_quiet effs :
  Forall scan_effect effs ->
  dials effs = [] /\ wire effs = [] /\ sent effs = 0 /\ failed effs = 0.
Proof.
  induction 1 as [|e effs He _ (IH1 & IH2 & IH3 & IH4)]; [done|].
  change (e :: effs) with ([e] ++ effs).
  rewrite dials_app, wire_app, sent_app, failed_app, IH1, IH2, IH3, IH4. by destruct e.
Qed.

(** X5.  For a template with several ports, or with none, [getOpenPorts]
    returns the ports of the template that are open on the target, in the
    order of the template: those for which the address can be built and
    accepts a connection.  The scan probes each port at most once and
    closes every connection it has opened; it writes nothing on them, makes
    no connect of a request, counts no request, and leaves the template
    context as it is.  Its error is nil as soon as one port is open. *)
Theorem getOpenPorts_accepted target ctx :
  length (ports request) <> 1 ->
  let open := List.filter (accepts request target) (ports request) in
  exists err effs,
    getOpenPorts request target ctx = (inl (open, err), effs, ctx) /\
    (open <> [] -> err = None) /\
    closes effs = length open /\
    length (probes effs) <= length (ports request) /\
    dials effs = [] /\ wire effs = [] /\ sent effs = 0 /\ failed effs = 0.
Proof.
  intros Hmany open. unfold getOpenPorts. rewrite bool_decide_eq_false_2 by done.
  destruct (probe_ports_accepted target (ports request) [] [] ctx)
    as (errs' & effs & Hprobe & Hall & Hc & Hp & Hl).
  apply scan_effect_quiet in Hall as (Hd & Hw & Hs & Hf).
  unfold mbind, M_bind. rewrite Hprobe. simpl. fold open in Hc |- *.
  case_bool_decide as Hopen; simpl; rewrite app_nil_r.
  - exists (Combine errs'), effs. apply length_zero_iff_nil in Hopen.
    rewrite Hopen in *. done.
  - by exists None, effs.
Qed.

(** ** The results of an execution *)




(** ** What the event is built from *)

Lemma ConnReadNWithTimeout_received c n ctx data err c' effs ctx' :
  ConnReadNWithTimeout c n ctx = (inl ((data, err), c'), effs, ctx') ->
  received effs = [data] /\ wire effs = [] /\
  published effs = [].
Proof.
  unfold ConnReadNWithTimeout. case_bool_decide as H1.
  - destruct (reader_ReadAll c) as [[data0 err0] c0]. run_steps.
    intros [= <- <- <- <- <-]. unfold received. simpl.
    by rewrite bool_decide_eq_true_2 by done.
  - cbv zeta. case_bool_decide as Hneg; [by run_steps|].
    destruct (conn_Read c _) as [[b err0] c0].
    assert (forall r : string * option error,
              r = read_result b err0 ->
              received [ConnRead (if bool_decide (n = 0%Z) then 4096%Z else n) b err0]
              = [r.1]) as Hrec.
    { intros r ->. unfold received. simpl.
      rewrite bool_decide_eq_false_2; [done|]. case_bool_decide; lia. }
    unfold read_result in Hrec. run_steps. destruct err0 as [e|].
    + destruct (IsTimeout e && bool_decide (0 < String.length b)); simpl;
        intros [= <- <- <- <- <-]; by rewrite (Hrec _ eq_refl).
    + simpl. intros [= <- <- <- <- <-]. by rewrite (Hrec _ eq_refl).
Qed.

(** A step that goes on adds what it has written to the text of the
    request, when the input is plain, and what it has read to the text of
    the response. *)
Lemma input_step_builders address actualAddress st input ctx st' effs ctx' :
  input_step request address actualAddress st input ctx = (inl (Continue st'), effs, ctx') ->
  Type_ input = plainType ->
  reqBuilder st' = (reqBuilder st ++ joined (wire effs))%string /\
  responseBuilder st' = (responseBuilder st ++ joined (received effs))%string /\
  published effs = [].
Proof.
  unfold input_step. intros Hrun Hplain. revert Hrun. rewrite Hplain.
  destruct (if Interactsh request then _ else _) as [data urls].
  destruct (EvaluateByte data (interimValues st)) as [finalData|err]; [|by run_steps].
  destruct (ContainsUnresolvedVariables finalData); [by run_steps|].
  destruct (conn_Write (connection st)) as [[werr|] c]; [by run_steps|].
  case_bool_decide as Hread.
  - unfold mbind at 1, M_bind at 1, emit. simpl.
    unfold mbind, M_bind. rewrite (ConnReadNWithTimeout_sized c (Read input) ctx Hread).
    destruct (conn_Read c (Z.to_nat (Read input))) as [[b err] c']. simpl.
    destruct (read_result b err) as [buffer [e|]] eqn:Hres; simpl; [done|].
    intros [= <- <- <-]. simpl.
    rewrite (bool_decide_eq_false_2 (Read input = (-1)%Z)) by lia. rewrite Hres. simpl.
    by rewrite !append_empty_r.
  - run_steps. intros [= <- <- <-]. simpl. by rewrite !append_empty_r.
Qed.

Lemma run_inputs_builders address actualAddress inputs st ctx st' effs ctx' :
  run_inputs request address actualAddress inputs st ctx = (inl (Continue st'), effs, ctx') ->
  Forall (fun input => Type_ input = plainType) inputs ->
  reqBuilder st' = (reqBuilder st ++ joined (wire effs))%string /\
  responseBuilder st' = (responseBuilder st ++ joined (received effs))%string /\
  published effs = [].
Proof.
  revert st ctx effs. induction inputs as [|input inputs IH]; intros st ctx effs; simpl.
  - intros [= <- <- <-] _. simpl. by rewrite !append_empty_r.
  - intros Hrun Hplain. apply Forall_cons in Hplain as [Hplain Hrest].
    apply bind_inl_inv in Hrun as (r & e1 & c1 & e2 & Hstep & Hnext & ->).
    destruct r as [st1|v]; [|done].
    apply input_step_builders in Hstep as (Hq1 & Hr1 & Ha1); [|done].
    apply IH in Hnext as (Hq2 & Hr2 & Ha2); [|done].
    by rewrite Hq2, Hr2, Hq1, Hr1, wire_app, received_app, published_app, Ha1, Ha2,
      !joined_app, !append_assoc.
Qed.

Lemma finish_builds actualAddress address input hostname previous st ctx v effs ctx' :
  finish request actualAddress address input hostname previous st ctx = (inl v, effs, ctx') ->
  exists final,
    received effs = [final] /\ wire effs = [] /\
    published effs
    = [responseToDSLMap (reqBuilder st) final (responseBuilder st ++ final)%string input
         actualAddress].
Proof.
  unfold finish. intros Hrun.
  do 3 (apply bind_inl_inv in Hrun as ([] & ? & ? & ? & [= <- <-] & Hrun & ->)).
  apply bind_inl_inv in Hrun as ([[final err] c'] & e1 & c1 & e2 & Hread & Hrun & ->).
  apply ConnReadNWithTimeout_received in Hread as (Hrec & Hwire & Hpub).
  exists final.
  apply bind_inl_inv in Hrun as ([] & e3 & c3 & e4 & Hlog & Hrun & ->).
  assert (received e3 = [] /\ wire e3 = [] /\ published e3 = []) as (Hr3 & Hw3 & Hp3).
  { destruct err as [e|]; revert Hlog; run_steps; by intros [= <- <-]. }
  apply bind_inl_inv in Hrun as ([] & e5 & c5 & e6 & [= <- <-] & Hrun & ->).
  apply bind_inl_inv in Hrun as (ctx0 & e7 & c7 & e8 & [= <- <- <-] & Hrun & ->).
  assert (received e8 = [] /\ wire e8 = [] /\ published e8 = []) as (Hr8 & Hw8 & Hp8).
  { revert Hrun. case_bool_decide; [run_steps; by intros [= _ <- _]|].
    destruct (Interactsh request); run_steps; by intros [= _ <- _]. }
  change (IncrementRequests :: ?l) with ([IncrementRequests] ++ l).
  rewrite !received_app, !wire_app, !published_app, Hrec, Hwire, Hpub, Hr3, Hw3, Hp3,
    Hr8, Hw8, Hp8.
  done.
Qed.

(** X7.  The event of a request is built from what has gone over the
    connection.  When a request whose inputs are all plain returns an
    event, it has handed one response mapping to the template context, the
    one [responseToDSLMap] makes of the texts written, one after the other,
    as the request, of what the last read has returned as the data, and of
    the texts that all the reads have returned, one after the other, as the
    response. *)
Theorem event_from_the_wire variables actualAddress address input shouldUseTLS payloads0
    previous ctx ev err effs ctx' :
  Forall (fun i => Type_ i = plainType) (Inputs request) ->
  executeRequestWithPayloads request variables actualAddress address input shouldUseTLS
    payloads0 previous ctx = (inl (Some ev, err), effs, ctx') ->
  exists final,
    last (received effs) = Some final /\
    length (wire effs) = length (Inputs request) /\
    published effs
    = [responseToDSLMap (joined (wire effs)) final (joined (received effs)) input
         actualAddress].
Proof.
  intros Hplain Hrun.
  destruct (Dialer actualAddress shouldUseTLS) as [c|e] eqn:Hdial;
    [|by unfold executeRequestWithPayloads in Hrun; rewrite Hdial in Hrun].
  rewrite (executeRequestWithPayloads_connected _ _ _ _ _ _ _ _ _ Hdial) in Hrun.
  destruct (conversation _ _ _ _ _ _ _ _ ctx) as [[r effsC] ctxC] eqn:Hconv.
  injection Hrun as -> <- ->. unfold conversation in Hconv.
  apply bind_inl_inv in Hconv as (r & e1 & c1 & e2 & Hloop & Hfin & ->).
  destruct r as [st|v]; [|by apply run_inputs_Return in Hloop as [e' ->]].
  pose proof (run_inputs_wire _ _ _ _ _ _ _ _ _ Hloop) as Hlen.
  apply run_inputs_builders in Hloop as (Hreq & Hresp & Hpub1); [|done].
  apply finish_builds in Hfin as (final & Hrec & Hwire & Hpub2).
  exists final. simpl in Hreq, Hresp.
  change (Dial actualAddress shouldUseTLS :: ?l) with ([Dial actualAddress shouldUseTLS] ++ l).
  rewrite !received_app, !wire_app, !published_app, Hrec, Hwire, Hpub1, Hpub2. simpl.
  rewrite !app_nil_r, joined_app, last_app. simpl.
  rewrite Hreq, Hresp in *. rewrite append_empty_r. done.
Qed.

(** ** The events of a target *)

Lemma executeAddress_slot variables actualAddress address input shouldUseTLS previous
    ctx evs effs ctx' :
  generator request = None ->
  executeAddress request variables actualAddress address input shouldUseTLS previous ctx
    = (inl (evs, None), effs, ctx') ->
  length evs = 1.
Proof.
  intros Hgen. unfold executeAddress. rewrite Hgen.
  destruct (negb (Contains actualAddress ":")); [by run_steps|].
  intros Hrun. apply bind_inl_inv in Hrun as ([ev err] & e1 & c1 & e2 & _ & Hret & _).
  revert Hret. unfold mret, M_ret. by intros [= <- _ _ _].
Qed.

Lemma run_selected_slots variables address input previous chosen events ctx evs effs ctx' :
  generator request = None ->
  run_selected request variables address input previous chosen events ctx
    = (inl evs, effs, ctx') ->
  length evs = length events + length chosen.
Proof.
  intros Hgen. revert events ctx effs.
  induction chosen as [|[actualAddress shouldUseTLS] chosen IH]; intros events ctx effs;
    simpl.
  - intros [= <- _ _]. lia.
  - intros Hrun.
    apply bind_inl_inv in Hrun as ([evs1 [e|]] & e1 & c1 & e2 & Hexec & Hrun & _).
    + apply bind_inl_inv in Hrun as ([] & e3 & c3 & e4 & _ & Hrun & _).
      apply IH in Hrun. rewrite length_app in Hrun. simpl in Hrun. lia.
    + apply executeAddress_slot in Hexec; [|done].
      apply IH in Hrun. rewrite length_app in Hrun. lia.
Qed.

(** X8.  The failure of an address is not a failure of the target.
    [executeOnTarget] returns an error only when the address cannot be
    taken from the input, which it then reports and counts as one failed
    request before anything is dialed, while the visited set stays as it
    was.  Otherwise its error is nil, whatever happens to the addresses of
    the template, and the visited set gains the addresses the call has
    executed; without a payload iterator the call returns one event slot
    for each of them. *)
Theorem executeOnTarget_fails_on_input_only input visited metadata previous ctx events err
    visited' effs ctx' :
  executeOnTarget request input visited metadata previous ctx
    = (inl ((events, err), visited'), effs, ctx') ->
  match (if SelfContained request then inl "" else getAddress input) with
  | inr e =>
      events = [] /\ err = Some (Wrap e "could not get address from url") /\
      visited' = visited /\
      effs = [OutputRequest input (Some e); IncrementFailedRequestsBy 1]
  | inl address =>
      let chosen :=
        selected request (target_variables request address ctx) (addresses request)
          visited in
      err = None /\
      visited' = list_to_set chosen.*1 ∪ visited /\
      (generator request = None -> length events = length chosen)
  end.
Proof.
  destruct (if SelfContained request then _ else _) as [address|e] eqn:Hres.
  - rewrite (executeOnTarget_resolved _ _ _ _ _ _ _ Hres), run_addresses_selected.
    intros Hrun chosen.
    match type of Hrun with match ?run with _ => _ end = _ =>
      destruct run as [[[[evs v]|p] effs0] ctx0] eqn:Hsel; [|done] end.
    injection Hrun as <- <- <- <- <-.
    apply bind_inl_inv in Hsel as (evs0 & e1 & c1 & e2 & Hsel & Hret & _).
    revert Hret. unfold mret, M_ret. intros [= <- <- _ _].
    split; [done|]. split; [done|]. intros Hgen.
    by apply (run_selected_slots _ _ _ _ _ _ _ _ _ _ Hgen) in Hsel.
  - unfold executeOnTarget. rewrite Hres. run_steps. by intros [= <- <- <- <- _].
Qed.

(** ** The sized read *)

(** X9.  A sized read hands its caller bytes or an error, never both.  For
    a size other than -1 on which [ConnReadNWithTimeout] returns, the size
    is not negative, the bytes returned fit the buffer, of 4096 bytes for
    the size 0 and of the size otherwise, and the error is nil as soon as a
    byte is returned; the template context is left as it is. *)
Theorem ConnReadNWithTimeout_bytes_or_error c n ctx data err c' effs ctx' :
  n <> (-1)%Z ->
  ConnReadNWithTimeout c n ctx = (inl ((data, err), c'), effs, ctx') ->
  (0 <= n)%Z /\
  (Z.of_nat (String.length data) <= (if bool_decide (n = 0%Z) then 4096 else n))%Z /\
  (data <> "" -> err = None) /\
  ctx' = ctx.
Proof.
  intros Hn. unfold ConnReadNWithTimeout. rewrite bool_decide_eq_false_2 by done.
  cbv zeta. set (size := if bool_decide (n = 0%Z) then 4096%Z else n).
  assert (size < 0 <-> n < 0)%Z as Hsize by (subst size; case_bool_decide; lia).
  case_bool_decide as Hneg; [by run_steps|].
  pose proof (conn_Read_length c (Z.to_nat size)) as Hlen.
  destruct (conn_Read c (Z.to_nat size)) as [[b err0] c0]. simpl in Hlen. run_steps.
  destruct err0 as [e|].
  - destruct (IsTimeout e && bool_decide (0 < String.length b)); simpl;
      intros [= <- <- <- <- <-]; repeat split; try done; simpl; lia.
  - simpl. intros [= <- <- <- <- <-]. repeat split; try done; lia.
Qed.

End Executor.

(** ** Runs *)

Import Scenario Runs.


Lemma negative_read_size_panics_witness :
  let run :=
    executeRequestWithPayloads (C := network mail_network) negative_read_request ∅
      "mail.example:25" "mail.example:25" "mail.example" false ∅ ∅ None in
  value_of run = inr "makeslice: len out of range" /\
  length (wire (effects_of run)) = 1 /\
  (exists before,
     effects_of run
     = before ++ [IncrementRequests; OutputRequest "mail.example:25" None;
                  Log Verbose "Sent TCP request to %s" ["mail.example:25"] [];
                  ConnClose]).
Proof.
  pose (c := peer ["220"; "221"; "bye"]).
  pose (st := {| connection := c; interimValues := ∅; inputEvents := ∅; payloads := ∅;
                 reqBuilder := "HELO"; responseBuilder := ""; interactshURLs := [] |}).
  assert (run_inputs (C := network mail_network) negative_read_request "mail.example:25"
            "mail.example:25" (Inputs negative_read_request) (initial_state c ∅ ∅) None
          = (inl (Continue st), [ConnWrite "HELO"], None)) as Hloop
    by (vm_compute; reflexivity).
  apply (negative_read_size_panics (C := network mail_network) negative_read_request ∅
           "mail.example:25" "mail.example:25" "mail.example" false ∅ ∅ None c st
           [ConnWrite "HELO"] None); [reflexivity|simpl; lia|reflexivity|exact Hloop].
Defined.

Lemma getOpenPorts_accepted_witness :
  exists err effs,
    getOpenPorts (C := network scan_network) scan_request "scanme.example" None
      = (inl (["80"], err), effs, None) /\
    (["80"] <> [] -> err = None) /\
    closes effs = 1 /\
    length (probes effs) <= 3 /\
    dials effs = [] /\ wire effs = [] /\ sent effs = 0 /\ failed effs = 0.
Proof.
  apply (getOpenPorts_accepted (C := network scan_network) scan_request "scanme.example"
           None).
  simpl. lia.
Defined.


Lemma event_from_the_wire_witness :
  let run :=
    executeRequestWithPayloads (C := network mail_network) echo_request ∅
      "mail.example:25" "mail.example:25" "mail.example" false ∅ ∅ None in
  wire (effects_of run) = ["HELO"; "ECHO 220"] /\
  received (effects_of run) = ["220"; "221"] /\
  exists final,
    last (received (effects_of run)) = Some final /\
    length (wire (effects_of run)) = 2 /\
    published (effects_of run)
    = [@responseToDSLMap (network mail_network)
         (joined (wire (effects_of run))) final
         (joined (received (effects_of run))) "mail.example" "mail.example:25"].
Proof.
  intros run.
  assert (exists ev effs, run = (inl (Some ev, None), effs, None)) as (ev & effs & Hrun)
    by (eexists _, _; vm_compute; reflexivity).
  split; [vm_compute; reflexivity|]. split; [vm_compute; reflexivity|].
  rewrite Hrun. unfold effects_of. simpl.
  apply (event_from_the_wire (C := network mail_network) echo_request ∅
           "mail.example:25" "mail.example:25" "mail.example" false ∅ ∅ None ev None
           effs None); [|exact Hrun].
  repeat constructor.
Defined.

Lemma executeOnTarget_fails_on_input_only_witness :
  exists events effs,
    executeOnTarget (C := network twice_network) (twice_request true)
      "scanme.example:443" ∅ ∅ ∅ None
    = (inl ((events, None), {["scanme.example:443"]}), effs, None) /\
    length events = 1.
Proof.
  assert (exists events effs,
            executeOnTarget (C := network twice_network) (twice_request true)
              "scanme.example:443" ∅ ∅ ∅ None
            = (inl ((events, None), {["scanme.example:443"]}), effs, None))
    as (events & effs & Hrun) by (eexists _, _; vm_compute; reflexivity).
  exists events, effs. split; [exact Hrun|].
  destruct (executeOnTarget_fails_on_input_only (C := network twice_network)
              (twice_request true) "scanme.example:443" ∅ ∅ ∅ None events None
              {["scanme.example:443"]} effs None Hrun) as (_ & _ & Hslots).
  exact (Hslots eq_refl).
Defined.

Lemma ConnReadNWithTimeout_bytes_or_error_witness :
  (0 <= 0)%Z /\ (Z.of_nat (String.length "ab") <= 4096)%Z /\
  ("ab" <> "" -> @None error = None) /\ @None vars = None.
Proof.
  apply (ConnReadNWithTimeout_bytes_or_error (C := network []) slow_peer 0 None "ab" None
           {| inbox := []; outbox := [] |}
           [ConnRead 4096 "ab" (Some (Timeout "i/o timeout"))] None);
    [lia|vm_compute; reflexivity].
Defined.

End NetworkTraceFacts.

(* ===================================================================== *)
(** * Further facts about the file auth provider                          *)
(* ===================================================================== *)

Module AuthLookupFacts.
Import Go GoFacts StringFacts AuthProvider AuthProviderFacts AuthURL.

(** ** Addresses that [net.SplitHostPort] takes apart or refuses *)

(** An address with a colon inside what precedes its last colon, and no
    bracket at its head, has too many colons. *)
Lemma SplitHostPort_colons s port :
  is_Some (IndexByte s ":") -> first_byte s <> Some "["%char ->
  IndexByte port ":" = None ->
  SplitHostPort (s ++ ":" ++ port)
  = inr (AddrError tooManyColons (s ++ ":" ++ port)).
Proof.
  intros [j Hj] Hfirst Pc. unfold SplitHostPort.
  change (":" ++ port)%string with (String ":" port).
  rewrite (LastIndexByte_app s port ":" (IndexByte_None_Last _ _ Pc)).
  assert (first_byte (s ++ String ":" port) <> Some "["%char) as Hfirst'
    by (by destruct s).
  rewrite bool_decide_eq_false_2 by done.
  rewrite str_take_app, Hj. by rewrite bool_decide_eq_true_2 by eauto.
Qed.

Lemma SplitHostPort_brackets hostport i e :
  LastIndexByte hostport ":" = Some i -> first_byte hostport = Some "["%char ->
  IndexByte hostport "]" = Some e -> e + 1 <> String.length hostport -> e + 1 = i ->
  IndexByte (str_drop 1 hostport) "[" = None ->
  IndexByte (str_drop (e + 1) hostport) "]" = None ->
  SplitHostPort hostport = inl (slice 1 e hostport, str_drop (i + 1) hostport).
Proof.
  intros Hi Hfirst He Hlen Hei Hl Hr. unfold SplitHostPort. rewrite Hi, He.
  rewrite (bool_decide_eq_true_2 _ Hfirst), (bool_decide_eq_false_2 _ Hlen),
    (bool_decide_eq_true_2 _ Hei), Hl, Hr.
  by rewrite (bool_decide_eq_false_2 (is_Some None)) by (by intros [? ?]).
Qed.

(** A bracketed host followed by a colon and a port splits into the host,
    without its brackets, and the port. *)
Lemma SplitHostPort_bracket h port :
  IndexByte h "[" = None -> IndexByte h "]" = None ->
  IndexByte port ":" = None -> IndexByte port "[" = None -> IndexByte port "]" = None ->
  SplitHostPort ("[" ++ h ++ "]:" ++ port) = inl (h, port).
Proof.
  intros Hl Hr Pc Pl Pr.
  change ("[" ++ h ++ "]:" ++ port)%string with (String "[" (h ++ String "]" (String ":" port))).
  remember (String ":" port) as tail eqn:Htail.
  assert (IndexByte tail "[" = None) as Pl' by (subst tail; simpl; by rewrite Pl).
  assert (IndexByte tail "]" = None) as Pr' by (subst tail; simpl; by rewrite Pr).
  assert (str_drop (String.length h + 1) (h ++ String "]" tail) = tail) as Hdrop.
  { by rewrite <- (append_assoc_byte h "]" tail), <- (length_append_byte h "]"),
      str_drop_app. }
  rewrite (SplitHostPort_brackets _ (String.length h + 2) (String.length h + 1)).
  - f_equal. f_equal.
    + unfold slice. replace (String.length h + 1 - 1) with (String.length h) by lia.
      rewrite str_drop_S. simpl str_drop. apply str_take_app.
    + replace (String.length h + 2 + 1) with (S (S (String.length h + 1))) by lia.
      rewrite str_drop_S.
      replace (S (String.length h + 1)) with (String.length (h ++ "]:"))
        by (rewrite length_append; simpl; lia).
      replace (h ++ String "]" tail)%string with ((h ++ "]:") ++ port)%string
        by (subst tail; by rewrite append_assoc).
      apply str_drop_app.
  - replace (String "[" (h ++ String "]" tail))
      with ((String "[" (h ++ "]")) ++ String ":" port)%string
      by (subst tail; by rewrite append_String, append_assoc_byte).
    rewrite (LastIndexByte_app _ port ":" (IndexByte_None_Last _ _ Pc)).
    simpl. rewrite length_append_byte. f_equal. lia.
  - done.
  - simpl. rewrite (IndexByte_app_first h tail "]" Hr). simpl. f_equal. lia.
  - subst tail. simpl. rewrite length_append. simpl. lia.
  - lia.
  - rewrite str_drop_S. simpl str_drop.
    apply IndexByte_app_None; [done|]. simpl. by rewrite Pl'.
  - replace (String.length h + 1 + 1) with (S (String.length h + 1)) by lia.
    by rewrite str_drop_S, Hdrop.
Qed.

(** A bracketed host without a port has no port to split off. *)
Lemma SplitHostPort_no_port h :
  IndexByte h "]" = None ->
  exists err, SplitHostPort ("[" ++ h ++ "]") = inr err.
Proof.
  intros Hr. unfold SplitHostPort.
  change ("[" ++ h ++ "]")%string with (String "[" (h ++ "]")).
  destruct (LastIndexByte (String "[" (h ++ "]")) ":") as [i|]; [|by eexists].
  rewrite bool_decide_eq_true_2 by done.
  assert (IndexByte (String "[" (h ++ "]")) "]" = Some (String.length h + 1)) as ->.
  { simpl. rewrite (IndexByte_app_first h "" "]" Hr). simpl. f_equal. lia. }
  rewrite bool_decide_eq_true_2; [by eexists|].
  simpl. rewrite length_append_byte. lia.
Qed.

Section Lookup.
Context `{U : Unicode} `{R : RegexpEngine} `{A : AuthxPackage}.

Lemma normalize_other addr :
  (forall host port,
     SplitHostPort addr = inl (host, port) -> port <> "80" /\ port <> "443") ->
  normalize addr = addr.
Proof.
  intros Hport. unfold normalize. destruct (Contains addr ":"); [|done].
  destruct (SplitHostPort addr) as [[host port]|err]; [|done].
  destruct (Hport host port eq_refl) as [H80 H443].
  destruct (String.eqb_spec port "80"); [done|].
  by destruct (String.eqb_spec port "443").
Qed.

(** X10.  [LookupAddr] looks an address up as it is given, unless the
    address splits into a host and the port 80 or 443: the two scans then
    run on the address with its port.  So it is for a host followed by
    another port, and for an address that has a colon before its last
    colon and no bracket at its head, such as an IPv6 address written
    without brackets, whatever follows its last colon. *)
Theorem LookupAddr_verbatim (f : FileAuthProvider) :
  (forall addr r,
     (forall host port,
        SplitHostPort addr = inl (host, port) -> port <> "80" /\ port <> "443") ->
     (LookupAddr f addr r <-> lookup_on f addr r)) /\
  (forall host port r,
     IndexByte host ":" = None -> IndexByte host "[" = None -> IndexByte host "]" = None ->
     IndexByte port ":" = None -> IndexByte port "[" = None -> IndexByte port "]" = None ->
     port <> "80" -> port <> "443" ->
     (LookupAddr f (host ++ ":" ++ port) r <-> lookup_on f (host ++ ":" ++ port) r)) /\
  (forall s port r,
     is_Some (IndexByte s ":") -> first_byte s <> Some "["%char ->
     IndexByte port ":" = None ->
     (LookupAddr f (s ++ ":" ++ port) r <-> lookup_on f (s ++ ":" ++ port) r)).
Proof.
  assert (forall addr r,
            (forall host port,
               SplitHostPort addr = inl (host, port) -> port <> "80" /\ port <> "443") ->
            (LookupAddr f addr r <-> lookup_on f addr r)) as Hgeneral.
  { intros addr r Hport. by rewrite LookupAddr_lookup_on, (normalize_other _ Hport). }
  split; [exact Hgeneral|]. split.
  - intros host port r Hc Hl Hr Pc Pl Pr H80 H443. apply Hgeneral.
    intros host' port'. rewrite (SplitHostPort_plain host port) by done.
    by intros [= <- <-].
  - intros s port r Hs Hfirst Pc. apply Hgeneral.
    intros host' port'. by rewrite (SplitHostPort_colons s port).
Qed.

(** X11.  The brackets of an IPv6 host go with the default port.  For a
    URL whose host is [[h]:80] or [[h]:443], [LookupURL] and [LookupURLX]
    run the two scans on [h], without the brackets and without the port;
    [LookupAddr] on the bracketed host without a port runs them on the
    host with its brackets. *)
Theorem LookupURL_bracketed (f : FileAuthProvider) h port (u : url_URL)
    (ux : urlutil_URL) r :
  IndexByte h "[" = None -> IndexByte h "]" = None -> port = "80" \/ port = "443" ->
  Host u = ("[" ++ h ++ "]:" ++ port)%string -> Host (embedded ux) = Host u ->
  (LookupURL f u r <-> lookup_on f h r) /\
  (LookupURLX f ux r <-> lookup_on f h r) /\
  (LookupAddr f ("[" ++ h ++ "]") r <-> lookup_on f ("[" ++ h ++ "]") r).
Proof.
  intros Hl Hr Hport Hu Hux.
  assert (SplitHostPort (Host u) = inl (h, port)) as Hsplit.
  { rewrite Hu. apply SplitHostPort_bracket; try done; by destruct Hport as [-> | ->]. }
  unfold LookupURL, LookupURLX. rewrite Hux, !LookupAddr_lookup_on.
  rewrite (normalize_split _ _ _ Hsplit Hport). split; [done|]. split; [done|].
  rewrite normalize_other; [done|].
  intros host' port'. destruct (SplitHostPort_no_port h Hr) as [err ->]. done.
Qed.

(** ** The index of the exact domains *)

Lemma init_regex_domains secret ps (f : FileAuthProvider) :
  domains (foldl (init_regex secret) f ps) = domains f /\
  Path (foldl (init_regex secret) f ps) = Path f.
Proof.
  revert f. induction ps as [|p ps IH]; intros f; simpl; [done|].
  destruct (IH (init_regex secret f p)) as [-> ->]. unfold init_regex.
  by destruct (Compile p).
Qed.

Lemma init_domain_domains secret ds (f : FileAuthProvider) :
  domains (foldl (init_domain secret) f ds)
  = list_to_map (reverse (map (fun d => (TrimSpace d, GetStrategy secret)) ds))
    ∪ domains f /\
  Path (foldl (init_domain secret) f ds) = Path f.
Proof.
  revert f. induction ds as [|d ds IH]; intros f; simpl.
  - by rewrite (left_id_L ∅ (∪)).
  - destruct (IH (init_domain secret f d)) as [-> ->]. simpl. split; [|done].
    rewrite reverse_cons, list_to_map_app. simpl.
    by rewrite <- (assoc_L (∪)), <- insert_union_l, (left_id_L ∅ (∪)).
Qed.

Lemma init_secret_domains secrets (f : FileAuthProvider) :
  domains (foldl init_secret f secrets)
  = list_to_map (reverse (domain_entries secrets)) ∪ domains f /\
  Path (foldl init_secret f secrets) = Path f.
Proof.
  revert f. induction secrets as [|secret secrets IH]; intros f; simpl.
  - by rewrite (left_id_L ∅ (∪)).
  - destruct (IH (init_secret f secret)) as [-> ->]. unfold init_secret.
    destruct (init_domain_domains secret (Domains secret)
                (foldl (init_regex secret) f (DomainsRegex secret))) as [-> ->].
    destruct (init_regex_domains secret (DomainsRegex secret) f) as [-> ->].
    split; [|done].
    by rewrite reverse_app, list_to_map_app, (assoc_L (∪)).
Qed.

Lemma elem_of_domain_entries secrets key strategy :
  (key, strategy) ∈ domain_entries secrets <->
  exists secret domain,
    In secret secrets /\ In domain (Domains secret) /\
    key = TrimSpace domain /\ strategy = GetStrategy secret.
Proof.
  unfold domain_entries. rewrite list_elem_of_In, in_flat_map. split.
  - intros (secret & Hs & Hin). apply in_map_iff in Hin as (d & [= <- <-] & Hd).
    by exists secret, d.
  - intros (secret & d & Hs & Hd & -> & ->). exists secret. split; [done|].
    apply in_map_iff. by exists d.
Qed.

Lemma list_to_map_constant (l : list (string * AuthStrategy)) key strategy :
  key ∈ l.*1 -> (forall strategy', (key, strategy') ∈ l -> strategy' = strategy) ->
  (list_to_map l : gmap string AuthStrategy) !! key = Some strategy.
Proof.
  intros Hkey Hconst.
  destruct ((list_to_map l : gmap string AuthStrategy) !! key) as [strategy'|] eqn:Hl.
  - apply elem_of_list_to_map_2 in Hl. by rewrite (Hconst _ Hl).
  - by apply not_elem_of_list_to_map in Hl.
Qed.

(** X12.  The index of the exact domains that [NewFileAuthProvider] hands
    over.  Its keys are the declared domains with the surrounding space
    trimmed off.  A key that several secrets declare, or that one secret
    declares twice, is bound once: by the last secret that declares it, in
    the order of the file.  The provider keeps the path it was made
    from. *)
Theorem init_domains_last_wins path (f : FileAuthProvider) :
  NewFileAuthProvider path = inl f ->
  Path f = path /\
  (forall key,
     is_Some (domains f !! key) <->
     exists secret domain,
       In secret (Secrets (store f)) /\ In domain (Domains secret) /\
       key = TrimSpace domain) /\
  (forall pre secret post domain,
     Secrets (store f) = pre ++ secret :: post -> In domain (Domains secret) ->
     (forall later d,
        In later post -> In d (Domains later) -> TrimSpace d <> TrimSpace domain) ->
     domains f !! TrimSpace domain = Some (GetStrategy secret)).
Proof.
  intros (st & Hload & Hne & Hvalid & ->)%NewFileAuthProvider_inl. unfold init. simpl.
  destruct (init_secret_domains (Secrets st)
              {| Path := path; store := st; compiled := []; domains := ∅ |})
    as [Hdomains HPath].
  destruct (init_secret_fold (Secrets st)
              {| Path := path; store := st; compiled := []; domains := ∅ |})
    as [_ Hstore].
  rewrite Hdomains, HPath, Hstore. simpl. rewrite (right_id_L ∅ (∪)).
  split; [done|]. split.
  - intros key. rewrite <- not_eq_None_Some, <- not_elem_of_list_to_map.
    split.
    + intros Hin. destruct (decide (key ∈ (reverse (domain_entries (Secrets st))).*1))
        as [Hkey|Hkey]; [|done].
      apply list_elem_of_fmap in Hkey as ([key' strategy] & -> & Hkey).
      apply elem_of_reverse, elem_of_domain_entries in Hkey
        as (secret & d & Hs & Hd & -> & _). by exists secret, d.
    + intros (secret & d & Hs & Hd & ->) Hnot. apply Hnot.
      apply list_elem_of_fmap. exists (TrimSpace d, GetStrategy secret). split; [done|].
      apply elem_of_reverse, elem_of_domain_entries. by exists secret, d.
  - intros pre secret post domain -> Hd Hlater.
    unfold domain_entries. rewrite flat_map_app. simpl. rewrite !reverse_app.
    rewrite <- (assoc_L (++)), !list_to_map_app.
    rewrite lookup_union_r.
    + apply lookup_union_Some_l. apply list_to_map_constant.
      * apply list_elem_of_fmap. exists (TrimSpace domain, GetStrategy secret).
        split; [done|]. apply elem_of_reverse, list_elem_of_In, in_map_iff.
        by exists domain.
      * intros strategy' Hin. apply elem_of_reverse, list_elem_of_In, in_map_iff in Hin
          as (d & [= _ <-] & _). done.
    + apply not_elem_of_list_to_map. intros Hkey.
      apply list_elem_of_fmap in Hkey as ([key' strategy] & Heq & Hkey). simpl in Heq.
      rewrite elem_of_reverse in Hkey.
      assert ((key', strategy) ∈ domain_entries post) as Hpost by exact Hkey.
      apply elem_of_domain_entries in Hpost as (later & d & Hl & Hd' & -> & _).
      by apply (Hlater later d).
Qed.

End Lookup.

(** ** Runs *)

Import AuthScenario Runs.

Lemma LookupAddr_verbatim_witness :
  (LookupAddr exact_provider "api.example.com:8443" None
   <-> lookup_on exact_provider "api.example.com:8443" None) /\
  (LookupAddr exact_provider "2001:db8::1:443" None
   <-> lookup_on exact_provider "2001:db8::1:443" None).
Proof.
  destruct (LookupAddr_verbatim exact_provider) as (_ & Hport & Hcolons).
  split.
  - apply (Hport "api.example.com" "8443" None); try reflexivity; discriminate.
  - apply (Hcolons "2001:db8::1" "443" None); [by eexists|discriminate|reflexivity].
Defined.

Lemma LookupURL_bracketed_witness :
  (LookupURL exact_provider {| Host := "[::1]:443" |} None
   <-> lookup_on exact_provider "::1" None) /\
  (LookupURLX exact_provider
     {| embedded := {| Host := "[::1]:443" |}; Original := "https://[::1]:443/" |} None
   <-> lookup_on exact_provider "::1" None) /\
  (LookupAddr exact_provider "[::1]" None <-> lookup_on exact_provider "[::1]" None).
Proof.
  apply (LookupURL_bracketed exact_provider "::1" "443" {| Host := "[::1]:443" |}
           {| embedded := {| Host := "[::1]:443" |}; Original := "https://[::1]:443/" |}
           None); try reflexivity.
  by right.
Defined.

Lemma init_domains_last_wins_witness :
  exists f,
    NewFileAuthProvider (A := package more_files) "duplicate.yaml" = inl f /\
    domains f !! "api.example.com" = Some (Some (Basic "new" "n-secret")).
Proof.
  pose (f := init (A := package more_files)
               {| Path := "duplicate.yaml"; store := duplicate_file; compiled := [];
                  domains := ∅ |}).
  assert (NewFileAuthProvider (A := package more_files) "duplicate.yaml" = inl f) as Hnew
    by (vm_compute; reflexivity).
  exists f. split; [exact Hnew|].
  destruct (init_domains_last_wins (A := package more_files) "duplicate.yaml" f Hnew)
    as (_ & _ & Hlast).
  apply (Hlast [basic [" api.example.com"] [] "old" "o-secret"]
           (basic ["api.example.com "] [] "new" "n-secret") [] "api.example.com ").
  - reflexivity.
  - by left.
  - intros later d [].
Defined.

End AuthLookupFacts.

(* ===================================================================== *)
(** * Further facts about the DNS executor                                *)
(* ===================================================================== *)

Module DNSRunFacts.
Import Go Protocols DNS ProtocolFacts NetworkFacts Traces TraceFacts DNSInput.

Section Executor.
Context `{C : Collaborators}.
Variable request : Request.

(** ** One request *)

(** What [respond] returns: the event it has made, and no error. *)
Lemma respond_run compiledRequest response err domain question previous values ctx :
  exists traceData effs,
    let outputEvent := responseToDSLMap compiledRequest response domain question traceData in
    let ctx' := TemplateVars ctx outputEvent in
    let merged := copy_into (copy_into outputEvent previous) values in
    respond request compiledRequest response err domain question previous values ctx
    = (inl (Some (CreateEvent match ctx' with
                              | Some all => MergeMaps [merged; all]
                              | None => merged
                              end), None),
       [OutputRequest domain err;
        Log Verbose "[%s] Sent DNS request to %s" [TemplateID request; question] []]
       ++ effs ++ [AddTemplateVars outputEvent], ctx') /\
    Forall (fun e => exists e', e = OutputRequest domain (Some e')) effs.
Proof.
  unfold respond. destruct (Trace request).
  - destruct (Client_Trace defaultClient domain (TraceMaxRecursion request))
      as [traceData [e|]].
    + exists traceData, [OutputRequest domain (Some e)]. split; [|by repeat econstructor].
      run_steps. unfold AddTemplateVarsWith, GetTemplateCtx. simpl.
      by destruct (TemplateVars ctx _).
    + exists traceData, []. split; [|constructor].
      run_steps. unfold AddTemplateVarsWith, GetTemplateCtx. simpl.
      by destruct (TemplateVars ctx _).
  - exists None, []. split; [|constructor].
    run_steps. unfold AddTemplateVarsWith, GetTemplateCtx. simpl.
    by destruct (TemplateVars ctx _).
Qed.

Lemma reports_only domain effs :
  Forall (fun e => exists e', e = OutputRequest domain (Some e')) effs ->
  wire effs = [] /\ takes effs = 0 /\ sent effs = 0 /\ failed effs = 0 /\
  dials effs = [] /\ closes effs = 0 /\ published effs = [].
Proof.
  induction 1 as [|e effs [e' ->] _ (IH1 & IH2 & IH3 & IH4 & IH5 & IH6 & IH7)]; [done|].
  change (OutputRequest domain (Some e') :: effs)
    with ([OutputRequest domain (Some e')] ++ effs).
  by rewrite wire_app, takes_app, sent_app, failed_app, dials_app, closes_app,
    published_app, IH1, IH2, IH3, IH4, IH5, IH6, IH7.
Qed.

(** The part of [execute] that follows the checks for placeholders: the
    rate limiter, the query, the counters, and the event when a response
    has come. *)
Lemma execute_sent domain metadata previous values ctx compiledRequest dnsClient :
  Make domain values = inl compiledRequest ->
  client_of request metadata = inl dnsClient ->
  ContainsUnresolvedVariables [Msg_String compiledRequest] = None ->
  let question :=
    TrimSuffix match Msg_Question compiledRequest with
               | Some name => name
               | None => domain
               end "." in
  let counted err :=
    match err with
    | Some e => [OutputRequest (TrimSuffix domain ".") (Some e); IncrementFailedRequestsBy 1]
    | None => [IncrementRequests]
    end in
  execute request domain metadata previous values ctx
  = match Client_Do dnsClient compiledRequest with
    | (None, err) =>
        (inl (None, Wrap_nil err "could not send dns request"),
         [RateLimitTake; DNSQuery (Msg_String compiledRequest)] ++ counted err, ctx)
    | (Some response, err) =>
        match respond request compiledRequest response err (TrimSuffix domain ".") question
                previous values ctx with
        | (r, effs, ctx') =>
            (r, [RateLimitTake; DNSQuery (Msg_String compiledRequest)]
                ++ counted err ++ effs, ctx')
        end
    end.
Proof.
  intros Hmake Hclient Hreq question counted. unfold execute. rewrite Hmake.
  unfold client_of in Hclient. rewrite Hclient, Hreq.
  destruct (Client_Do dnsClient compiledRequest) as [[response|] [e|]]; run_steps;
    try done.
  - fold question. by destruct (respond _ _ _ _ _ _ _ _ ctx) as [[[r|p] effs] ctx'].
  - fold question. by destruct (respond _ _ _ _ _ _ _ _ ctx) as [[[r|p] effs] ctx'].
Qed.

(** [execute] returns, and has put at most one query on the wire. *)
Lemma execute_returns_wire domain metadata previous values ctx :
  exists r effs ctx',
    execute request domain metadata previous values ctx = (inl r, effs, ctx') /\
    length (wire effs) <= 1.
Proof.
  destruct (Make domain values) as [compiledRequest|err] eqn:Hmake;
    [|unfold execute; rewrite Hmake; eexists _, _, _; split; [done|simpl; lia]].
  destruct (client_of request metadata) as [dnsClient|varErr] eqn:Hclient;
    [|unfold execute; unfold client_of in Hclient; rewrite Hmake, Hclient;
      eexists _, _, _; split; [done|simpl; lia]].
  destruct (ContainsUnresolvedVariables [Msg_String compiledRequest]) as [varErr|] eqn:Hreq;
    [unfold execute; unfold client_of in Hclient; rewrite Hmake, Hclient, Hreq;
     eexists _, _, _; split; [done|simpl; lia]|].
  rewrite (execute_sent _ _ _ _ _ _ _ Hmake Hclient Hreq).
  destruct (Client_Do dnsClient compiledRequest) as [[response|] err].
  - match goal with |- context [respond request ?m ?r ?e ?d ?q ?p ?v ctx] =>
      destruct (respond_run m r e d q p v ctx) as (traceData & effs & Hrun & Hall) end.
    cbv zeta in Hrun. rewrite Hrun. eexists _, _, _. split; [done|].
    apply reports_only in Hall as (H1 & _). rewrite !wire_app, H1.
    destruct err; simpl; lia.
  - eexists _, _, _. split; [done|]. rewrite !wire_app. destruct err; simpl; lia.
Qed.

(** X13.  [execute] takes the rate limiter exactly when it puts a query on
    the wire, at most once, and just before: a request that is abandoned
    because it cannot be built, or because a placeholder is left in its
    resolvers or in its text, takes nothing.  A request that cannot be
    built is counted as failed; otherwise the request is counted, once,
    as sent or as failed, exactly when the query has gone.  [execute] does
    not panic, and it opens and closes no connection of its own. *)
Theorem execute_takes_before_query domain metadata previous values ctx :
  let run := execute request domain metadata previous values ctx in
  let effs := effects_of run in
  (exists r, value_of run = inl r) /\
  length (wire effs) <= 1 /\
  takes effs = length (wire effs) /\
  (forall q, wire effs = [q] -> exists rest, effs = RateLimitTake :: DNSQuery q :: rest) /\
  sent effs + failed effs
    = match Make domain values with
      | inr _ => 1
      | inl _ => length (wire effs)
      end /\
  dials effs = [] /\ closes effs = 0.
Proof.
  intros run effs. subst effs run.
  destruct (Make domain values) as [compiledRequest|err] eqn:Hmake;
    [|unfold execute; rewrite Hmake; simpl; repeat split; by eauto].
  destruct (client_of request metadata) as [dnsClient|varErr] eqn:Hclient;
    [|unfold execute; unfold client_of in Hclient; rewrite Hmake, Hclient; simpl;
      repeat split; by eauto].
  destruct (ContainsUnresolvedVariables [Msg_String compiledRequest]) as [varErr|] eqn:Hreq;
    [unfold execute; unfold client_of in Hclient; rewrite Hmake, Hclient, Hreq; simpl;
     repeat split; by eauto|].
  rewrite (execute_sent _ _ _ _ _ _ _ Hmake Hclient Hreq).
  destruct (Client_Do dnsClient compiledRequest) as [[response|] err].
  - match goal with |- context [respond request ?m ?r ?e ?d ?q ?p ?v ctx] =>
      destruct (respond_run m r e d q p v ctx) as (traceData & effs & Hrun & Hall) end.
    cbv zeta in Hrun. rewrite Hrun.
    apply reports_only in Hall as (H1 & H2 & H3 & H4 & H5 & H6 & _).
    unfold value_of, effects_of. cbn [fst snd]. split; [by eexists|].
    rewrite !wire_app, !takes_app, !sent_app, !failed_app, !dials_app, !closes_app,
      H1, H2, H3, H4, H5, H6.
    destruct err; simpl; repeat split; try done; try lia; intros q [= <-]; by eexists.
  - unfold value_of, effects_of. cbn [fst snd]. split; [by eexists|].
    rewrite !wire_app, !takes_app, !sent_app, !failed_app, !dials_app, !closes_app.
    destruct err; simpl; repeat split; try done; try lia; intros q [= <-]; by eexists.
Qed.

(** X14.  [execute] returns neither an event nor an error in these cases
    and no other: the request has been built, and either no client can be
    made for the resolvers of the execution, or the text of the request
    still has a placeholder, or the client has answered with neither a
    response nor an error. *)
Theorem execute_nil_nil domain metadata previous values ctx :
  value_of (execute request domain metadata previous values ctx) = inl (None, None) <->
  exists compiledRequest,
    Make domain values = inl compiledRequest /\
    match client_of request metadata with
    | inr _ => True
    | inl dnsClient =>
        is_Some (ContainsUnresolvedVariables [Msg_String compiledRequest]) \/
        Client_Do dnsClient compiledRequest = (None, None)
    end.
Proof.
  destruct (Make domain values) as [compiledRequest|err] eqn:Hmake;
    [|unfold execute; rewrite Hmake; split; [done|by intros (m & [=] & _)]].
  destruct (client_of request metadata) as [dnsClient|varErr] eqn:Hclient;
    [|unfold execute; unfold client_of in Hclient; rewrite Hmake, Hclient;
      split; [by exists compiledRequest|done]].
  destruct (ContainsUnresolvedVariables [Msg_String compiledRequest]) as [varErr|] eqn:Hreq.
  { unfold execute; unfold client_of in Hclient; rewrite Hmake, Hclient, Hreq.
    split; [|done]. intros _. exists compiledRequest. split; [done|]. left.
    rewrite Hreq. by eexists. }
  rewrite (execute_sent _ _ _ _ _ _ _ Hmake Hclient Hreq).
  destruct (Client_Do dnsClient compiledRequest) as [[response|] err] eqn:Hdo.
  - match goal with |- context [respond request ?m ?r ?e ?d ?q ?p ?v ctx] =>
      destruct (respond_run m r e d q p v ctx) as (traceData & effs & Hrun & Hall) end.
    cbv zeta in Hrun. rewrite Hrun. unfold value_of. simpl. split; [done|].
    intros (m & [= <-] & [Hun|Hnil]); [|by rewrite Hdo in Hnil].
    rewrite Hreq in Hun. by destruct Hun.
  - unfold value_of. simpl. split.
    + destruct err; [done|]. intros _. exists compiledRequest. split; [done|]. by right.
    + intros (m & [= <-] & [Hun|Hnil]).
      * rewrite Hreq in Hun. by destruct Hun.
      * rewrite Hdo in Hnil. by injection Hnil as ->.
Qed.

(** X15.  The event of a DNS request.  When [execute] returns an event
    its error is nil and it has put one query on the wire.  It has handed
    one response mapping to the template context, and the event holds that
    mapping with the entries of [previous] written over it and the
    variables of the request written over both; the variables of the
    template context, when the input has one, are merged over the whole.
    Without a template context a key of the event has the value of the
    variables, else of [previous], else of the response. *)
Theorem execute_event domain metadata previous values ctx ev err effs ctx' :
  execute request domain metadata previous values ctx = (inl (Some ev, err), effs, ctx') ->
  err = None /\ length (wire effs) = 1 /\
  exists outputEvent,
    published effs = [outputEvent] /\ ctx' = TemplateVars ctx outputEvent /\
    InternalEvent ev
    = match ctx' with
      | Some all => MergeMaps [values ∪ (previous ∪ outputEvent); all]
      | None => values ∪ (previous ∪ outputEvent)
      end /\
    (ctx' = None ->
     forall key,
       InternalEvent ev !! key
       = match values !! key with
         | Some v => Some v
         | None =>
             match previous !! key with
             | Some v => Some v
             | None => outputEvent !! key
             end
         end).
Proof.
  destruct (Make domain values) as [compiledRequest|e] eqn:Hmake;
    [|unfold execute; by rewrite Hmake].
  destruct (client_of request metadata) as [dnsClient|varErr] eqn:Hclient;
    [|unfold execute; unfold client_of in Hclient; by rewrite Hmake, Hclient].
  destruct (ContainsUnresolvedVariables [Msg_String compiledRequest]) as [varErr|] eqn:Hreq;
    [unfold execute; unfold client_of in Hclient; by rewrite Hmake, Hclient, Hreq|].
  rewrite (execute_sent _ _ _ _ _ _ _ Hmake Hclient Hreq).
  destruct (Client_Do dnsClient compiledRequest) as [[response|] cerr]; [|done].
  match goal with |- context [respond request ?m ?r ?e ?d ?q ?p ?v ctx] =>
    destruct (respond_run m r e d q p v ctx) as (traceData & reports & Hrun & Hall);
    set (outputEvent := responseToDSLMap m r d q traceData) in * end.
  cbv zeta in Hrun. rewrite Hrun. cbv beta iota. intros Heq.
  match type of Heq with (inl (Some ?E, _), ?L, ?K) = _ =>
    assert (ev = E) as -> by congruence; assert (err = None) as -> by congruence;
    assert (effs = L) as -> by congruence; assert (ctx' = K) as -> by congruence
  end. clear Heq.
  apply reports_only in Hall as (H1 & _ & _ & _ & _ & _ & H7).
  split; [done|]. split.
  { rewrite !wire_app, H1. by destruct cerr. }
  exists outputEvent. split.
  { rewrite !published_app, H7. by destruct cerr. }
  split; [done|]. split; [done|].
  intros ->. intros key. simpl. unfold copy_into. rewrite !lookup_union.
  destruct (values !! key), (previous !! key), (outputEvent !! key); done.
Qed.

End Executor.

(** ** From the input to the results *)

Section Results.
Context `{C : Collaborators} `{T : InputTools}.
Variable template : Template.

Lemma run_payloads_results domain metadata previous variables values results errs ctx :
  exists events errs' effs ctx',
    run_payloads template domain metadata previous variables values results errs ctx
      = (inl (results ++ Network.results_of events, errs ++ errs'), effs, ctx') /\
    length events = length values /\ length (wire effs) <= length values.
Proof.
  revert results errs ctx.
  induction values as [|value values IH]; intros results errs ctx; simpl.
  - exists [], [], [], ctx. by rewrite !app_nil_r.
  - destruct (execute_returns_wire (request template) domain metadata previous
                (MergeMaps [variables; value]) ctx)
      as ([event err] & e1 & ctx1 & Hexec & Hwire).
    unfold mbind, M_bind. rewrite Hexec.
    match goal with |- context [run_payloads _ _ _ _ _ values ?rs ?es ctx1] =>
      destruct (IH rs es ctx1) as (events & errs' & e2 & ctx2 & -> & Hlen & Hwire2) end.
    exists (event :: events), (match err with Some e => [e] | None => [] end ++ errs'),
      (e1 ++ e2), ctx2.
    split; [|split; [simpl; lia|rewrite wire_app, length_app; simpl; lia]].
    destruct err; by rewrite <- ?app_assoc.
Qed.

(** X16.  [ExecuteWithResults] does not panic.  Without a payload iterator
    it delivers one result: the outcome of the request, an event or nil,
    or an error.  With a payload iterator it delivers one result for each
    payload, whether or not the request of the payload has failed, and
    after them one result with the combined error when some request has
    failed.  An error comes at most once, and last, and no more queries go
    on the wire than there are payloads. *)
Theorem ExecuteWithResults_result_per_payload input metadata previous ctx :
  exists events tail effs ctx',
    ExecuteWithResults template input metadata previous ctx
      = (inl (Network.results_of events ++ tail), effs, ctx') /\
    (tail = [] \/ exists e, tail = [{| Event := None; Error := Some e |}]) /\
    length (wire effs) <= dispatched template /\
    match generator template with
    | None => length events + length tail = 1
    | Some values =>
        forall domain,
          parseDNSInput template (input_domain input) = inl domain ->
          syncutil_New (Threads template) = None ->
          length events = length values
    end.
Proof.
  unfold ExecuteWithResults, execute_group, dispatched.
  destruct (parseDNSInput template (input_domain input)) as [domain|err].
  - rewrite bind_assoc. unfold mbind at 1, M_bind at 1, GetTemplateCtx.
    set (variables := domain_variables template domain metadata ctx).
    destruct (generator template) as [values|].
    + destruct (syncutil_New (Threads template)) as [err|].
      * exists [], [{| Event := None; Error := Some err |}], [], ctx.
        split; [done|]. split; [right; by eexists|]. split; [simpl; lia|done].
      * destruct (run_payloads_results domain metadata previous variables values [] [] ctx)
          as (events & errs & effs & ctx' & Hrun & Hlen & Hwire).
        simpl in Hrun. unfold mbind, M_bind. rewrite Hrun. unfold mret, M_ret. simpl.
        destruct (Combine errs) as [e|].
        -- eexists events, [{| Event := None; Error := Some e |}], _, ctx'.
           split; [reflexivity|]. split; [right; by eexists|].
           rewrite !app_nil_r. split; [done|]. by intros d [= <-] _.
        -- eexists events, [], _, ctx'. rewrite !app_nil_r.
           split; [reflexivity|]. split; [by left|]. split; [done|]. by intros d [= <-] _.
    + destruct (execute_returns_wire (request template) domain metadata previous
                  variables ctx) as ([event err] & effs & ctx' & Hexec & Hwire).
      unfold mbind, M_bind. rewrite Hexec. unfold mret, M_ret.
      destruct err as [e|]; simpl.
      * eexists [], [{| Event := None; Error := Some e |}], _, ctx'.
        rewrite !app_nil_r. split; [reflexivity|]. split; [right; by eexists|]. done.
      * eexists [event], [], _, ctx'. rewrite !app_nil_r.
        split; [reflexivity|]. split; [by left|]. done.
  - exists [], [{| Event := None; Error := Some (Wrap err "could not build request") |}],
      [], ctx.
    split; [done|]. split; [right; by eexists|]. split; [simpl; lia|].
    destruct (generator template); [done|done].
Qed.

(** X17.  What becomes of the input.  An input that is an IP address is
    refused for any question but a PTR question: the execution delivers
    one result, with the error, and has no effect.  A domain that
    [parseDNSInput] accepts is the reverse name of an IP address, for a
    PTR question, or the fully qualified form of a name that is no IP
    address.  And a URL that cannot be parsed is no error: the execution
    goes on as for the empty input. *)
Theorem dns_input_refused input metadata previous ctx :
  (IsIP (input_domain input) = true -> question template <> TypePTR ->
   ExecuteWithResults template input metadata previous ctx
   = (inl [{| Event := None;
              Error := Some (Wrap (New "cannot use IP address as DNS input")
                               "could not build request") |}], [], ctx)) /\
  (forall domain,
     parseDNSInput template (input_domain input) = inl domain ->
     (IsIP (input_domain input) = true /\ question template = TypePTR /\
      ReverseAddr (input_domain input) = inl domain) \/
     (IsIP (input_domain input) = false /\ domain = Fqdn (input_domain input))) /\
  (IsURL input = true -> (exists e, url_Parse_Hostname input = inr e) -> IsURL "" = false ->
   ExecuteWithResults template input metadata previous ctx
   = ExecuteWithResults template "" metadata previous ctx).
Proof.
  split; [|split].
  - intros Hip Hq. unfold ExecuteWithResults, execute_group, parseDNSInput.
    rewrite Hip, bool_decide_eq_false_2 by done. done.
  - intros domain. unfold parseDNSInput.
    destruct (IsIP (input_domain input)); case_bool_decide; simpl.
    + destruct (ReverseAddr (input_domain input)); [|done]. intros [= <-]. by left.
    + done.
    + intros [= <-]. by right.
    + intros [= <-]. by right.
  - intros Hurl [e He] Hempty.
    assert (input_domain input = input_domain "") as Hsame.
    { unfold input_domain, extractDomain. by rewrite Hurl, He, Hempty. }
    unfold ExecuteWithResults, execute_group. by rewrite Hsame.
Qed.

End Results.

(** ** Runs *)

Import Scenario Runs.

Lemma execute_event_witness :
  exists ev effs outputEvent,
    execute (C := dns "{{FQDN}}" zone) dns_request "example.com." ∅ ∅ ∅ None
      = (inl (Some ev, None), effs, None) /\
    length (wire effs) = 1 /\
    published effs = [outputEvent] /\
    InternalEvent ev !! "host" = outputEvent !! "host".
Proof.
  assert (exists ev effs,
            execute (C := dns "{{FQDN}}" zone) dns_request "example.com." ∅ ∅ ∅ None
            = (inl (Some ev, None), effs, None)) as (ev & effs & Hrun)
    by (eexists _, _; vm_compute; reflexivity).
  destruct (execute_event (C := dns "{{FQDN}}" zone) dns_request "example.com." ∅ ∅ ∅
              None ev None effs None Hrun)
    as (_ & Hwire & outputEvent & Hpub & _ & _ & Hkeys).
  exists ev, effs, outputEvent. split; [exact Hrun|]. split; [exact Hwire|].
  split; [exact Hpub|]. exact (Hkeys eq_refl "host").
Defined.

Lemma ExecuteWithResults_result_per_payload_witness :
  let template :=
    dns_template 1 (Some [{["sub" := VString "www"]}; {["sub" := VString "mail"]}]) in
  exists events tail effs ctx',
    ExecuteWithResults (C := dns "{{sub}}.{{FQDN}}" zone) (T := dns_tools) template
      "example.com" ∅ ∅ None
      = (inl (Network.results_of events ++ tail), effs, ctx') /\
    (tail = [] \/ exists e, tail = [{| Event := None; Error := Some e |}]) /\
    length (wire effs) <= 2 /\
    length events = 2.
Proof.
  intros template.
  destruct (ExecuteWithResults_result_per_payload (C := dns "{{sub}}.{{FQDN}}" zone)
              (T := dns_tools) template "example.com" ∅ ∅ None)
    as (events & tail & effs & ctx' & Hrun & Htail & Hwire & Hlen).
  exists events, tail, effs, ctx'. split; [exact Hrun|]. split; [exact Htail|].
  split; [exact Hwire|]. exact (Hlen "example.com." eq_refl eq_refl).
Defined.

Lemma dns_input_refused_witness :
  ExecuteWithResults (C := dns "{{FQDN}}" zone) (T := dns_tools) (dns_template 1 None)
    "192.0.2.1" ∅ ∅ None
  = (inl [{| Event := None;
             Error := Some (Wrap (New "cannot use IP address as DNS input")
                              "could not build request") |}], [], None) /\
  ExecuteWithResults (C := dns "{{FQDN}}" zone) (T := dns_tools) (dns_template 1 None)
    "http://exa mple.com/" ∅ ∅ None
  = ExecuteWithResults (C := dns "{{FQDN}}" zone) (T := dns_tools) (dns_template 1 None)
      "" ∅ ∅ None.
Proof.
  destruct (dns_input_refused (C := dns "{{FQDN}}" zone) (T := dns_tools)
              (dns_template 1 None) "192.0.2.1" ∅ ∅ None) as (Hip & _ & _).
  destruct (dns_input_refused (C := dns "{{FQDN}}" zone) (T := dns_tools)
              (dns_template 1 None) "http://exa mple.com/" ∅ ∅ None) as (_ & _ & Hurl).
  split.
  - apply Hip; [reflexivity|]. unfold TypePTR. simpl. lia.
  - apply Hurl; [reflexivity| |reflexivity]. eexists. reflexivity.
Defined.

End DNSRunFacts.

(* ===================================================================== *)
(** * Further facts about the port of the payload                         *)
(* ===================================================================== *)

Module HTTPPortFacts.
Import Go GoFacts StringFacts HTTP.

(** ** Prefixes and first occurrences *)

Lemma Index_eq s substr :
  Index s substr
  = if HasPrefix s substr then Some 0
    else match s with
         | EmptyString => None
         | String _ s' => S <$> Index s' substr
         end.
Proof. by destruct s. Qed.

Lemma first_port_eq data :
  first_port data
  = let here :=
      if HasPrefix data BaseURLColon
      then digits (str_drop (String.length BaseURLColon) data) else "" in
    if negb (String.eqb here "") then Some here
    else match data with
         | EmptyString => None
         | String _ rest => first_port rest
         end.
Proof. by destruct data. Qed.

Lemma HasPrefix_app p t : HasPrefix (p ++ t) p = true.
Proof.
  induction p as [|a p IH]; [apply HasPrefix_empty|].
  rewrite append_String. simpl. by rewrite Ascii.eqb_refl, IH.
Qed.

Lemma HasPrefix_split s p : HasPrefix s p = true -> s = (p ++ str_drop (String.length p) s)%string.
Proof.
  revert s. induction p as [|a p IH]; intros s; [by destruct s|].
  destruct s as [|c s]; [done|]. simpl.
  intros [Hac Hp]%andb_true_iff. apply Ascii.eqb_eq in Hac as ->.
  rewrite append_String. f_equal. by apply IH.
Qed.

(** A prefix that ends with a byte it has not before puts the first
    occurrence of that byte at its end. *)
Lemma HasPrefix_IndexByte s p c :
  HasPrefix s (p ++ String c "") = true -> IndexByte p c = None ->
  IndexByte s c = Some (String.length p).
Proof.
  revert s. induction p as [|a p IH]; intros s.
  - destruct s as [|b s]; [done|]. simpl.
    intros [Hcb _]%andb_true_iff _. apply Ascii.eqb_eq in Hcb as ->.
    by rewrite Ascii.eqb_refl.
  - destruct s as [|b s]; [done|]. rewrite append_String. simpl.
    intros [Hab Hp]%andb_true_iff. apply Ascii.eqb_eq in Hab as ->.
    destruct (Ascii.eqb b c); [done|].
    destruct (IndexByte p c) eqn:Hpc; [done|]. intros _. by rewrite (IH s Hp).
Qed.

(** The first occurrence of a text that begins with a byte, after a text
    without that byte. *)
Lemma Index_after s c t sub :
  IndexByte s c = None -> HasPrefix t sub = true ->
  Index (s ++ String c t) (String c sub) = Some (String.length s).
Proof.
  intros Hs Ht. induction s as [|a s IH].
  - rewrite Index_eq. simpl. by rewrite Ascii.eqb_refl, Ht.
  - rewrite Index_eq, append_String. simpl in Hs |- *.
    destruct (Ascii.eqb a c) eqn:Hac; [done|].
    rewrite (Ascii.eqb_sym c a), Hac. simpl.
    destruct (IndexByte s c); [done|]. by rewrite IH.
Qed.

Lemma Index_occurs a sub b : is_Some (Index (a ++ sub ++ b) sub).
Proof.
  induction a as [|c a IH].
  - change ("" ++ sub ++ b)%string with (sub ++ b)%string.
    rewrite Index_eq, HasPrefix_app. by eexists.
  - rewrite Index_eq, append_String.
    destruct (HasPrefix (String c (a ++ sub ++ b)) sub); [by eexists|].
    destruct IH as [i ->]. by eexists.
Qed.

(** The text around a first occurrence. *)
Lemma Index_split s sub i :
  Index s sub = Some i ->
  s = (str_take i s ++ sub ++ str_drop (i + String.length sub) s)%string /\
  String.length (str_take i s) = i.
Proof.
  revert i. induction s as [|a s IH]; intros i; rewrite Index_eq.
  - destruct (HasPrefix "" sub) eqn:Hp; [|done]. intros [= <-].
    split; [|done]. simpl. by apply HasPrefix_split.
  - destruct (HasPrefix (String a s) sub) eqn:Hp.
    + intros [= <-]. split; [|done]. simpl str_take. by apply HasPrefix_split.
    + destruct (Index s sub) as [j|] eqn:Hj; [|done]. intros [= <-].
      destruct (IH j eq_refl) as [Hs Hlen]. simpl. rewrite Hlen. split; [|done].
      rewrite append_String. by f_equal.
Qed.

(** ** The token of the port *)

Lemma digits_split s : s = (digits s ++ str_drop (String.length (digits s)) s)%string.
Proof.
  induction s as [|c s IH]; [done|]. simpl. destruct (is_digit c); [|done].
  rewrite append_String. simpl. by f_equal.
Qed.

Lemma digits_idem s : digits (digits s) = digits s.
Proof.
  induction s as [|c s IH]; [done|]. simpl. destruct (is_digit c) eqn:Hc; [|done].
  simpl. by rewrite Hc, IH.
Qed.

(** A port that [first_port] finds stands in the text, after a token
    [{{BaseURL}}:], and is the longest run of digits there. *)
Lemma first_port_Some data port :
  first_port data = Some port ->
  exists pre post,
    data = (pre ++ BaseURLColon ++ port ++ post)%string /\
    port <> "" /\ digits (port ++ post) = port.
Proof.
  induction data as [|c data IH]; rewrite first_port_eq; cbv zeta.
  - by simpl.
  - destruct (HasPrefix (String c data) BaseURLColon) eqn:Hp.
    + set (rest := str_drop (String.length BaseURLColon) (String c data)).
      destruct (String.eqb_spec (digits rest) "") as [Hnone|Hsome]; simpl.
      * intros (pre & post & -> & Hne & Hd)%IH. by exists (String c pre), post.
      * intros [= <-]. exists "", (str_drop (String.length (digits rest)) rest).
        rewrite <- digits_split. split; [|done]. by apply HasPrefix_split.
    + simpl. intros (pre & post & -> & Hne & Hd)%IH. by exists (String c pre), post.
Qed.

(** The token that follows a text without colon is the one [first_port]
    finds. *)
Lemma first_port_leftmost pre port post :
  IndexByte pre ":" = None -> port <> "" -> digits (port ++ post) = port ->
  first_port (pre ++ BaseURLColon ++ port ++ post) = Some port.
Proof.
  intros Hpre Hne Hd. induction pre as [|c pre IH]; rewrite first_port_eq; cbv zeta.
  - change ("" ++ BaseURLColon ++ port ++ post)%string
      with (BaseURLColon ++ port ++ post)%string.
    rewrite HasPrefix_app, str_drop_app, Hd.
    by destruct (String.eqb_spec port "").
  - assert (HasPrefix (String c pre ++ BaseURLColon ++ port ++ post) BaseURLColon = false)
      as ->.
    { destruct (HasPrefix _ BaseURLColon) eqn:Hp; [|done]. exfalso.
      apply (HasPrefix_IndexByte _ "{{BaseURL}}" ":") in Hp; [|done].
      assert (IndexByte (String c pre ++ BaseURLColon ++ port ++ post) ":"
              = Some (String.length (String c pre ++ "{{BaseURL}}"))) as Hfirst.
      { replace (String c pre ++ BaseURLColon ++ port ++ post)%string
          with ((String c pre ++ "{{BaseURL}}") ++ String ":" (port ++ post))%string
          by (by rewrite append_assoc).
        apply IndexByte_app_first. by apply IndexByte_app_None. }
      rewrite Hfirst in Hp. injection Hp as Hp. rewrite length_append in Hp.
      simpl in Hp. lia. }
    simpl. apply IH. simpl in Hpre. destruct (Ascii.eqb c ":"); [done|].
    by destruct (IndexByte pre ":").
Qed.

Section Port.
Context `{UrlUtil}.

(** X18.  When nothing but colon-free text precedes the token in the
    template, [UsePortFromPayload] does what its comment says: the URL
    gets the port of the token, and the template loses the colon and the
    port of that token, and nothing else. *)
Theorem UsePortFromPayload_first_colon (parsed : URL) pre port post :
  IndexByte pre ":" = None -> port <> "" -> digits (port ++ post) = port ->
  UsePortFromPayload parsed (pre ++ "{{BaseURL}}:" ++ port ++ post)
  = (UpdatePort parsed port, (pre ++ "{{BaseURL}}" ++ post)%string).
Proof.
  intros Hpre Hne Hd. unfold UsePortFromPayload.
  change "{{BaseURL}}:" with BaseURLColon.
  rewrite (first_port_leftmost pre port post Hpre Hne Hd). f_equal.
  unfold Replace1.
  replace (pre ++ BaseURLColon ++ port ++ post)%string
    with ((pre ++ "{{BaseURL}}") ++ String ":" (port ++ post))%string
    by (by rewrite append_assoc).
  change (":" ++ port)%string with (String ":" port).
  rewrite (Index_after (pre ++ "{{BaseURL}}") ":" (port ++ post) port);
    [|by apply IndexByte_app_None|apply HasPrefix_app].
  rewrite str_take_app. simpl String.length.
  replace ((pre ++ "{{BaseURL}}") ++ String ":" (port ++ post))%string
    with (((pre ++ "{{BaseURL}}") ++ String ":" port) ++ post)%string
    by (by rewrite !append_assoc).
  replace (String.length (pre ++ "{{BaseURL}}") + S (String.length port))
    with (String.length ((pre ++ "{{BaseURL}}") ++ String ":" port))
    by (rewrite (length_append _ (String ":" port)); simpl; lia).
  rewrite str_drop_app. by rewrite append_assoc.
Qed.

(** X19.  What [UsePortFromPayload] takes out of the template.  The port
    it hands to the URL is a string of digits, not empty; the text it
    returns is the text it was given with the first occurrence of the
    colon and that port cut out, wherever that occurrence stands, so the
    text gets shorter by the length of the port and one.  Without a token
    the URL and the text are returned as they came. *)
Theorem UsePortFromPayload_cuts_first (parsed : URL) data :
  match first_port data with
  | None => UsePortFromPayload parsed data = (parsed, data)
  | Some port =>
      port <> "" /\ digits port = port /\
      exists before after,
        data = (before ++ ":" ++ port ++ after)%string /\
        Index data (":" ++ port) = Some (String.length before) /\
        UsePortFromPayload parsed data = (UpdatePort parsed port, (before ++ after)%string) /\
        String.length data = String.length (before ++ after) + String.length port + 1
  end.
Proof.
  unfold UsePortFromPayload. destruct (first_port data) as [port|] eqn:Hport; [|done].
  apply first_port_Some in Hport as (pre & post & Hdata & Hne & Hd).
  split; [done|]. split; [by rewrite <- Hd, digits_idem|].
  destruct (Index_occurs (pre ++ "{{BaseURL}}") (":" ++ port) post) as [i Hi].
  replace ((pre ++ "{{BaseURL}}") ++ (":" ++ port) ++ post)%string with data in Hi
    by (by rewrite Hdata, !append_assoc).
  destruct (Index_split _ _ _ Hi) as [Hsplit Hlen].
  exists (str_take i data), (str_drop (i + String.length (":" ++ port)) data).
  rewrite Hlen. split; [by rewrite append_assoc in Hsplit|]. split; [done|].
  unfold Replace1. rewrite Hi. split; [done|].
  rewrite Hsplit at 1. rewrite !length_append. simpl. lia.
Qed.

End Port.

(** ** Runs *)

Lemma UsePortFromPayload_first_colon_witness :
  UsePortFromPayload (H := plain_urls)
    {| Scheme := "http"; Hostname := "example.com"; UrlPort := "80"; Path := "" |}
    "GET {{BaseURL}}:8080/admin"
  = ({| Scheme := "http"; Hostname := "example.com"; UrlPort := "8080"; Path := "" |},
     "GET {{BaseURL}}/admin").
Proof.
  apply (UsePortFromPayload_first_colon (H := plain_urls)
           {| Scheme := "http"; Hostname := "example.com"; UrlPort := "80"; Path := "" |}
           "GET " "8080" "/admin"); [reflexivity|discriminate|reflexivity].
Defined.

End HTTPPortFacts.

(* ===================================================================== *)
(** * Facts about the JSONL exporter                                      *)
(* ===================================================================== *)

Module JSONLFacts.
Import Go JSONL.

Section Exporter.
Context {ResultEvent : Type} `{F : Files ResultEvent}.

Lemma exported_rows (exporter : @Exporter ResultEvent) events :
  rows (exported exporter events) = rows exporter ++ events /\
  options (exported exporter events) = options exporter.
Proof.
  revert exporter. induction events as [|event events IH]; intros exporter.
  - simpl. by rewrite app_nil_r.
  - change (exported exporter (event :: events))
      with (exported (Export exporter event).1 events).
    destruct (IH (Export exporter event).1) as [-> ->]. simpl.
    by rewrite <- app_assoc.
Qed.

Lemma written_app (effs1 effs2 : list file_effect) :
  written (effs1 ++ effs2) = written effs1 ++ written effs2.
Proof. unfold written. by rewrite omap_app. Qed.

Lemma written_writes objs : written (map FileWrite objs) = objs.
Proof. induction objs as [|obj objs IH]; [done|]. simpl. by rewrite IH. Qed.

Lemma closed_writes objs : closed (map FileWrite objs) = false.
Proof. by induction objs. Qed.

(** The loop over the rows when every row marshals and every write
    succeeds. *)
Lemma write_rows_all pending objs n :
  Forall2 (fun row obj => Marshal row = inl obj) pending objs ->
  (forall i obj, objs !! i = Some obj -> Write (n + i) obj = None) ->
  write_rows pending n = (map FileWrite objs, None).
Proof.
  intros Hall. revert n. induction Hall as [|row obj pending objs Hrow _ IH]; intros n Hw.
  - done.
  - simpl. rewrite Hrow. rewrite <- (Nat.add_0_r n) at 1. rewrite (Hw 0 obj eq_refl).
    rewrite IH; [done|]. intros i o Hi. replace (S n + i) with (n + S i) by lia.
    by apply Hw.
Qed.

(** What the loop has written is what a first part of the rows marshals
    to; it does not close the file; it fails when a row does not
    marshal. *)
Lemma write_rows_prefix pending n :
  let run := write_rows pending n in
  (exists k, Forall2 (fun row obj => Marshal row = inl obj) (take k pending)
               (written run.1)) /\
  (run.2 = None ->
   Forall2 (fun row obj => Marshal row = inl obj) pending (written run.1)) /\
  closed run.1 = false /\
  (forall row err, In row pending -> Marshal row = inr err -> is_Some run.2).
Proof.
  revert n. induction pending as [|row rest IH]; intros n; simpl.
  - split; [exists 0; constructor|]. split; [constructor|]. split; [done|]. by intros ? ? [].
  - destruct (Marshal row) as [obj|err] eqn:Hrow; simpl.
    + destruct (Write n obj) as [werr|]; simpl.
      * split; [exists 1; simpl; by repeat constructor|].
        split; [done|]. split; [done|]. by eauto.
      * destruct (IH (S n)) as ((k & Hk) & Hall & Hclosed & Hfail).
        destruct (write_rows rest (S n)) as [effs result]. simpl in *.
        split; [exists (S k); by constructor|]. split; [intros Hr; by constructor; auto|].
        split; [done|]. intros row' err' [<-|Hin] Hm; [congruence|by eapply Hfail].
    + split; [exists 0; constructor|]. split; [done|]. split; [done|]. by eauto.
Qed.

(** X20.  An exporter keeps the events in the order they are exported,
    and [Export] reports no error.  When the file opens, every row
    marshals and every write succeeds, [Close] opens the file once, writes
    the rows in that order, each as the text [json.Marshal] gives for it
    and nothing between two rows, and closes the file; its error is the
    wrapped error of the close, if any.  [Close] leaves the rows in the
    exporter. *)
Theorem Close_writes_rows_in_order (options : Options) events objs :
  let exporter := exported {| options := options; rows := [] |} events in
  New options = inl {| options := options; rows := @nil ResultEvent |} /\
  rows exporter = events /\
  (forall (e : @Exporter ResultEvent) event, (Export e event).2 = None) /\
  (OpenFile (File options) = None ->
   Forall2 (fun row obj => Marshal row = inl obj) events objs ->
   (forall i obj, objs !! i = Some obj -> Write i obj = None) ->
   Close exporter
   = (FileOpen (File options) :: map FileWrite objs ++ [FileClose],
      match CloseFile with
      | Some err => Some (Wrap err "failed to close JSONL file")
      | None => None
      end)).
Proof.
  intros exporter.
  destruct (exported_rows {| options := options; rows := [] |} events) as [Hrows Hopts].
  fold exporter in Hrows, Hopts. simpl in Hrows, Hopts.
  split; [done|]. split; [done|]. split; [done|].
  intros Hopen Hall Hwrites. unfold Close. rewrite Hopts, Hrows, Hopen.
  by rewrite (write_rows_all events objs 0 Hall Hwrites).
Qed.

(** X21.  Whatever happens, what [Close] has written is what a first part
    of the rows marshals to, in order.  A [Close] that returns a nil error
    has opened the file, written every row and closed the file.  But when
    the file does not open, a row does not marshal or a write fails,
    [Close] returns the error at once: it has not closed the file, which
    keeps the rows written so far. *)
Theorem Close_writes_a_prefix (exporter : @Exporter ResultEvent) :
  let run := Close exporter in
  (exists k, Forall2 (fun row obj => Marshal row = inl obj) (take k (rows exporter))
               (written run.1)) /\
  (run.2 = None ->
   closed run.1 = true /\ OpenFile (File (JSONL.options exporter)) = None /\
   CloseFile = None /\
   Forall2 (fun row obj => Marshal row = inl obj) (rows exporter) (written run.1)) /\
  (closed run.1 = true ->
   Forall2 (fun row obj => Marshal row = inl obj) (rows exporter) (written run.1)) /\
  (forall row err,
     In row (rows exporter) -> Marshal row = inr err ->
     closed run.1 = false /\ is_Some run.2).
Proof.
  unfold Close.
  destruct (OpenFile (File (JSONL.options exporter))) as [oerr|] eqn:Hopen; simpl.
  { split; [exists 0; simpl; constructor|]. split; [done|]. split; [done|].
    by eauto. }
  destruct (write_rows_prefix (rows exporter) 0) as ((k & Hk) & Hall & Hclosed & Hfail).
  destruct (write_rows (rows exporter) 0) as [effs [err|]]; simpl in *.
  - split; [by exists k|]. split; [done|]. split; [by rewrite Hclosed|].
    intros row e Hin Hm. split; [done|by eauto].
  - change (FileOpen ?p :: effs ++ [FileClose]) with ([FileOpen p] ++ effs ++ [FileClose]).
    rewrite !written_app. simpl. rewrite app_nil_r.
    assert (closed ([FileOpen (File (JSONL.options exporter))] ++ effs ++ [FileClose]) = true)
      as Hc by (unfold closed; rewrite !existsb_app; simpl; by rewrite orb_true_r).
    split; [by exists k|]. split.
    + destruct CloseFile; [done|]. intros _. by auto.
    + split; [by auto|]. intros row e Hin Hm. by destruct (Hfail row e Hin Hm).
Qed.

End Exporter.

(** ** Runs *)

Import Runs.

Lemma Close_writes_rows_in_order_witness :
  Close (F := json_files 5)
    (exported {| options := {| File := "out.jsonl" |}; rows := [] |} ["cve-1"; "cve-2"])
  = ([FileOpen "out.jsonl"; FileWrite "{template-id:cve-1}";
      FileWrite "{template-id:cve-2}"; FileClose], None).
Proof.
  destruct (Close_writes_rows_in_order (F := json_files 5) {| File := "out.jsonl" |}
              ["cve-1"; "cve-2"] ["{template-id:cve-1}"; "{template-id:cve-2}"])
    as (_ & _ & _ & Hclose).
  apply Hclose.
  - reflexivity.
  - repeat constructor.
  - intros [|[|i]] obj; simpl; [intros [= <-]; reflexivity..|discriminate].
Defined.

Lemma Close_writes_a_prefix_witness :
  let run :=
    Close (F := json_files 5)
      {| options := {| File := "out.jsonl" |}; rows := ["cve-1"; ""; "cve-3"] |} in
  closed run.1 = false /\ is_Some run.2 /\ written run.1 = ["{template-id:cve-1}"].
Proof.
  intros run.
  destruct (Close_writes_a_prefix (F := json_files 5)
              {| options := {| File := "out.jsonl" |}; rows := ["cve-1"; ""; "cve-3"] |})
    as (_ & _ & _ & Hfail).
  destruct (Hfail "" (Go.New "json: unsupported value")) as [Hclosed Herr].
  - right. by left.
  - reflexivity.
  - split; [exact Hclosed|]. split; [exact Herr|reflexivity].
Defined.

End JSONLFacts.

(* ===================================================================== *)
(** * Facts about the check sums of the installer                         *)
(* ===================================================================== *)

Module InstallerFacts.
Import Go GoFacts StringFacts Installer.

(** ** The changes between two maps of check sums *)

Lemma omap_cons_eq {A B : Type} (f : A -> option B) x l :
  omap f (x :: l)
  = match f x with
    | Some y => y :: omap f l
    | None => omap f l
    end.
Proof. done. Qed.

Lemma scan_new_omap old visited additions modifications :
  scan_new old visited additions modifications
  = (additions ++ omap (added old) visited, modifications ++ omap (modified old) visited).
Proof.
  revert additions modifications.
  induction visited as [|[k v] rest IH]; intros additions modifications.
  - simpl. by rewrite !app_nil_r.
  - rewrite !omap_cons_eq. unfold added at 1, modified at 1. simpl.
    destruct (old !! k) as [oldv|].
    + destruct (String.eqb oldv v); rewrite IH; [done|]. by rewrite <- app_assoc.
    + rewrite IH. by rewrite <- app_assoc.
Qed.

Lemma scan_old_omap new visited deletions :
  scan_old new visited deletions = deletions ++ omap (deleted new) visited.
Proof.
  revert deletions. induction visited as [|[k v] rest IH]; intros deletions.
  - simpl. by rewrite app_nil_r.
  - rewrite omap_cons_eq. unfold deleted at 1. simpl.
    destruct (new !! k); rewrite IH; [done|]. by rewrite <- app_assoc.
Qed.

Lemma elem_of_visited (m : checksums) order k v :
  order ≡ₚ map_to_list m -> ((k, v) ∈ order <-> m !! k = Some v).
Proof. intros ->. apply elem_of_map_to_list. Qed.

Lemma omap_nil_iff {A B : Type} (f : A -> option B) l :
  omap f l = [] <-> forall x, x ∈ l -> f x = None.
Proof.
  induction l as [|x l IH]; [split; [by intros _ ? ?%elem_of_nil|done]|].
  rewrite omap_cons_eq. split.
  - destruct (f x) eqn:Hx; [done|]. intros Hl y [->|Hy]%elem_of_cons; [done|].
    by apply IH.
  - intros Hall. rewrite (Hall x) by (by left). apply IH. intros y Hy.
    apply Hall. by right.
Qed.

(** X22.  The summary of the changes between the check sums [old] and
    [new], whatever the order in which the maps are visited.  The
    additions are the paths of [new] that [old] does not have, the
    modifications the paths of both whose check sums differ, the deletions
    the paths of [old] that [new] does not have; the total is the number of
    all of them, and it is zero exactly when the two maps are equal. *)
Theorem summarizeChanges_classifies old new r :
  summarizeChanges old new r ->
  (forall k, k ∈ additions r <-> is_Some (new !! k) /\ old !! k = None) /\
  (forall k, k ∈ modifications r <->
     exists v oldv, new !! k = Some v /\ old !! k = Some oldv /\ oldv <> v) /\
  (forall k, k ∈ deletions r <-> is_Some (old !! k) /\ new !! k = None) /\
  totalCount r = length (additions r) + length (deletions r) + length (modifications r) /\
  (totalCount r = 0 <-> old = new).
Proof.
  intros [oorder norder Ho Hn]. unfold summarizeChanges_in.
  rewrite scan_new_omap, scan_old_omap. simpl.
  assert (forall k, k ∈ omap (added old) norder <-> is_Some (new !! k) /\ old !! k = None)
    as Hadd.
  { intros k. rewrite list_elem_of_omap. split.
    - intros ([k' v] & Hin & Hf). apply (elem_of_visited new) in Hin; [|done].
      unfold added in Hf. simpl in Hf. destruct (old !! k') eqn:Hold; [done|].
      injection Hf as <-. by eauto.
    - intros ([v Hv] & Hold). exists (k, v). split; [by apply (elem_of_visited new)|].
      unfold added. simpl. by rewrite Hold. }
  assert (forall k, k ∈ omap (modified old) norder <->
            exists v oldv, new !! k = Some v /\ old !! k = Some oldv /\ oldv <> v)
    as Hmod.
  { intros k. rewrite list_elem_of_omap. split.
    - intros ([k' v] & Hin & Hf). apply (elem_of_visited new) in Hin; [|done].
      unfold modified in Hf. simpl in Hf. destruct (old !! k') as [oldv|] eqn:Hold; [|done].
      destruct (String.eqb_spec oldv v); [done|]. injection Hf as <-. by eauto.
    - intros (v & oldv & Hv & Hold & Hne). exists (k, v).
      split; [by apply (elem_of_visited new)|].
      unfold modified. simpl. rewrite Hold. by destruct (String.eqb_spec oldv v). }
  assert (forall k, k ∈ omap (deleted new) oorder <-> is_Some (old !! k) /\ new !! k = None)
    as Hdel.
  { intros k. rewrite list_elem_of_omap. split.
    - intros ([k' v] & Hin & Hf). apply (elem_of_visited old) in Hin; [|done].
      unfold deleted in Hf. simpl in Hf. destruct (new !! k') eqn:Hnew; [done|].
      injection Hf as <-. by eauto.
    - intros ([v Hv] & Hnew). exists (k, v). split; [by apply (elem_of_visited old)|].
      unfold deleted. simpl. by rewrite Hnew. }
  split; [done|]. split; [done|]. split; [done|]. split; [done|].
  split.
  - intros Hzero.
    assert (omap (added old) norder = [] /\ omap (modified old) norder = [] /\
            omap (deleted new) oorder = []) as (Ha & Hm & Hd).
    { destruct (omap (added old) norder), (omap (modified old) norder),
        (omap (deleted new) oorder); simpl in Hzero; try done; lia. }
    rewrite Ha in Hadd. rewrite Hm in Hmod. rewrite Hd in Hdel.
    apply map_eq. intros k.
    destruct (new !! k) as [v|] eqn:Hnew.
    + destruct (old !! k) as [oldv|] eqn:Hold.
      * destruct (String.eqb_spec oldv v) as [->|Hne]; [done|].
        exfalso. apply (elem_of_nil k), Hmod. by eauto.
      * exfalso. apply (elem_of_nil k), Hadd. by eauto.
    + destruct (old !! k) as [oldv|] eqn:Hold; [|done].
      exfalso. apply (elem_of_nil k), Hdel. by eauto.
  - intros ->.
    assert (omap (added new) norder = []) as ->.
    { apply omap_nil_iff. intros [k v] Hin%(elem_of_visited new); [|done].
      unfold added. simpl. by rewrite Hin. }
    assert (omap (modified new) norder = []) as ->.
    { apply omap_nil_iff. intros [k v] Hin%(elem_of_visited new); [|done].
      unfold modified. simpl. rewrite Hin. by rewrite String.eqb_refl. }
    assert (omap (deleted new) oorder = []) as ->.
    { apply omap_nil_iff. intros [k v] Hin%(elem_of_visited new); [|done].
      unfold deleted. simpl. by rewrite Hin. }
    done.
Qed.

(** ** The check-sum file *)

Lemma count_byte_app c s t : count_byte c (s ++ t) = count_byte c s + count_byte c t.
Proof.
  induction s as [|a s IH]; [done|]. rewrite append_String. simpl. rewrite IH. lia.
Qed.

Lemma split_from_length s sep current :
  length (split_from s sep current) = count_byte sep s + 1.
Proof.
  revert current. induction s as [|c s IH]; intros current; [done|]. simpl.
  destruct (Ascii.eqb c sep); simpl; rewrite IH; lia.
Qed.

Lemma split_from_none s sep current :
  count_byte sep s = 0 -> split_from s sep current = [(current ++ s)%string].
Proof.
  revert current. induction s as [|c s IH]; intros current; simpl.
  - by rewrite append_empty_r.
  - destruct (Ascii.eqb c sep); [done|]. intros Hs. rewrite IH by done.
    by rewrite append_assoc_byte.
Qed.

Lemma split_from_one k v sep current :
  count_byte sep k = 0 -> count_byte sep v = 0 ->
  split_from (k ++ String sep v) sep current = [(current ++ k)%string; v].
Proof.
  intros Hk Hv. revert current Hk. induction k as [|c k IH]; intros current Hk.
  - simpl. rewrite Ascii.eqb_refl, append_empty_r. by rewrite split_from_none.
  - rewrite append_String. simpl in Hk |- *. destruct (Ascii.eqb c sep); [done|].
    rewrite IH by done. by rewrite append_assoc_byte.
Qed.

Lemma split_from_sep a b sep current :
  Installer.count_byte sep a = 0 ->
  Installer.split_from (a ++ String sep b) sep current
  = (current ++ a)%string :: Installer.split_from b sep "".
Proof.
  revert current. induction a as [|c a IH]; intros current Ha.
  - simpl. by rewrite Ascii.eqb_refl, append_empty_r.
  - rewrite append_String. simpl in Ha |- *. destruct (Ascii.eqb c sep); [done|].
    rewrite IH by done. by rewrite append_assoc_byte.
Qed.

Lemma buffer_text_commas order : length order <= count_byte "," (buffer_text order).
Proof.
  induction order as [|[k v] rest IH]; simpl; [done|].
  rewrite !count_byte_app. simpl. lia.
Qed.

Lemma buffer_text_lines order :
  (forall k v, (k, v) ∈ order -> count_byte "010" k = 0 /\ count_byte "010" v = 0) ->
  count_byte "010" (buffer_text order) = 0.
Proof.
  induction order as [|[k v] rest IH]; intros Hall; simpl; [done|].
  destruct (Hall k v) as [Hk Hv]; [by left|].
  rewrite !count_byte_app, Hk, Hv, IH; [done|].
  intros k' v' Hin. apply Hall. by right.
Qed.

Section Checksums.
Context `{U : Unicode}.

Lemma read_lines_skip line :
  length (Split (TrimSpace line) ",") <> 2 -> read_lines [line] = ∅.
Proof.
  unfold read_lines. simpl. by destruct (Split (TrimSpace line) ",") as [|a [|b [|c l]]].
Qed.

(** X23.  The check-sum file does not come back as it was written.
    [writeChecksumFileInDir] writes the entries of the map one after the
    other, a comma between a path and its check sum and nothing between
    two entries.  For paths and check sums without line feed, the file of
    a map with two entries or more is one line with more than one comma,
    which [getChecksumFromDir] skips: it returns the empty map, not the
    map that was written.  Only the file of a single entry, without comma
    in its path or its check sum and without space around it, is read
    back. *)
Theorem checksum_file_not_read_back (m : checksums) order calculated write_error content :
  (forall s, count_byte "," (TrimSpace s) = count_byte "," s) ->
  order ≡ₚ map_to_list m ->
  (forall k v, m !! k = Some v -> count_byte "010" k = 0 /\ count_byte "010" v = 0) ->
  (writeChecksumFileInDir order (inl m) write_error).1 = Some content ->
  (2 <= size m -> getChecksumFromDir (Some content) calculated = inl ∅) /\
  (forall k v,
     m = {[k := v]} -> count_byte "," k = 0 -> count_byte "," v = 0 ->
     TrimSpace content = content ->
     getChecksumFromDir (Some content) calculated = inl m).
Proof.
  intros Htrim Horder Hlines [= <-].
  assert (Split (buffer_text order) "010" = [buffer_text order]) as Hone.
  { unfold Split. rewrite split_from_none; [done|]. apply buffer_text_lines.
    intros k v Hin. apply Hlines. apply elem_of_map_to_list. by rewrite <- Horder. }
  unfold getChecksumFromDir. rewrite Hone. split.
  - intros Hsize. f_equal. apply read_lines_skip.
    unfold Split. rewrite split_from_length, Htrim.
    pose proof (buffer_text_commas order) as Hcommas.
    rewrite Horder, length_map_to_list in Hcommas at 1. lia.
  - intros k v -> Hk Hv Hspace. f_equal.
    rewrite map_to_list_singleton in Horder. apply Permutation_singleton_r in Horder as ->.
    assert (buffer_text [(k, v)] = (k ++ String "," v)%string) as Hb.
    { change (buffer_text [(k, v)]) with ((k ++ String "," v) ++ "")%string.
      by rewrite append_empty_r. }
    rewrite Hb in *. unfold read_lines.
    change (foldl ?f ∅ [?line]) with (f ∅ line). cbv beta zeta.
    rewrite Hspace. unfold Split. rewrite (split_from_one k v "," "" Hk Hv).
    by rewrite insert_empty.
Qed.

End Checksums.

(** ** Runs *)

(** The ASCII [TrimSpace] of the runs takes no comma away. *)
Lemma space_not_comma c : GoAscii.is_space c = true -> Ascii.eqb c "," = false.
Proof. by destruct c as [[] [] [] [] [] [] [] []]. Qed.

Lemma trim_left_commas s : count_byte "," (GoAscii.trim_left s) = count_byte "," s.
Proof.
  induction s as [|c s IH]; [done|]. simpl.
  destruct (GoAscii.is_space c) eqn:Hc; [|done]. by rewrite IH, (space_not_comma c Hc).
Qed.

Lemma trim_right_commas s : count_byte "," (GoAscii.trim_right s) = count_byte "," s.
Proof.
  induction s as [|c s IH]; [done|]. simpl.
  destruct (GoAscii.trim_right s) as [|a r] eqn:Hr.
  - simpl in IH. rewrite <- IH.
    destruct (GoAscii.is_space c) eqn:Hc; simpl; [by rewrite (space_not_comma c Hc)|lia].
  - rewrite <- IH. done.
Qed.

Lemma TrimSpace_commas s : count_byte "," (GoAscii.TrimSpace s) = count_byte "," s.
Proof. unfold GoAscii.TrimSpace. by rewrite trim_right_commas, trim_left_commas. Qed.

Lemma summarizeChanges_classifies_witness :
  let old : checksums := {["a.yaml" := "0cc1"; "b.yaml" := "92eb"]} in
  let new : checksums := {["a.yaml" := "0cc1"; "b.yaml" := "4a8a"; "c.yaml" := "8277"]} in
  let r := summarizeChanges_in (map_to_list old) (map_to_list new) old new in
  "c.yaml" ∈ additions r /\ "b.yaml" ∈ modifications r /\ totalCount r = 2.
Proof.
  intros old new r.
  assert (summarizeChanges old new r) as Hrun by (by constructor).
  destruct (summarizeChanges_classifies old new r Hrun) as (Hadd & Hmod & _ & _ & _).
  split; [|split].
  - apply Hadd. split; [by eexists|reflexivity].
  - apply Hmod. exists "4a8a", "92eb". split; [reflexivity|]. split; [reflexivity|done].
  - vm_compute. reflexivity.
Defined.

Lemma checksum_file_not_read_back_witness :
  let m : checksums := {["a.yaml" := "0cc1"; "b.yaml" := "92eb"]} in
  getChecksumFromDir (U := GoAscii.ascii_unicode)
    (Some (buffer_text (map_to_list m))) (inl m) = inl ∅.
Proof.
  intros m.
  assert (map_to_list m ≡ₚ [("a.yaml", "0cc1"); ("b.yaml", "92eb")]) as Hlist.
  { unfold m. rewrite map_to_list_insert by done. by rewrite map_to_list_singleton. }
  destruct (checksum_file_not_read_back (U := GoAscii.ascii_unicode) m (map_to_list m)
              (inl m) None (buffer_text (map_to_list m))) as [Hmany _].
  - exact TrimSpace_commas.
  - reflexivity.
  - intros k v Hin%elem_of_map_to_list. rewrite Hlist in Hin.
    repeat (apply elem_of_cons in Hin as [[= -> ->]|Hin]; [by split|]).
    by apply elem_of_nil in Hin.
  - reflexivity.
  - apply Hmany. unfold m. rewrite map_size_insert_None by done.
    rewrite map_size_singleton. lia.
Defined.

End InstallerFacts.

(* ===================================================================== *)
(** * Facts about the headers of a generated HTTP request                 *)
(* ===================================================================== *)

Module GeneratorFacts.
Import Go GoFacts StringFacts Protocols Generator.

Section Fill.
Context `{T : Tools}.

(** The functions change nothing of the generator but the interactsh
    URLs. *)
Lemma replace_markers_generator r text :
  (replace_markers r text).2
  = set_interactshURLs r (interactshURLs (replace_markers r text).2).
Proof.
  unfold replace_markers. destruct (Interactsh r) as [ReplaceMarkers|].
  - by destruct (ReplaceMarkers text (interactshURLs r)).
  - by destruct r.
Qed.

Lemma replace_markers_at r text :
  replace_markers (set_interactshURLs r (interactshURLs r)) text = replace_markers r text.
Proof. by destruct r. Qed.

Lemma replace_markers_none r text :
  Interactsh r = None -> replace_markers r text = (text, r).
Proof. unfold replace_markers. by intros ->. Qed.

(** The loop over the headers of the template, when it comes to its
    end. *)
Lemma fill_headers_inl order r req values req1 r1 :
  NoDup order.*1 ->
  fill_headers order r req values = (inl req1, r1) ->
  r1 = set_interactshURLs r (interactshURLs r1) /\
  retryablehttp.Scheme req1 = retryablehttp.Scheme req /\
  retryablehttp.Close req1 = retryablehttp.Close req /\
  retryablehttp.Body req1 = retryablehttp.Body req /\
  retryablehttp.auth req1 = retryablehttp.auth req /\
  (forall key, key ∉ order.*1 ->
     retryablehttp.Header req1 !! key = retryablehttp.Header req !! key) /\
  (forall key value, (key, value) ∈ order ->
     exists urls text,
       Evaluate (replace_markers (set_interactshURLs r urls) value).1 values = inl text /\
       retryablehttp.Header req1 !! key = Some [text]) /\
  ("Host" ∉ order.*1 -> retryablehttp.Host req1 = retryablehttp.Host req) /\
  ("Host" ∈ order.*1 ->
     retryablehttp.Header req1 !! "Host" = Some [retryablehttp.Host req1]).
Proof.
  revert r req. induction order as [|[header value] rest IH]; intros r req Hnodup Hrun.
  - simpl in Hrun. injection Hrun as <- <-. repeat split; try done.
    + by destruct r.
    + by intros key value ?%elem_of_nil.
    + by intros ?%elem_of_nil.
  - simpl in Hnodup. apply NoDup_cons in Hnodup as [Hfresh Hnodup].
    simpl in Hrun.
    pose proof (replace_markers_generator r value) as Hgen.
    pose proof (replace_markers_at r value) as Hat.
    destruct (replace_markers r value) as [marked ra] eqn:Hmark. simpl in Hgen.
    destruct (Evaluate marked values) as [text|err] eqn:Heval; [|done].
    apply IH in Hrun as (Hr1 & Hscheme & Hclose & Hbody & Hauth & Hout & Hin & Hhost & Hhosted);
      [|done].
    assert (forall urls, set_interactshURLs ra urls = set_interactshURLs r urls) as Hset.
    { intros urls. by rewrite Hgen. }
    assert (retryablehttp.Header req1 !! header = Some [text]) as Hheader.
    { rewrite Hout by done.
      destruct (String.eqb header "Host"); simpl; by rewrite lookup_insert_eq. }
    split; [by rewrite Hr1, Hset|].
    split; [rewrite Hscheme; by destruct (String.eqb header "Host")|].
    split; [rewrite Hclose; by destruct (String.eqb header "Host")|].
    split; [rewrite Hbody; by destruct (String.eqb header "Host")|].
    split; [rewrite Hauth; by destruct (String.eqb header "Host")|].
    split; [|split; [|split]].
    + intros key [Hne Hkey]%not_elem_of_cons. simpl in Hne. rewrite Hout by done.
      destruct (String.eqb header "Host"); simpl; by rewrite lookup_insert_ne.
    + intros key v [[= -> ->]|Hrest]%elem_of_cons.
      * exists (interactshURLs r), text. by rewrite Hat.
      * destruct (Hin key v Hrest) as (urls & t & Ht & Hl).
        exists urls, t. by rewrite <- Hset.
    + intros [Hne Hkey]%not_elem_of_cons. simpl in Hne. rewrite Hhost by done.
      destruct (String.eqb header "Host") eqn:Heq; [|done].
      by apply String.eqb_eq in Heq.
    + intros [Heq|Hrest]%elem_of_cons; [|by rewrite Hhosted].
      simpl in Heq. subst header. rewrite Hheader. f_equal. f_equal.
      rewrite Hhost by done. done.
Qed.

(** The three names that [fillRequest] gives to [setHeader] and the name
    it asks [Get] for are canonical. *)
Lemma canonical_names :
  CanonicalMIMEHeaderKey "User-Agent" = "User-Agent" /\
  CanonicalMIMEHeaderKey "Accept" = "Accept" /\
  CanonicalMIMEHeaderKey "Accept-Language" = "Accept-Language" /\
  CanonicalMIMEHeaderKey "Connection" = "Connection".
Proof. by vm_compute. Qed.

(** [setHeader] for a canonical name other than [Host]. *)
Lemma setHeader_fields req name value :
  CanonicalMIMEHeaderKey name = name -> name <> "Host" ->
  retryablehttp.Scheme (setHeader req name value) = retryablehttp.Scheme req /\
  retryablehttp.Host (setHeader req name value) = retryablehttp.Host req /\
  retryablehttp.Close (setHeader req name value) = retryablehttp.Close req /\
  retryablehttp.Body (setHeader req name value) = retryablehttp.Body req /\
  retryablehttp.auth (setHeader req name value) = retryablehttp.auth req /\
  (forall key,
     retryablehttp.Header (setHeader req name value) !! key
     = match retryablehttp.Header req !! key with
       | Some l => Some l
       | None => if String.eqb key name then Some [value] else None
       end).
Proof.
  intros Hcanon Hname. unfold setHeader, Header_Set. rewrite Hcanon.
  apply String.eqb_neq in Hname. rewrite Hname.
  destruct (retryablehttp.Header req !! name) as [l|] eqn:Hl.
  - repeat split. intros key. destruct (retryablehttp.Header req !! key) eqn:Hkey; [done|].
    destruct (String.eqb key name) eqn:Heq; [|done].
    apply String.eqb_eq in Heq. congruence.
  - repeat split. intros key. simpl.
    destruct (String.eqb key name) eqn:Heq.
    + apply String.eqb_eq in Heq. subst key. by rewrite lookup_insert_eq, Hl.
    + apply String.eqb_neq in Heq. rewrite lookup_insert_ne by done.
      by destruct (retryablehttp.Header req !! key).
Qed.

Lemma fill_body_inl r req values req2 r2 :
  fill_body r req values = (inl req2, r2) ->
  r2 = set_interactshURLs r (interactshURLs r2) /\
  retryablehttp.Scheme req2 = retryablehttp.Scheme req /\
  retryablehttp.Host req2 = retryablehttp.Host req /\
  retryablehttp.Close req2 = retryablehttp.Close req /\
  retryablehttp.Header req2 = retryablehttp.Header req /\
  retryablehttp.auth req2 = retryablehttp.auth req.
Proof.
  unfold fill_body. destruct (String.eqb (Body (request r)) "").
  - intros [= <- <-]. by destruct r.
  - pose proof (replace_markers_generator r (Body (request r))) as Hgen.
    destruct (replace_markers r (Body (request r))) as [body ra]. simpl in Hgen.
    destruct (Evaluate body values) as [text|]; [|done].
    destruct (NewReusableReadCloser text); [done|].
    intros [= <- <-]. by rewrite Hgen at 1.
Qed.

Lemma trim_default_port_fields req :
  retryablehttp.Scheme (trim_default_port req) = retryablehttp.Scheme req /\
  retryablehttp.Close (trim_default_port req) = retryablehttp.Close req /\
  retryablehttp.Body (trim_default_port req) = retryablehttp.Body req /\
  retryablehttp.Header (trim_default_port req) = retryablehttp.Header req /\
  retryablehttp.auth (trim_default_port req) = retryablehttp.auth req.
Proof.
  unfold trim_default_port. destruct LeaveDefaultPorts; [repeat split|].
  destruct (_ && _); [repeat split|]. destruct (_ && _); repeat split.
Qed.

(** The host after the [switch] depends on the scheme and the host
    only. *)
Lemma trim_default_port_Host req req' :
  retryablehttp.Scheme req' = retryablehttp.Scheme req ->
  retryablehttp.Host req' = retryablehttp.Host req ->
  retryablehttp.Host (trim_default_port req') = retryablehttp.Host (trim_default_port req).
Proof.
  intros Hscheme Hhost. unfold trim_default_port. rewrite Hscheme, Hhost.
  destruct LeaveDefaultPorts; [exact Hhost|].
  destruct (_ && _); [reflexivity|]. destruct (_ && _); [reflexivity|exact Hhost].
Qed.

(** A call of [fillRequest] that returns a request, in terms of the
    request [req1] that the loop over the headers leaves. *)
Lemma fillRequest_in_inl order r req values agent req' r' :
  fillRequest_in order r req values agent = (inl req', r') ->
  exists req1 r1,
    fill_headers order r req values = (inl req1, r1) /\
    r' = set_interactshURLs r1 (interactshURLs r') /\
    retryablehttp.Scheme req' = retryablehttp.Scheme req1 /\
    retryablehttp.Host req' = retryablehttp.Host (trim_default_port req1) /\
    retryablehttp.Close req'
    = retryablehttp.Close req1
      || (bool_decide (Threads (request r1) <= 0)%Z
          && String.eqb (Header_Get (retryablehttp.Header req1) "Connection") "") /\
    (forall key,
       retryablehttp.Header req' !! key
       = match retryablehttp.Header req1 !! key with
         | Some l => Some l
         | None => default_header (request r1) agent key
         end).
Proof.
  unfold fillRequest_in.
  destruct (fill_headers order r req values) as [[req1|err] r1] eqn:Hloop; [|done].
  set (closing := if _ && _ then retryablehttp.set_Close req1 true else req1).
  destruct (fill_body r1 closing values) as [[req2|err] r2] eqn:Hbody; [|done].
  apply fill_body_inl in Hbody as (Hr2 & Hscheme & Hhost & Hclose & Hheader & Hauth).
  assert (request r2 = request r1) as Hrequest by (by rewrite Hr2).
  rewrite !Hrequest.
  set (agented := if negb _ then setHeader req2 "User-Agent" agent else req2).
  set (accepting := if _ && _ then _ else agented).
  set (trimmed := trim_default_port accepting).
  intros [= <- <-]. exists req1, r1. split; [done|]. split; [done|].
  destruct canonical_names as (Hua & Hacc & Hlang & Hconn).
  assert (retryablehttp.Scheme agented = retryablehttp.Scheme req1 /\
          retryablehttp.Host agented = retryablehttp.Host req1 /\
          retryablehttp.Close agented = retryablehttp.Close closing /\
          forall key,
            retryablehttp.Header agented !! key
            = match retryablehttp.Header req1 !! key with
              | Some l => Some l
              | None => if String.eqb key "User-Agent" && negb (Unsafe (request r1))
                        then Some [agent] else None
              end) as (Hs1 & Hh1 & Hc1 & Hk1).
  { unfold agented. destruct (Unsafe (request r1)); simpl.
    - rewrite Hscheme, Hhost, Hclose, Hheader.
      assert (retryablehttp.Scheme closing = retryablehttp.Scheme req1 /\
              retryablehttp.Host closing = retryablehttp.Host req1 /\
              retryablehttp.Header closing = retryablehttp.Header req1) as (-> & -> & ->).
      { unfold closing. destruct (_ && _); repeat split. }
      repeat split. intros key. rewrite andb_false_r.
      by destruct (retryablehttp.Header req1 !! key).
    - destruct (setHeader_fields req2 "User-Agent" agent Hua ltac:(done))
        as (-> & -> & -> & _ & _ & Hk).
      rewrite Hscheme, Hhost, Hclose.
      assert (retryablehttp.Scheme closing = retryablehttp.Scheme req1 /\
              retryablehttp.Host closing = retryablehttp.Host req1 /\
              retryablehttp.Header closing = retryablehttp.Header req1) as (-> & -> & Hc).
      { unfold closing. destruct (_ && _); repeat split. }
      repeat split. intros key. rewrite Hk, Hheader, Hc. by rewrite andb_true_r. }
  assert (retryablehttp.Scheme accepting = retryablehttp.Scheme req1 /\
          retryablehttp.Host accepting = retryablehttp.Host req1 /\
          retryablehttp.Close accepting = retryablehttp.Close closing /\
          forall key,
            retryablehttp.Header accepting !! key
            = match retryablehttp.Header req1 !! key with
              | Some l => Some l
              | None => default_header (request r1) agent key
              end) as (Hs2 & Hh2 & Hc2 & Hk2).
  { unfold accepting, default_header.
    destruct ((length (Raw (request r1)) =? 0)%nat && negb (Unsafe (request r1))) eqn:Hraw.
    - destruct (setHeader_fields agented "Accept" "*/*" Hacc ltac:(done))
        as (Hs & Hh & Hc & _ & _ & Hk).
      destruct (setHeader_fields (setHeader agented "Accept" "*/*") "Accept-Language" "en"
                  Hlang ltac:(done)) as (-> & -> & -> & _ & _ & Hk').
      rewrite Hs, Hh, Hc. repeat split; try done.
      intros key. rewrite Hk', Hk, Hk1.
      apply andb_true_iff in Hraw as [_ Hunsafe]. rewrite Hunsafe.
      apply negb_true_iff in Hunsafe. rewrite Hunsafe.
      destruct (retryablehttp.Header req1 !! key); [done|].
      destruct (String.eqb key "User-Agent") eqn:H1; [done|]. simpl.
      destruct (String.eqb key "Accept") eqn:H2; [done|].
      by destruct (String.eqb key "Accept-Language").
    - repeat split; try done. intros key. rewrite Hk1.
      destruct (retryablehttp.Header req1 !! key); [done|].
      destruct (String.eqb key "User-Agent") eqn:H1.
      + simpl. by destruct (Unsafe (request r1)).
      + simpl. destruct (String.eqb key "Accept"); [done|].
        by destruct (String.eqb key "Accept-Language"). }
  destruct (trim_default_port_fields accepting) as (Hs3 & Hc3 & _ & Hk3 & _).
  assert (retryablehttp.Close closing
          = retryablehttp.Close req1
            || (bool_decide (Threads (request r1) <= 0)%Z
                && String.eqb (Header_Get (retryablehttp.Header req1) "Connection") ""))
    as Hclosing.
  { unfold closing. destruct (_ && _); simpl; [by rewrite orb_true_r|by rewrite orb_false_r]. }
  destruct (negb (String.eqb (DigestAuthUsername (request r1)) "")); simpl.
  - fold trimmed. unfold trimmed. rewrite Hs3, Hc3, Hk3, Hs2, Hc2, Hclosing.
    repeat split; try done. by apply trim_default_port_Host.
  - unfold trimmed. rewrite Hs3, Hc3, Hk3, Hs2, Hc2, Hclosing.
    repeat split; try done. by apply trim_default_port_Host.
Qed.

Lemma headers_order r order :
  order ≡ₚ map_to_list (Headers (request r)) ->
  NoDup order.*1 /\
  (forall key value, (key, value) ∈ order <-> Headers (request r) !! key = Some value) /\
  (forall key, key ∈ order.*1 <-> is_Some (Headers (request r) !! key)).
Proof.
  intros Horder. split; [|split].
  - rewrite Horder. apply NoDup_fst_map_to_list.
  - intros key value. rewrite Horder. apply elem_of_map_to_list.
  - intros key. rewrite Horder. rewrite list_elem_of_fmap. split.
    + intros ([k v] & -> & Hin). apply elem_of_map_to_list in Hin. by exists v.
    + intros [v Hv]. exists (key, v). split; [done|]. by apply elem_of_map_to_list.
Qed.

Lemma fillRequest_inv r req values agent res :
  fillRequest r req values agent res ->
  exists order,
    order ≡ₚ map_to_list (Headers (request r)) /\
    fillRequest_in order r req values agent = res.
Proof. intros [order Horder]. by exists order. Qed.

(** X24.  The headers of a request that [fillRequest] returns, whatever
    the order in which the headers of the template are visited.  A header
    of the template is carried under the very key the template gives,
    with one value, the text [Evaluate] makes of it (after the interactsh
    markers are replaced).  Under any other key the request keeps the
    values it came with, and only a key it came without gets the default
    of [default_header]: the drawn [User-Agent] unless the request is
    unsafe, [Accept] and [Accept-Language] for a request that is neither
    raw nor unsafe.  Keys differ by case: a template header [user-agent]
    does not keep the default [User-Agent] away.  Of the generator only
    the interactsh URLs change. *)
Theorem fillRequest_headers r req values agent req' r' :
  fillRequest r req values agent (inl req', r') ->
  r' = set_interactshURLs r (interactshURLs r') /\
  (forall key value,
     Headers (request r) !! key = Some value ->
     exists urls text,
       Evaluate (replace_markers (set_interactshURLs r urls) value).1 values = inl text /\
       retryablehttp.Header req' !! key = Some [text]) /\
  (forall key,
     Headers (request r) !! key = None ->
     retryablehttp.Header req' !! key
     = match retryablehttp.Header req !! key with
       | Some l => Some l
       | None => default_header (request r) agent key
       end).
Proof.
  intros (order & Horder & Hrun)%fillRequest_inv.
  apply headers_order in Horder as (Hnodup & Hin & Hkeys).
  apply fillRequest_in_inl in Hrun as (req1 & r1 & Hloop & Hr' & _ & _ & _ & Hheader).
  apply fill_headers_inl in Hloop as (Hr1 & _ & _ & _ & _ & Hout & Hgiven & _); [|done].
  assert (request r1 = request r) as Hrequest by (by rewrite Hr1).
  split; [by rewrite Hr', Hr1|]. split.
  - intros key value Hkey. apply Hin, Hgiven in Hkey as (urls & text & Htext & Hl).
    exists urls, text. split; [done|]. by rewrite Hheader, Hl.
  - intros key Hkey. rewrite Hheader, Hrequest, Hout; [done|].
    rewrite Hkeys, Hkey. by intros [? ?].
Qed.

Lemma HasSuffix_true s suffix :
  HasSuffix s suffix = true -> s = (TrimSuffix s suffix ++ suffix)%string.
Proof.
  unfold HasSuffix, TrimSuffix. intros Hs. rewrite Hs.
  apply andb_true_iff in Hs as [_ Heq]. apply String.eqb_eq in Heq.
  revert Heq. generalize (String.length s - String.length suffix).
  intros n <-. revert n.
  induction s as [|a s IH]; intros [|n]; try done.
  simpl str_take. simpl str_drop. rewrite append_String. f_equal. apply IH.
Qed.

Lemma append_cancel_r (s t suffix : string) :
  (s ++ suffix = t ++ suffix)%string -> s = t.
Proof.
  intros Heq.
  assert (String.length s = String.length t) as Hlen.
  { apply (f_equal String.length) in Heq. rewrite !length_append in Heq. lia. }
  rewrite <- (str_take_app s suffix), <- (str_take_app t suffix), Hlen. by rewrite Heq.
Qed.

Lemma HasSuffix_app s suffix : HasSuffix (s ++ suffix) suffix = true.
Proof.
  unfold HasSuffix. rewrite length_append.
  rewrite bool_decide_eq_true_2 by lia.
  replace (String.length s + String.length suffix - String.length suffix)
    with (String.length s) by lia.
  rewrite str_drop_app. simpl. apply String.eqb_refl.
Qed.

(** X25.  The host and the [Close] flag of a request that [fillRequest]
    returns.  The host is the one of the request, or the value of the
    header [Host] when the template has a header of exactly this name;
    unless [LeaveDefaultPorts] is set, one final [:80] is cut from it for
    the scheme [http] and one final [:443] for [https], and nothing else
    changes it.  The connection is marked to be closed when it was so
    before, or when the template has no threads and the request carries
    no value under the key [Connection]. *)
Theorem fillRequest_Host_Close r req values agent req' r' :
  fillRequest r req values agent (inl req', r') ->
  let host :=
    match Headers (request r) !! "Host" with
    | Some _ => Header_Get (retryablehttp.Header req') "Host"
    | None => retryablehttp.Host req
    end in
  let cut (scheme port : string) :=
    retryablehttp.Scheme req = scheme /\ HasSuffix host port = true in
  retryablehttp.Scheme req' = retryablehttp.Scheme req /\
  (LeaveDefaultPorts = true -> retryablehttp.Host req' = host) /\
  (LeaveDefaultPorts = false -> cut "http" ":80" ->
     host = (retryablehttp.Host req' ++ ":80")%string) /\
  (LeaveDefaultPorts = false -> ~ cut "http" ":80" -> cut "https" ":443" ->
     host = (retryablehttp.Host req' ++ ":443")%string) /\
  (~ cut "http" ":80" -> ~ cut "https" ":443" -> retryablehttp.Host req' = host) /\
  retryablehttp.Close req'
  = retryablehttp.Close req
    || (bool_decide (Threads (request r) <= 0)%Z
        && String.eqb (Header_Get (retryablehttp.Header req') "Connection") "").
Proof.
  intros (order & Horder & Hrun)%fillRequest_inv.
  apply headers_order in Horder as (Hnodup & Hin & Hkeys).
  apply fillRequest_in_inl in Hrun
    as (req1 & r1 & Hloop & Hr' & Hscheme & Hhost & Hclose & Hheader).
  apply fill_headers_inl in Hloop
    as (Hr1 & Hscheme1 & Hclose1 & _ & _ & Hout & Hgiven & Hunset & Hset); [|done].
  assert (request r1 = request r) as Hrequest by (by rewrite Hr1).
  intros host cut.
  assert (retryablehttp.Host req1 = host) as Hhost1.
  { unfold host. destruct (Headers (request r) !! "Host") as [value|] eqn:Hvalue.
    - unfold Header_Get. change (CanonicalMIMEHeaderKey "Host") with "Host".
      rewrite Hheader, Hset; [done|]. apply Hkeys. by rewrite Hvalue.
    - apply Hunset. rewrite Hkeys, Hvalue. by intros [? ?]. }
  assert (Header_Get (retryablehttp.Header req') "Connection"
          = Header_Get (retryablehttp.Header req1) "Connection") as Hconnection.
  { unfold Header_Get. change (CanonicalMIMEHeaderKey "Connection") with "Connection".
    rewrite Hheader. by destruct (retryablehttp.Header req1 !! "Connection"). }
  split; [by rewrite Hscheme|].
  unfold cut. rewrite <- Hhost1, <- Hscheme1, Hhost. unfold trim_default_port.
  split; [by intros ->|]. split; [|split; [|split]].
  - intros -> [-> Hs]. rewrite Hs. simpl. by apply HasSuffix_true.
  - intros -> Hhttp [Hhttps Hs]. rewrite Hhttps, Hs. simpl.
    destruct (String.eqb (retryablehttp.Scheme req1) "http"
              && HasSuffix (retryablehttp.Host req1) ":80") eqn:Htest.
    + apply andb_true_iff in Htest as [Heq%String.eqb_eq ?]. by destruct Hhttp.
    + simpl. by apply HasSuffix_true.
  - intros Hhttp Hhttps. destruct LeaveDefaultPorts; [done|].
    destruct (String.eqb (retryablehttp.Scheme req1) "http"
              && HasSuffix (retryablehttp.Host req1) ":80") eqn:Htest.
    { apply andb_true_iff in Htest as [Heq%String.eqb_eq ?]. by destruct Hhttp. }
    destruct (String.eqb (retryablehttp.Scheme req1) "https"
              && HasSuffix (retryablehttp.Host req1) ":443") eqn:Htest'; [|done].
    apply andb_true_iff in Htest' as [Heq%String.eqb_eq ?]. by destruct Hhttps.
  - by rewrite Hclose, Hclose1, Hrequest, Hconnection.
Qed.

(** The loop over the headers without an interactsh client: it fails on
    the first header that does not evaluate. *)
Lemma fill_headers_plain order r req values :
  Interactsh r = None ->
  (fill_headers order r req values).2 = r /\
  ((exists err, (fill_headers order r req values).1 = inr err)
   <-> exists key value err, (key, value) ∈ order /\ Evaluate value values = inr err) /\
  (forall err, (fill_headers order r req values).1 = inr err ->
     exists cause, err = Wrap cause evaluateHelperExpressionErrorMessage).
Proof.
  intros Hplain. revert req. induction order as [|[header value] rest IH]; intros req.
  - simpl. split; [done|]. split; [|done]. split; [by intros [? ?]|].
    by intros (? & ? & ? & ?%elem_of_nil & _).
  - simpl. rewrite replace_markers_none by done.
    destruct (Evaluate value values) as [text|err] eqn:Heval.
    + set (req1 := if String.eqb header "Host" then _ else _).
      destruct (IH req1) as (Hr & Hiff & Hwrap).
      split; [done|]. split; [|done]. rewrite Hiff. split.
      * intros (key & v & err & Hin & Herr). exists key, v, err. split; [by right|done].
      * intros (key & v & err & [[= -> ->]|Hin]%elem_of_cons & Herr); [congruence|].
        by exists key, v, err.
    + simpl. split; [done|]. split.
      * split; [|by eexists]. intros _. exists header, value, err. split; [by left|done].
      * intros ? [= <-]. by eexists.
Qed.

(** X26.  When [fillRequest] fails, for a generator without interactsh
    client.  It returns an error exactly when a header of the template
    does not evaluate, or the template has a body that does not evaluate
    or of which no reader can be made; this does not depend on the order
    in which the headers are visited.  The error wraps its cause with one
    of two messages, and the generator is left as it was. *)
Theorem fillRequest_fails_iff r req values agent res r' :
  Interactsh r = None ->
  fillRequest r req values agent (res, r') ->
  r' = r /\
  ((exists err, res = inr err)
   <-> (exists key value err,
          Headers (request r) !! key = Some value /\ Evaluate value values = inr err)
       \/ (Body (request r) <> ""
           /\ match Evaluate (Body (request r)) values with
              | inr _ => True
              | inl body => is_Some (NewReusableReadCloser body)
              end)) /\
  (forall err, res = inr err ->
     exists cause,
       err = Wrap cause evaluateHelperExpressionErrorMessage
       \/ err = Wrap cause "failed to create reusable reader for request body").
Proof.
  intros Hplain (order & Horder & Hrun)%fillRequest_inv.
  apply headers_order in Horder as (_ & Hin & _).
  destruct (fill_headers_plain order r req values Hplain) as (Hr & Hiff & Hwrap).
  revert Hrun. unfold fillRequest_in.
  destruct (fill_headers order r req values) as [[req1|err] r1] eqn:Hloop;
    simpl in Hr, Hiff, Hwrap; subst r1.
  - set (closing := if _ && _ then _ else req1).
    assert (~ exists key value err,
              Headers (request r) !! key = Some value /\ Evaluate value values = inr err)
      as Hnone.
    { intros (key & value & err & Hkey & Herr).
      destruct (proj2 Hiff) as [? ?]; [|done]. exists key, value, err.
      split; [by apply Hin|done]. }
    unfold fill_body. destruct (String.eqb (Body (request r)) "") eqn:Hbody.
    + apply String.eqb_eq in Hbody. intros [= <- <-]. split; [done|].
      split; [|done]. split; [by intros [? ?]|]. intros [?|[? _]]; [by destruct Hnone|done].
    + apply String.eqb_neq in Hbody. rewrite replace_markers_none by done.
      destruct (Evaluate (Body (request r)) values) as [body|err] eqn:Heval.
      * destruct (NewReusableReadCloser body) as [err|] eqn:Hreader.
        -- intros [= <- <-]. split; [done|]. split.
           ++ split; [|by eexists]. intros _. right. split; [done|]. by eexists.
           ++ intros ? [= <-]. eexists. by right.
        -- intros [= <- <-]. split; [done|]. split; [|done].
           split; [by intros [? ?]|].
           intros [?|[_ [? ?]]]; [by destruct Hnone|done].
      * intros [= <- <-]. split; [done|]. split.
        -- split; [|by eexists]. intros _. by right.
        -- intros ? [= <-]. eexists. by left.
  - intros [= <- <-]. split; [done|]. split.
    + split; [|by eexists]. intros _. left.
      destruct (proj1 Hiff) as (key & value & e & Hkey & He); [by eexists|].
      exists key, value, e. split; [by apply Hin|done].
    + intros ? [= <-]. destruct (Hwrap err eq_refl) as [cause ->]. eexists. by left.
Qed.

(** The loop over the headers of the raw request. *)
Lemma raw_headers_fields order req :
  NoDup order.*1 ->
  retryablehttp.Scheme (raw_headers order req) = retryablehttp.Scheme req /\
  retryablehttp.Close (raw_headers order req) = retryablehttp.Close req /\
  retryablehttp.Body (raw_headers order req) = retryablehttp.Body req /\
  (forall key value, (key, value) ∈ order -> key <> "" ->
     retryablehttp.Header (raw_headers order req) !! key = Some [value]) /\
  (forall key, key = "" \/ key ∉ order.*1 ->
     retryablehttp.Header (raw_headers order req) !! key = retryablehttp.Header req !! key).
Proof.
  revert req. induction order as [|[header value] rest IH]; intros req Hnodup.
  - repeat split. by intros key value ?%elem_of_nil.
  - simpl in Hnodup. apply NoDup_cons in Hnodup as [Hfresh Hnodup]. simpl.
    destruct (String.eqb header "") eqn:Hempty.
    + apply String.eqb_eq in Hempty. subst header.
      destruct (IH req Hnodup) as (Hs & Hc & Hb & Hin & Hout).
      split; [done|]. split; [done|]. split; [done|]. split.
      * intros key v [[= -> ->]|Hrest]%elem_of_cons Hkey; [done|]. by apply Hin.
      * intros key [->|[Hne Hkey]%not_elem_of_cons]; apply Hout; [by left|by right].
    + apply String.eqb_neq in Hempty.
      set (req1 := if String.eqb header "Host" then _ else _).
      assert (retryablehttp.Scheme req1 = retryablehttp.Scheme req /\
              retryablehttp.Close req1 = retryablehttp.Close req /\
              retryablehttp.Body req1 = retryablehttp.Body req /\
              retryablehttp.Header req1
              = <[header := [value]]> (retryablehttp.Header req)) as (Hs1 & Hc1 & Hb1 & Hh1).
      { unfold req1. destruct (String.eqb header "Host"); repeat split. }
      destruct (IH req1 Hnodup) as (Hs & Hc & Hb & Hin & Hout).
      split; [by rewrite Hs|]. split; [by rewrite Hc|]. split; [by rewrite Hb|]. split.
      * intros key v [[= -> ->]|Hrest]%elem_of_cons Hkey; [|by apply Hin].
        rewrite Hout by (by right). by rewrite Hh1, lookup_insert_eq.
      * intros key Hkey.
        assert (key <> header) as Hne.
        { destruct Hkey as [->|[Hne _]%not_elem_of_cons]; [by intros <-|done]. }
        rewrite Hout.
        -- by rewrite Hh1, lookup_insert_ne.
        -- destruct Hkey as [->|[_ Hkey]%not_elem_of_cons]; [by left|by right].
Qed.

Lemma handleRawWithPayloads_inv r rawRequest baseURL values generatorValues agent res :
  handleRawWithPayloads r rawRequest baseURL values generatorValues agent res ->
  exists rorder order,
    (forall parsed, rorder parsed ≡ₚ map_to_list (raw.Headers parsed)) /\
    order ≡ₚ map_to_list (Headers (request r)) /\
    handleRawWithPayloads_in rorder order r rawRequest baseURL values generatorValues agent
    = res.
Proof. intros [rorder order Hrorder Horder]. by exists rorder, order. Qed.

(** X27.  The headers of a request made of a raw request that is not
    unsafe.  The raw text is evaluated and parsed, a request [req0] is
    made for its method and URL, and the request [req1] that is returned,
    or handed to the annotations when the raw text has some, carries: for
    a header of the template, the value of the template; else, for a
    header of the raw request with a key that is not empty, the value of
    the raw request; else what [req0] came with, and for a key [req0]
    came without, the default.  The template wins over the raw request,
    which wins over the defaults, whatever the orders in which the two
    maps are visited. *)
Theorem raw_request_headers r rawRequest baseURL values generatorValues agent generated r' :
  Unsafe (request r) = false ->
  handleRawWithPayloads r rawRequest baseURL values generatorValues agent
    (inl generated, r') ->
  let finalValues := MergeMaps [generatorValues; values] in
  exists text parsed req0 req1,
    Evaluate rawRequest finalValues = inl text /\
    raw_Parse text baseURL false = inl parsed /\
    NewRequestWithContext (raw.Method parsed) (raw.FullURL parsed)
      (Some (if Race (request r)
             then NewOpenGateWithTimeout (NopCloser (raw.Data parsed)) 2
             else NopCloser (raw.Data parsed))) = inl req0 /\
    (http_request generated, customCancelFunction generated)
    = match parseAnnotations (request r) text req1 with
      | Some (reqWithAnnotations, cancelFunc) => (Some reqWithAnnotations, Some cancelFunc)
      | None => (Some req1, None)
      end /\
    (forall key value,
       Headers (request r) !! key = Some value ->
       exists urls sent,
         Evaluate (replace_markers (set_interactshURLs r urls) value).1 finalValues
         = inl sent /\
         retryablehttp.Header req1 !! key = Some [sent]) /\
    (forall key,
       Headers (request r) !! key = None ->
       retryablehttp.Header req1 !! key
       = match (if String.eqb key "" then None else raw.Headers parsed !! key) with
         | Some value => Some [value]
         | None =>
             match retryablehttp.Header req0 !! key with
             | Some l => Some l
             | None => default_header (request r) agent key
             end
         end).
Proof.
  intros Hsafe (rorder & order & Hrorder & Horder & Hrun)%handleRawWithPayloads_inv
    finalValues.
  apply headers_order in Horder as (Hnodup & Hin & Hkeys).
  revert Hrun. unfold handleRawWithPayloads_in. fold finalValues. rewrite Hsafe.
  destruct (Evaluate rawRequest finalValues) as [text|] eqn:Htext; [|done].
  destruct (raw_Parse text baseURL false) as [parsed|] eqn:Hparsed; [|done].
  set (body := if Race (request r) then _ else _).
  destruct (NewRequestWithContext _ _ (Some body)) as [req0|] eqn:Hreq0; [|done].
  destruct (fillRequest_in order r (raw_headers (rorder parsed) req0) finalValues agent)
    as [[req1|] r1] eqn:Hfill; [|done].
  apply fillRequest_in_inl in Hfill as (reql & rl & Hloop & Hr1 & _ & _ & _ & Hheader).
  apply fill_headers_inl in Hloop as (Hrl & _ & _ & _ & _ & Hout & Hgiven & _); [|done].
  assert (request rl = request r) as Hrequest by (by rewrite Hrl).
  assert (request r1 = request r) as Hrequest1 by (by rewrite Hr1).
  rewrite Hrequest1.
  intros Hrun. exists text, parsed, req0, req1.
  split; [done|]. split; [done|]. split; [done|]. split.
  { destruct (parseAnnotations (request r) text req1) as [[annotated cancel]|];
      simpl in Hrun; by injection Hrun as <- <-. }
  clear Hrun.
  assert (NoDup (rorder parsed).*1) as Hrnodup.
  { rewrite Hrorder. apply NoDup_fst_map_to_list. }
  destruct (raw_headers_fields (rorder parsed) req0 Hrnodup) as (_ & _ & _ & Hraw & Hrest).
  split.
  - intros key value Hkey. apply Hin, Hgiven in Hkey as (urls & sent & Hsent & Hl).
    exists urls, sent. split; [done|]. by rewrite Hheader, Hl.
  - intros key Hkey. rewrite Hheader, Hrequest, Hout
      by (rewrite Hkeys, Hkey; by intros [? ?]).
    destruct (String.eqb key "") eqn:Hempty.
    + apply String.eqb_eq in Hempty. rewrite Hrest by (by left). done.
    + apply String.eqb_neq in Hempty.
      destruct (raw.Headers parsed !! key) as [value|] eqn:Hvalue.
      * rewrite (Hraw key value); [done| |done].
        rewrite Hrorder. by apply elem_of_map_to_list.
      * rewrite Hrest; [done|]. right. rewrite Hrorder, list_elem_of_fmap.
        intros ([k v] & -> & Hkv). apply elem_of_map_to_list in Hkv. simpl in Hvalue.
        congruence.
Qed.

End Fill.

(** ** Concrete runs *)

Lemma fillRequest_headers_witness :
  exists req' r',
    @fillRequest GeneratorRuns.plain_tools (GeneratorRuns.generator_of GeneratorRuns.probe)
      GeneratorRuns.fresh ∅ "scanner/1.0" (inl req', r') /\
    retryablehttp.Header req' !! "user-agent" = Some ["probe/2.0"] /\
    retryablehttp.Header req' !! "User-Agent" = Some ["scanner/1.0"] /\
    retryablehttp.Header req' !! "Cookie" = Some ["session=1"].
Proof.
  pose (T := GeneratorRuns.plain_tools).
  pose (r := GeneratorRuns.generator_of GeneratorRuns.probe).
  assert (exists req' r',
            fillRequest_in (map_to_list (Headers (request r))) r GeneratorRuns.fresh ∅
              "scanner/1.0" = (inl req', r')) as (req' & r' & Hrun)
    by (eexists _, _; vm_compute; reflexivity).
  assert (fillRequest r GeneratorRuns.fresh ∅ "scanner/1.0" (inl req', r')) as Hcall.
  { rewrite <- Hrun. by constructor. }
  exists req', r'. split; [done|].
  destruct (fillRequest_headers _ _ _ _ _ _ Hcall) as (_ & Hgiven & Hother).
  split; [|split].
  - destruct (Hgiven "user-agent" "probe/2.0" eq_refl) as (urls & text & Htext & ->).
    simpl in Htext. by injection Htext as <-.
  - by rewrite (Hother "User-Agent" eq_refl).
  - by rewrite (Hother "Cookie" eq_refl).
Defined.

Lemma fillRequest_Host_Close_witness :
  exists req' r',
    @fillRequest GeneratorRuns.plain_tools (GeneratorRuns.generator_of GeneratorRuns.probe)
      GeneratorRuns.fresh ∅ "scanner/1.0" (inl req', r') /\
    retryablehttp.Host req' = "internal.example" /\
    retryablehttp.Close req' = true.
Proof.
  pose (T := GeneratorRuns.plain_tools).
  pose (r := GeneratorRuns.generator_of GeneratorRuns.probe).
  assert (exists req' r',
            fillRequest_in (map_to_list (Headers (request r))) r GeneratorRuns.fresh ∅
              "scanner/1.0" = (inl req', r')
            /\ Header_Get (retryablehttp.Header req') "Host" = "internal.example:80"
            /\ Header_Get (retryablehttp.Header req') "Connection" = "")
    as (req' & r' & Hrun & Hhost & Hconnection)
    by (eexists _, _; vm_compute; repeat split; reflexivity).
  assert (fillRequest r GeneratorRuns.fresh ∅ "scanner/1.0" (inl req', r')) as Hcall.
  { rewrite <- Hrun. by constructor. }
  exists req', r'. split; [done|].
  destruct (fillRequest_Host_Close _ _ _ _ _ _ Hcall) as (_ & _ & Hhttp & _ & _ & Hclose).
  split.
  - change (Headers (request r) !! "Host") with (Some "internal.example:80") in Hhttp.
    cbv beta iota zeta in Hhttp. rewrite Hhost in Hhttp.
    specialize (Hhttp eq_refl (conj eq_refl eq_refl)).
    symmetry. by apply (append_cancel_r _ _ ":80").
  - rewrite Hclose, Hconnection. reflexivity.
Defined.

Lemma fillRequest_fails_iff_witness :
  exists res r',
    @fillRequest GeneratorRuns.plain_tools
      (GeneratorRuns.generator_of GeneratorRuns.unresolved)
      GeneratorRuns.fresh ∅ "scanner/1.0" (res, r') /\
    r' = GeneratorRuns.generator_of GeneratorRuns.unresolved /\
    exists cause, res = inr (Wrap cause evaluateHelperExpressionErrorMessage).
Proof.
  pose (T := GeneratorRuns.plain_tools).
  pose (r := GeneratorRuns.generator_of GeneratorRuns.unresolved).
  assert (exists res r',
            fillRequest_in (map_to_list (Headers (request r))) r GeneratorRuns.fresh ∅
              "scanner/1.0" = (res, r')) as (res & r' & Hrun)
    by (eexists _, _; reflexivity).
  assert (fillRequest r GeneratorRuns.fresh ∅ "scanner/1.0" (res, r')) as Hcall.
  { rewrite <- Hrun. by constructor. }
  exists res, r'. split; [done|].
  destruct (fillRequest_fails_iff r _ _ _ _ _ eq_refl Hcall) as (Hr & Hiff & Hwrap).
  split; [done|].
  destruct (proj2 Hiff) as [err ->].
  { left. exists "X-Token", "{{token}}", (New "unresolved variables found").
    split; reflexivity. }
  destruct (Hwrap err eq_refl) as [cause [->| ->]]; [by exists cause|].
  exfalso. vm_compute in Hrun. discriminate Hrun.
Defined.

Lemma raw_request_headers_witness :
  exists generated r' req1,
    @handleRawWithPayloads GeneratorRuns.plain_tools
      (GeneratorRuns.generator_of GeneratorRuns.raw_probe)
      "GET /admin" "http://example.com" ∅ ∅ "scanner/1.0" (inl generated, r') /\
    http_request generated = Some req1 /\
    retryablehttp.Header req1 !! "X-Token" = Some ["abc"] /\
    retryablehttp.Header req1 !! "Host" = Some ["example.com"] /\
    retryablehttp.Header req1 !! "user-agent" = Some ["raw/1.0"] /\
    retryablehttp.Header req1 !! "User-Agent" = Some ["scanner/1.0"] /\
    retryablehttp.Header req1 !! "Accept" = None.
Proof.
  pose (T := GeneratorRuns.plain_tools).
  pose (r := GeneratorRuns.generator_of GeneratorRuns.raw_probe).
  pose (rorder := fun parsed : raw.Request => map_to_list (raw.Headers parsed)).
  assert (exists generated r',
            handleRawWithPayloads_in rorder (map_to_list (Headers (request r))) r
              "GET /admin" "http://example.com" ∅ ∅ "scanner/1.0" = (inl generated, r'))
    as (generated & r' & Hrun) by (eexists _, _; vm_compute; reflexivity).
  assert (handleRawWithPayloads r "GET /admin" "http://example.com" ∅ ∅ "scanner/1.0"
            (inl generated, r')) as Hcall.
  { rewrite <- Hrun. by constructor. }
  destruct (raw_request_headers r _ _ _ _ _ _ _ eq_refl Hcall)
    as (text & parsed & req0 & req1 & Htext & Hparsed & Hreq0 & Hgen & Hgiven & Hother).
  exists generated, r', req1. split; [done|].
  vm_compute in Htext. injection Htext as <-.
  vm_compute in Hparsed. injection Hparsed as <-.
  vm_compute in Hreq0. injection Hreq0 as <-.
  simpl in Hgen. injection Hgen as Hhttp _. split; [exact Hhttp|].
  split; [|split; [|split; [|split]]].
  - destruct (Hgiven "X-Token" "abc" eq_refl) as (urls & sent & Hsent & ->).
    simpl in Hsent. by injection Hsent as <-.
  - by rewrite (Hother "Host" eq_refl).
  - by rewrite (Hother "user-agent" eq_refl).
  - by rewrite (Hother "User-Agent" eq_refl).
  - by rewrite (Hother "Accept" eq_refl).
Defined.

End GeneratorFacts.

(* ===================================================================== *)
(** * Facts about the request line of a self-contained request            *)
(* ===================================================================== *)

Module SelfContainedFacts.
Import Go GoFacts StringFacts Protocols Generator SelfContained InstallerFacts.

Lemma one_line_String c s :
  one_line (String c s) <-> c <> "010"%char /\ one_line s.
Proof.
  unfold one_line. simpl. destruct (Ascii.eqb c "010") eqn:Hc.
  - apply Ascii.eqb_eq in Hc. split; [done|]. by intros [? _].
  - apply Ascii.eqb_neq in Hc. destruct (IndexByte s "010"); split; try done.
    by intros [_ ?].
Qed.

Lemma one_line_app s t : one_line s -> one_line t -> one_line (s ++ t).
Proof.
  intros Hs Ht. induction s as [|c s IH]; [done|]. rewrite append_String.
  apply one_line_String in Hs as [Hc Hs]. apply one_line_String. split; [done|].
  by apply IH.
Qed.

(** The reader on a text without line feed, and up to the first line
    feed. *)
Lemma read_line_EOF tail current :
  one_line tail -> read_line tail current = inr (Wrap EOF "could not read request").
Proof.
  revert current. induction tail as [|c tail IH]; intros current Htail; [done|].
  apply one_line_String in Htail as [Hc Htail]. simpl.
  apply Ascii.eqb_neq in Hc. rewrite Hc. by apply IH.
Qed.

Lemma read_line_first line rest current :
  one_line line ->
  read_line (line ++ String "010" rest) current
  = if HasPrefix (current ++ line ++ String "010" "") "@" then read_line rest ""
    else inl (current ++ line ++ String "010" "")%string.
Proof.
  revert current. induction line as [|c line IH]; intros current Hline.
  - done.
  - apply one_line_String in Hline as [Hc Hline]. rewrite append_String. simpl.
    apply Ascii.eqb_neq in Hc. rewrite Hc, IH by done.
    by rewrite !append_assoc.
Qed.

Lemma read_line_annotated notes text :
  Forall one_line notes -> read_line (annotated notes ++ text) "" = read_line text "".
Proof.
  induction 1 as [|note notes Hnote Hnotes IH]; [done|].
  simpl annotated. rewrite !append_assoc.
  change ("@" ++ note ++ String "010" "" ++ annotated notes ++ text)%string
    with (("@" ++ note) ++ String "010" (annotated notes ++ text))%string.
  rewrite read_line_first.
  - assert (HasPrefix ("" ++ ("@" ++ note) ++ String "010" "") "@" = true) as ->; [|exact IH].
    change (Ascii.eqb "@" "@" && HasPrefix (note ++ String "010" "") "" = true).
    by rewrite HasPrefix_empty.
  - apply one_line_String. split; [done|]. done.
Qed.

Lemma IndexByte_split s c i :
  IndexByte s c = Some i ->
  exists line rest,
    s = (line ++ String c rest)%string /\ IndexByte line c = None /\
    String.length rest < String.length s.
Proof.
  revert i. induction s as [|a s IH]; intros i; [done|]. simpl.
  destruct (Ascii.eqb a c) eqn:Ha.
  - apply Ascii.eqb_eq in Ha. subst a. intros _. exists "", s. repeat split. simpl. lia.
  - destruct (IndexByte s c) as [j|] eqn:Hs; simpl; [|done]. intros _.
    destruct (IH j eq_refl) as (line & rest & -> & Hline & Hlen).
    exists (String a line), rest. split; [done|]. split.
    + simpl. by rewrite Ha, Hline.
    + simpl. lia.
Qed.

(** Every text is a number of annotation lines followed by a text without
    line feed, or by a request line and the rest. *)
Lemma request_line_cases data :
  (exists notes tail,
     data = (annotated notes ++ tail)%string /\ Forall one_line notes /\ one_line tail)
  \/ (exists notes line rest,
        data = (annotated notes ++ line ++ String "010" rest)%string /\
        Forall one_line notes /\ one_line line /\ HasPrefix line "@" = false).
Proof.
  remember (String.length data) as n eqn:Hn. revert data Hn.
  induction n as [n IH] using lt_wf_ind. intros data ->.
  destruct (IndexByte data "010") as [i|] eqn:Hdata.
  - apply IndexByte_split in Hdata as (line & rest & -> & Hline & Hlen).
    destruct (HasPrefix line "@") eqn:Hnote.
    + destruct line as [|c note]; [done|].
      change (Ascii.eqb "@" c && HasPrefix note "" = true) in Hnote.
      apply andb_true_iff in Hnote as [Hc _]. apply Ascii.eqb_eq in Hc. subst c.
      apply one_line_String in Hline as [_ Hline].
      destruct (IH (String.length rest) Hlen rest eq_refl)
        as [(notes & tail & -> & Hnotes & Htail)
           |(notes & line & rest' & -> & Hnotes & Hline' & Hplain)].
      * left. exists (note :: notes), tail. split; [|by split; [constructor|]].
        simpl annotated. rewrite !append_assoc. done.
      * right. exists (note :: notes), line, rest'.
        split; [|by split; [constructor|]].
        simpl annotated. rewrite !append_assoc. done.
    + right. by exists [], line, rest.
  - left. by exists [], data.
Qed.

Section Make.
Context `{G : Generator.Tools} `{S : SelfContained.Tools}.

(** X28.  The request line of a raw self-contained request.  Every text
    is a number of annotation lines (lines that begin with [@]) followed
    either by a text without line feed or by a line that does not begin
    with [@], a line feed and the rest.  In the first case, also when the
    text after the annotations is a complete request line that only lacks
    its line feed, the function returns the error of the reader.  In the
    second case that line is the request line: with fewer than two
    spaces in it the request is malformed, and otherwise the text between
    its first and its second space is taken for the URL.  In both cases
    of error nothing else was looked at, and the generator is as it
    was. *)
Theorem request_line_of_raw rorder order r data payloads dynamicValues agent :
  isRaw (request r) = true ->
  let made := makeSelfContainedRequest_in rorder order r data payloads dynamicValues agent in
  ((exists notes tail,
      data = (annotated notes ++ tail)%string /\ Forall one_line notes /\ one_line tail)
   \/ (exists notes line rest,
         data = (annotated notes ++ line ++ String "010" rest)%string /\
         Forall one_line notes /\ one_line line /\ HasPrefix line "@" = false)) /\
  (forall notes tail,
     data = (annotated notes ++ tail)%string -> Forall one_line notes -> one_line tail ->
     made = (inr (Wrap EOF "could not read request"), r)) /\
  (forall notes line rest,
     data = (annotated notes ++ line ++ String "010" rest)%string ->
     Forall one_line notes -> one_line line -> HasPrefix line "@" = false ->
     (Installer.count_byte " " line < 2 ->
      made = (inr (New "malformed request supplied"), r)) /\
     (forall method url version,
        line = (method ++ " " ++ url ++ " " ++ version)%string ->
        Installer.count_byte " " method = 0 -> Installer.count_byte " " url = 0 ->
        made = raw_request_for rorder order r data payloads dynamicValues agent url)).
Proof.
  intros Hraw made. split; [apply request_line_cases|]. split.
  - intros notes tail -> Hnotes Htail. unfold made, makeSelfContainedRequest_in.
    by rewrite Hraw, read_line_annotated, read_line_EOF.
  - intros notes line rest Hdata Hnotes Hline Hplain.
    assert (read_line data "" = inl (line ++ String "010" "")%string) as Hread.
    { rewrite Hdata, read_line_annotated, read_line_first by done.
      change ("" ++ line ++ String "010" "")%string with (line ++ String "010" "")%string.
      assert (HasPrefix (line ++ String "010" "") "@" = false) as ->; [|done].
      destruct line as [|c line]; [done|].
      change (Ascii.eqb "@" c && HasPrefix line "" = false) in Hplain.
      change (Ascii.eqb "@" c && HasPrefix (line ++ String "010" "") "" = false).
      by rewrite HasPrefix_empty in *. }
    unfold made, makeSelfContainedRequest_in. rewrite Hraw, Hread. clear Hread. split.
    + intros Hspaces.
      pose proof (split_from_length (line ++ String "010" "") " " "") as Hlen.
      rewrite count_byte_app in Hlen. simpl in Hlen. unfold Installer.Split.
      destruct (Installer.split_from (line ++ String "010" "") " " "")
        as [|? [|? [|? ?]]]; try done. simpl in Hlen. lia.
    + intros method url version -> Hmethod Hurl. unfold Installer.Split.
      replace ((method ++ " " ++ url ++ " " ++ version) ++ String "010" "")%string
        with (method ++ String " " (url ++ String " " (version ++ String "010" "")))%string
        by (by rewrite !append_assoc).
      rewrite !split_from_sep by done.
      pose proof (split_from_length (version ++ String "010" "") " " "") as Hlen.
      destruct (Installer.split_from (version ++ String "010" "") " " "");
        [simpl in Hlen; lia|done].
Qed.

(** [MergeMaps]: the last map that binds a key gives its value. *)
Lemma first_bound_app maps1 maps2 key :
  first_bound (maps1 ++ maps2) key
  = match first_bound maps1 key with
    | Some v => Some v
    | None => first_bound maps2 key
    end.
Proof.
  induction maps1 as [|m maps1 IH]; [done|]. simpl.
  by destruct (m !! key).
Qed.

Lemma foldl_merge_lookup (maps : list vars) (merged : vars) key :
  foldl (fun merged m => m ∪ merged) merged maps !! key
  = first_bound (rev maps ++ [merged]) key.
Proof.
  revert merged. induction maps as [|m maps IH]; intros merged.
  - simpl. by destruct (merged !! key).
  - simpl. rewrite IH, <- app_assoc, !first_bound_app. simpl.
    rewrite lookup_union. destruct (first_bound (rev maps) key); [done|].
    destruct (m !! key), (merged !! key); done.
Qed.

Lemma MergeMaps_lookup maps key : MergeMaps maps !! key = first_bound (rev maps) key.
Proof.
  unfold MergeMaps. rewrite foldl_merge_lookup, first_bound_app. simpl.
  rewrite lookup_empty. by destruct (first_bound (rev maps) key).
Qed.

(** A request made from a model or from a raw request keeps the values
    it was evaluated with. *)
Lemma makeHTTPRequestFromModel_values order r data values generatorValues agent
    generated r' :
  makeHTTPRequestFromModel_in order r data values generatorValues agent
  = (inl generated, r') ->
  Generator.dynamicValues generated = Some (MergeMaps [generatorValues; values]).
Proof.
  unfold makeHTTPRequestFromModel_in.
  destruct (replace_markers r data) as [text r0].
  destruct (Evaluate text _) as [url|]; [|done].
  destruct (Evaluate _ _) as [method|]; [|done].
  destruct (NewRequestWithContext _ _ _) as [req0|]; [|done].
  destruct (fillRequest_in _ _ _ _ _) as [[req|err] r1]; [|done]. by intros [= <- _].
Qed.

Lemma request_unchanged r text : request (replace_markers r text).2 = request r.
Proof. by rewrite GeneratorFacts.replace_markers_generator. Qed.

Lemma makeHTTPRequestFromRaw_values rorder order r baseURL data values payloads agent
    generated r' :
  Unsafe (request r) = false ->
  makeHTTPRequestFromRaw_in rorder order r baseURL data values payloads agent
  = (inl generated, r') ->
  Generator.dynamicValues generated = Some (MergeMaps [payloads; values]).
Proof.
  intros Hsafe. unfold makeHTTPRequestFromRaw_in.
  pose proof (request_unchanged r data) as Hrequest.
  destruct (replace_markers r data) as [text r0]. simpl in Hrequest.
  unfold handleRawWithPayloads_in. rewrite Hrequest, Hsafe.
  destruct (Evaluate text _) as [evaluated|]; [|done].
  destruct (raw_Parse _ _ _) as [rawRequestData|]; [|done].
  destruct (NewRequestWithContext _ _ _) as [req0|]; [|done].
  destruct (fillRequest_in _ _ _ _ _) as [[req|err] r1]; [|done].
  destruct (parseAnnotations _ _ _) as [[? ?]|]; by intros [= <- _].
Qed.

(** X29.  Which value a variable has in a self-contained request, when
    several of the maps bind it.  For a request that is not raw the
    options of the command line come first, then the dynamic values, then
    the payloads.  For a raw request (not unsafe) the options come first,
    then the payloads, then the defaults of the signature, then the
    variables of the URL of the request line, and the dynamic values come
    last: between payloads and dynamic values the two kinds of request
    decide the other way round. *)
Theorem self_contained_precedence rorder order r data payloads dynamic agent generated r' :
  makeSelfContainedRequest_in rorder order r data payloads dynamic agent
  = (inl generated, r') ->
  (isRaw (request r) = false ->
   exists final,
     Generator.dynamicValues generated = Some final /\
     forall key,
       final !! key = first_bound [BuildPayloadFromOptions; dynamic; payloads] key) /\
  (isRaw (request r) = true -> Unsafe (request r) = false ->
   exists final parsed,
     Generator.dynamicValues generated = Some final /\
     forall key,
       final !! key
       = first_bound
           ([BuildPayloadFromOptions; payloads]
            ++ match GetVariablesDefault (request r) with
               | Some defaultList => [defaultList]
               | None => []
               end
            ++ [GenerateVariablesWithURL parsed false; dynamic]) key).
Proof.
  unfold makeSelfContainedRequest_in. intros Hmade. split.
  - intros Hraw. rewrite Hraw in Hmade.
    apply makeHTTPRequestFromModel_values in Hmade. eexists. split; [exact Hmade|].
    intros key. rewrite MergeMaps_lookup. simpl. rewrite MergeMaps_lookup. simpl.
    destruct (BuildPayloadFromOptions !! key); [done|].
    by destruct (dynamic !! key), (payloads !! key).
  - intros Hraw Hsafe. rewrite Hraw in Hmade.
    destruct (read_line data "") as [s|]; [|done].
    destruct (Installer.Split s " ") as [|method [|url [|version parts]]]; try done.
    unfold raw_request_for in Hmade.
    destruct (match GetVariablesNamesSkipList (request r) with
              | Some ignoreList => _
              | None => _
              end); [done|].
    destruct (ParseURL _ true) as [parsed|]; [|done].
    apply makeHTTPRequestFromRaw_values in Hmade; [|done].
    eexists _, parsed. split; [exact Hmade|]. intros key.
    rewrite !MergeMaps_lookup. simpl. rewrite !MergeMaps_lookup. simpl.
    destruct (GetVariablesDefault (request r)) as [defaultList|].
    + rewrite !MergeMaps_lookup. simpl. rewrite !MergeMaps_lookup. simpl.
      destruct (BuildPayloadFromOptions !! key); [done|].
      destruct (payloads !! key); [done|].
      destruct (defaultList !! key); [done|].
      destruct (GenerateVariablesWithURL parsed false !! key); [done|].
      by destruct (dynamic !! key).
    + rewrite !MergeMaps_lookup. simpl.
      destruct (BuildPayloadFromOptions !! key); [done|].
      destruct (payloads !! key); [done|].
      destruct (GenerateVariablesWithURL parsed false !! key); [done|].
      by destruct (dynamic !! key).
Qed.

End Make.

(** ** Concrete runs *)

Lemma request_line_of_raw_witness :
  let r := GeneratorRuns.generator_of GeneratorRuns.raw_probe in
  let make :=
    @makeSelfContainedRequest_in GeneratorRuns.plain_tools
      GeneratorRuns.self_contained_tools
      (fun parsed => map_to_list (raw.Headers parsed))
      (map_to_list (Headers (request r))) r in
  make GeneratorRuns.unterminated_request ∅ ∅ "scanner/1.0"
  = (inr (Wrap EOF "could not read request"), r) /\
  make GeneratorRuns.annotated_request ∅ ∅ "scanner/1.0"
  = @raw_request_for GeneratorRuns.plain_tools GeneratorRuns.self_contained_tools
      (fun parsed => map_to_list (raw.Headers parsed))
      (map_to_list (Headers (request r))) r GeneratorRuns.annotated_request ∅ ∅
      "scanner/1.0" "http://example.com/admin".
Proof.
  intros r make. split.
  - destruct (request_line_of_raw (G := GeneratorRuns.plain_tools)
                (S := GeneratorRuns.self_contained_tools)
                (fun parsed => map_to_list (raw.Headers parsed))
                (map_to_list (Headers (request r))) r
                GeneratorRuns.unterminated_request ∅ ∅ "scanner/1.0" eq_refl)
      as (_ & Hend & _).
    apply (Hend ["timeout: 5s"] "GET http://example.com/admin HTTP/1.1" eq_refl).
    + repeat constructor.
    + reflexivity.
  - destruct (request_line_of_raw (G := GeneratorRuns.plain_tools)
                (S := GeneratorRuns.self_contained_tools)
                (fun parsed => map_to_list (raw.Headers parsed))
                (map_to_list (Headers (request r))) r
                GeneratorRuns.annotated_request ∅ ∅ "scanner/1.0" eq_refl)
      as (_ & _ & Hline).
    destruct (Hline ["timeout: 5s"] "GET http://example.com/admin HTTP/1.1" ""
                eq_refl ltac:(repeat constructor) eq_refl eq_refl) as [_ Hurl].
    apply (Hurl "GET" "http://example.com/admin" "HTTP/1.1" eq_refl eq_refl eq_refl).
Defined.

Lemma self_contained_precedence_witness :
  let r := GeneratorRuns.generator_of GeneratorRuns.raw_probe in
  let payloads : vars := {["path" := VString "from the payloads"]} in
  let dynamic : vars := {["path" := VString "from an extractor"]} in
  exists generated r' final,
    @makeSelfContainedRequest_in GeneratorRuns.plain_tools
      GeneratorRuns.self_contained_tools
      (fun parsed => map_to_list (raw.Headers parsed))
      (map_to_list (Headers (request r))) r GeneratorRuns.annotated_request
      payloads dynamic "scanner/1.0" = (inl generated, r') /\
    Generator.dynamicValues generated = Some final /\
    final !! "path" = Some (VString "from the payloads").
Proof.
  intros r payloads dynamic.
  assert (exists generated r',
            @makeSelfContainedRequest_in GeneratorRuns.plain_tools
              GeneratorRuns.self_contained_tools
              (fun parsed => map_to_list (raw.Headers parsed))
              (map_to_list (Headers (request r))) r GeneratorRuns.annotated_request
              payloads dynamic "scanner/1.0" = (inl generated, r'))
    as (generated & r' & Hrun) by (eexists _, _; vm_compute; reflexivity).
  destruct (self_contained_precedence (G := GeneratorRuns.plain_tools)
              (S := GeneratorRuns.self_contained_tools) _ _ _ _ _ _ _ _ _ Hrun)
    as [_ Hraw].
  destruct (Hraw eq_refl eq_refl) as (final & parsed & Hfinal & Hkey).
  exists generated, r', final. split; [exact Hrun|]. split; [exact Hfinal|].
  rewrite Hkey. reflexivity.
Defined.

End SelfContainedFacts.

(* ===================================================================== *)
(** * Facts about the path a file of the archive is written to            *)
(* ===================================================================== *)

Module InstallPathFacts.
Import Go GoFacts StringFacts InstallerFacts filepath InstallPath.

Lemma concat_cons sep x y l :
  String.concat sep (x :: y :: l) = (x ++ sep ++ String.concat sep (y :: l))%string.
Proof. done. Qed.

Lemma concat_app sep l1 l2 :
  l1 <> [] -> l2 <> [] ->
  String.concat sep (l1 ++ l2)
  = (String.concat sep l1 ++ sep ++ String.concat sep l2)%string.
Proof.
  intros Hl1 Hl2. induction l1 as [|x [|y l1] IH]; [done| |].
  - destruct l2 as [|z l2]; [done|]. done.
  - change ((x :: y :: l1) ++ l2) with (x :: y :: (l1 ++ l2)).
    rewrite !concat_cons. change (y :: l1 ++ l2) with ((y :: l1) ++ l2).
    rewrite IH by done. by rewrite !append_assoc.
Qed.

(** A path of elements without separator splits into its elements. *)
Lemma Split_concat names :
  Forall (fun name => Installer.count_byte "/" name = 0) names -> names <> [] ->
  Installer.Split (String.concat "/" names) "/" = names.
Proof.
  unfold Installer.Split. induction 1 as [|x names Hx Hnames IH]; [done|]. intros _.
  destruct names as [|y names].
  - simpl. by rewrite split_from_none.
  - rewrite concat_cons. change ("/" ++ String.concat "/" (y :: names))%string
      with (String "/" (String.concat "/" (y :: names))).
    rewrite split_from_sep by done. by rewrite IH.
Qed.

Lemma Split_rooted names :
  Forall (fun name => Installer.count_byte "/" name = 0) names -> names <> [] ->
  Installer.Split (rooted names) "/" = "" :: names.
Proof.
  intros Hnames Hne. unfold rooted, Installer.Split.
  change ("/" ++ String.concat "/" names)%string with (String "/" (String.concat "/" names)).
  simpl. f_equal. by apply Split_concat.
Qed.

(** [Clean] keeps the elements of a rooted path of names. *)
Lemma clean_elements out names :
  Forall element names ->
  foldl (clean_element true) out names = rev names ++ out.
Proof.
  intros Hnames. revert out. induction Hnames as [|x names Hx Hnames IH]; intros out.
  - done.
  - simpl. destruct Hx as (_ & Hempty & Hdot & Hdots).
    unfold clean_element at 2.
    apply String.eqb_neq in Hempty, Hdot, Hdots. rewrite Hempty, Hdot, Hdots. simpl.
    rewrite IH. by rewrite <- app_assoc.
Qed.

Lemma rooted_not_empty names : String.eqb (rooted names) "" = false.
Proof. done. Qed.

Lemma rooted_HasPrefix names : HasPrefix (rooted names) "/" = true.
Proof. unfold rooted. change (true && HasPrefix (String.concat "/" names) "" = true).
  by rewrite HasPrefix_empty. Qed.

Lemma element_no_separator names :
  Forall element names -> Forall (fun name => Installer.count_byte "/" name = 0) names.
Proof. intros Hnames. eapply Forall_impl; [exact Hnames|]. by intros name [? _]. Qed.

Lemma Clean_rooted names :
  Forall element names -> names <> [] -> Clean (rooted names) = rooted names.
Proof.
  intros Hnames Hne. unfold Clean.
  rewrite rooted_not_empty, rooted_HasPrefix, Split_rooted
    by (done || by apply element_no_separator).
  simpl. unfold clean_element at 2. simpl.
  rewrite clean_elements by done. by rewrite app_nil_r, rev_involutive.
Qed.

(** A step back out of the last directory and into a sibling. *)
Lemma Clean_sibling parents dir sibling file :
  Forall element parents -> element dir -> element sibling -> element file ->
  Clean (rooted (parents ++ [dir]) ++ "/" ++ String.concat "/" [".."; sibling; file])
  = rooted (parents ++ [sibling; file]).
Proof.
  intros Hparents Hdir Hsibling Hfile.
  assert (rooted (parents ++ [dir]) ++ "/" ++ String.concat "/" [".."; sibling; file]
          = rooted ((parents ++ [dir]) ++ [".."; sibling; file]))%string as ->.
  { unfold rooted. rewrite (concat_app "/" (parents ++ [dir])); [|by destruct parents|done].
    by rewrite !append_assoc. }
  unfold Clean. rewrite rooted_not_empty, rooted_HasPrefix, Split_rooted.
  - simpl. unfold clean_element at 2. simpl.
    rewrite !foldl_app, (clean_elements [] parents) by done. simpl.
    destruct Hdir as (_ & Hempty & Hdot & Hdots).
    destruct Hsibling as (_ & Hempty' & Hdot' & Hdots').
    destruct Hfile as (_ & Hempty'' & Hdot'' & Hdots'').
    apply String.eqb_neq in Hempty, Hdot, Hdots, Hempty', Hdot', Hdots',
      Hempty'', Hdot'', Hdots''.
    unfold clean_element.
    rewrite Hempty, Hdot, Hdots, Hempty', Hdot', Hdots', Hempty'', Hdot'', Hdots''.
    simpl. rewrite Hdots. simpl. rewrite app_nil_r.
    rewrite rev_involutive. unfold rooted. by rewrite <- app_assoc.
  - apply Forall_app. split.
    + apply Forall_app. split; [by apply element_no_separator|].
      constructor; [by destruct Hdir|constructor].
    + repeat constructor; [by destruct Hsibling|by destruct Hfile].
  - by destruct parents.
Qed.

Lemma IndexByte_count c s : Installer.count_byte c s = 0 -> IndexByte s c = None.
Proof.
  induction s as [|a s IH]; [done|]. simpl. destruct (Ascii.eqb a c); [done|].
  intros Hs. by rewrite IH.
Qed.

Lemma HasPrefix_common p x y : HasPrefix (p ++ x) (p ++ y) = HasPrefix x y.
Proof.
  induction p as [|a p IH]; [done|]. rewrite !append_String.
  change (Ascii.eqb a a && HasPrefix (p ++ x) (p ++ y) = HasPrefix x y).
  by rewrite Ascii.eqb_refl, IH.
Qed.

Lemma HasPrefix_here p t : HasPrefix (p ++ t) p = true.
Proof.
  rewrite <- (append_empty_r p) at 2. rewrite HasPrefix_common. apply HasPrefix_empty.
Qed.

(** The part of a rooted path before its last element. *)
Lemma rooted_last parents :
  exists before, forall name rest,
    rooted (parents ++ name :: rest)
    = (before ++ String.concat "/" (name :: rest))%string.
Proof.
  destruct parents as [|p parents].
  - by exists "/".
  - exists ("/" ++ String.concat "/" (p :: parents) ++ "/")%string. intros name rest.
    unfold rooted. rewrite concat_app by done. by rewrite !append_assoc.
Qed.

Section Path.
Context `{U : Unicode} `{C : Config}.

(** X30.  What the guard of [getAbsoluteFilePath] against paths that
    leave the directory of the templates guarantees, and what it lets
    through.  A path that is returned is empty (the file is skipped), or
    the path of the ignore file, or, for an entry without directory, the
    join of the directory and the entry, or else it begins with the text
    of the directory.  This last test compares texts, not elements of
    paths: for the directory [/parents/dir] the entry
    [root/../dirsuffix/file] of a file that is not skipped is written to
    [/parents/dirsuffix/file], in a sibling of the directory, which for a
    suffix that is not empty does not lie below [/parents/dir/]. *)
Theorem prefix_guard_admits_sibling :
  (forall templatedir uri f,
     let path := (getAbsoluteFilePath templatedir uri f).1 in
     path = "" \/ path = GetIgnoreFilePath
     \/ (Index uri "/" = None /\ path = Join [templatedir; uri])
     \/ HasPrefix path templatedir = true) /\
  (forall parents dir suffix file root f,
     Forall element parents -> element dir -> element (dir ++ suffix) -> element file ->
     Installer.count_byte "/" root = 0 ->
     Name f = file -> IsDir f = false -> file <> NucleiIgnoreFileName ->
     TrimSpace file <> "" -> HasPrefix file "." = false ->
     EqualFold file "README.md" = false ->
     let templatedir := rooted (parents ++ [dir]) in
     let written := rooted (parents ++ [(dir ++ suffix)%string; file]) in
     getAbsoluteFilePath templatedir
       (root ++ "/" ++ String.concat "/" [".."; (dir ++ suffix)%string; file]) f
     = (written, []) /\
     (suffix <> "" -> HasPrefix written (templatedir ++ "/") = false)).
Proof.
  split.
  - intros templatedir uri f. unfold getAbsoluteFilePath.
    destruct (String.eqb (Name f) NucleiIgnoreFileName); [by right; left|].
    destruct (_ && _); [by left|].
    destruct (Index uri "/") as [index|]; [|by right; right; left].
    destruct (_ || _); [by left|].
    destruct (negb (HasPrefix _ templatedir)) eqn:Hguard; [by left|].
    apply negb_false_iff in Hguard.
    destruct (_ && _); [|by right; right; right].
    destruct (CreateFolder _); by left.
  - intros parents dir suffix file root f Hparents Hdir Hsibling Hfile Hroot Hname Hfolder
      Hignore Hspace Hhidden Hreadme templatedir written.
    set (relPath := String.concat "/" [".."; (dir ++ suffix)%string; file]).
    assert (Clean (Join [templatedir; relPath]) = written) as Hclean.
    { assert (Join [templatedir; relPath] = written) as ->.
      { unfold Join. fold Join. unfold templatedir at 1. rewrite rooted_not_empty.
        change (String.concat "/" [templatedir; relPath])
          with (templatedir ++ "/" ++ relPath)%string.
        by apply Clean_sibling. }
      apply Clean_rooted; [|by destruct parents].
      apply Forall_app. split; [done|]. constructor; [done|]. by constructor. }
    destruct (rooted_last parents) as [before Hbefore].
    assert (templatedir = (before ++ dir)%string) as Htemplatedir
      by apply (Hbefore dir []).
    assert (written = (before ++ (dir ++ suffix) ++ "/" ++ file)%string) as Hwritten
      by apply (Hbefore (dir ++ suffix)%string [file]).
    split.
    + unfold getAbsoluteFilePath. rewrite Hname.
      apply String.eqb_neq in Hignore, Hspace. rewrite Hignore, Hspace, Hhidden, Hreadme.
      rewrite !orb_false_r, andb_false_r.
      change ("/" ++ relPath)%string with (String "/" relPath).
      rewrite Index_byte, IndexByte_app_first by (by apply IndexByte_count).
      assert (str_take (String.length root + 1) (root ++ String "/" relPath)
              = (root ++ "/")%string) as ->.
      { rewrite <- (str_take_app (root ++ "/") relPath).
        rewrite length_append, append_assoc. done. }
      assert (HasPrefix (root ++ String "/" relPath) (root ++ "/") = true) as ->.
      { change (root ++ String "/" relPath)%string with (root ++ "/" ++ relPath)%string.
        rewrite <- append_assoc. apply HasPrefix_here. }
      assert (str_drop (String.length (root ++ "/")) (root ++ String "/" relPath) = relPath)
        as ->.
      { change (root ++ String "/" relPath)%string with (root ++ "/" ++ relPath)%string.
        rewrite <- append_assoc. apply str_drop_app. }
      change (HasPrefix relPath ".github" || HasPrefix relPath ".git") with false.
      cbv iota. rewrite Hclean.
      assert (HasPrefix written templatedir = true) as ->.
      { rewrite Hwritten, Htemplatedir, HasPrefix_common, append_assoc.
        apply HasPrefix_here. }
      rewrite Hfolder, andb_false_r. done.
    + intros Hsuffix. rewrite Hwritten, Htemplatedir, !append_assoc, !HasPrefix_common.
      destruct suffix as [|c suffix]; [done|].
      destruct Hsibling as (Hcount & _). rewrite count_byte_app in Hcount.
      simpl in Hcount. change (Ascii.eqb "/" c && HasPrefix (suffix ++ "/" ++ file) "" = false).
      destruct (Ascii.eqb c "/") eqn:Hc; [lia|].
      rewrite Ascii.eqb_sym, Hc. done.
Qed.

End Path.

(** ** A concrete run *)

Lemma prefix_guard_admits_sibling_witness :
  @getAbsoluteFilePath GoAscii.ascii_unicode InstallRuns.install_config
    "/home/user/nuclei-templates"
    "nuclei-templates-9.6.2/../nuclei-templates-old/cve.yaml"
    (InstallRuns.template_file "cve.yaml")
  = ("/home/user/nuclei-templates-old/cve.yaml", []).
Proof.
  destruct (prefix_guard_admits_sibling (U := GoAscii.ascii_unicode)
              (C := InstallRuns.install_config)) as [_ Hsibling].
  assert (forall name, Installer.count_byte "/" name = 0 -> name <> "" -> name <> "." ->
                       name <> ".." -> element name) as Helement.
  { intros name ? ? ? ?. by repeat split. }
  apply (Hsibling ["home"; "user"] "nuclei-templates" "-old" "cve.yaml"
           "nuclei-templates-9.6.2" (InstallRuns.template_file "cve.yaml")).
  - repeat constructor; apply Helement; done.
  - by apply Helement.
  - by apply Helement.
  - by apply Helement.
  - reflexivity.
  - reflexivity.
  - reflexivity.
  - discriminate.
  - vm_compute. discriminate.
  - reflexivity.
  - reflexivity.
Defined.

End InstallPathFacts.
